(** * Plant monitor (main.py): scheduling and resilience engine

    A shallow embedding of the MicroPython program [main.py] and the
    properties of its fault tracker, aggregator, connectivity manager,
    health evaluator and tick loop.

    Conventions of the embedding.
    - Python [int] is [Z]; sensor readings and means are exact rationals
      [Q] (the rounding of MicroPython floats is not represented).
    - The dictionaries [sensor_status] and [failed_sensor_reads] are finite
      maps keyed by strings, and a subscript of a missing key raises
      [KeyError]; [connection_status], whose three keys are only ever
      written as literals, is a record.
    - Hardware and network calls are answered by a [world]: the answer to
      the n-th call of a run.  Every call is recorded in [trace] (newest
      first), so that "was attempted" is a statement about the trace.
    - [print] and [time.sleep] are left out: they touch no program state.
    - The program makes a few calls outside any [try]: the set-up of the
      I2C bus, the WLAN calls and the garbage collector.  The main
      development takes these calls to return, and leaves out those whose
      result is only printed ([i2c.scan], [wlan.ifconfig], [gc.mem_free],
      [gc.mem_alloc]).  Module [Strict] gives the functions concerned
      without this convention: there every such call is made, and one
      that raises ends the program.  [time.time] only reads the clock and
      is taken to return throughout. *)

From Stdlib Require Import ZArith QArith Lia.
From stdpp Require Import gmap strings list pretty.

Local Open Scope Z_scope.

(** ** Configuration: the names [main.py] imports from [config.py] *)

Record config := mkConfig {
  SENSOR_READ_INTERVAL : Z;
  PUBLISH_INTERVAL : Z;
  STATUS_UPDATE_INTERVAL : Z;
  SOIL_MOISTURE_DRY : Z;
  SOIL_MOISTURE_WET : Z
}.

(** The values of [config_example.py]. *)
Definition config_example : config :=
  {| SENSOR_READ_INTERVAL := 6;
     PUBLISH_INTERVAL := 60;
     STATUS_UPDATE_INTERVAL := 300;
     SOIL_MOISTURE_DRY := 41000;
     SOIL_MOISTURE_WET := 18000 |}.

(** ** Exceptions and results *)

Inductive exn :=
| OSError
| KeyError (key : string)
| ZeroDivisionError
| TypeError.

Inductive result (A : Type) :=
| Val (a : A)
| Exc (e : exn).
Arguments Val {A} a.
Arguments Exc {A} e.

(** ** Calls that leave the program *)

(** What is handed to [mqtt_client.publish]: a literal string, [str] of a
    number, or the JSON discovery document of one sensor id. *)
Inductive payload :=
| PStr (s : string)
| PNum (q : Q)
| PConfig (sensor_id : string).

Inductive call :=
| TimeTime
| GcCollect
| WlanNew
| WlanActive
| WlanIsConnected
| WlanConnect
| MqttDisconnect
| MqttConnect
| MqttPublish (topic : string) (p : payload) (retain : bool)
| MqttCheckMsg
| MqttPing
| OledNew
| OledFill
| OledText (label : string) (v : option Q)
| OledShow
| Bh1750New
| Bh1750Luminance
| Dht11New
| DhtMeasure
| DhtTemperature
| DhtHumidity
| AdcNew
| AdcReadU16
| SoftI2CNew
| I2cScan
| WlanIfconfig
| GcMemFree
| GcMemAlloc.

(** The answer of the outside to one call; each call reads the component
    that fits its return type. *)
Record reply := mkReply {
  raises : bool;
  as_bool : bool;
  as_num : Q;
  as_int : Z
}.

Definition world := nat -> reply.

(** ** Program state: the module-level globals *)

Inductive handle := Handle.

(** [connection_status] *)
Record conn := mkConn {
  wifi : bool;
  mqtt : bool;
  last_successful_publish : Z
}.

Definition with_wifi (b : bool) (c : conn) : conn :=
  mkConn b (mqtt c) (last_successful_publish c).
Definition with_mqtt (b : bool) (c : conn) : conn :=
  mkConn (wifi c) b (last_successful_publish c).
Definition with_last_successful_publish (t : Z) (c : conn) : conn :=
  mkConn (wifi c) (mqtt c) t.

Record state := mkState {
  oled : option handle;
  light_sensor : option handle;
  dht_sensor : option handle;
  soil_moisture_adc : option handle;
  wlan : option handle;
  mqtt_client : option handle;
  sensor_status : gmap string bool;
  failed_sensor_reads : gmap string Z;
  connection_status : conn;
  last_publish_time : Z;
  last_sensor_read_time : Z;
  last_connection_check : Z;
  last_status_update : Z;
  last_gc_time : Z;
  temp_readings : list Q;
  hum_readings : list Q;
  lux_readings : list Q;
  moisture_readings : list Q;
  trace : list call
}.

(** The globals as the module body first assigns them. *)
Definition initial_state : state :=
  {| oled := None; light_sensor := None; dht_sensor := None;
     soil_moisture_adc := None; wlan := None; mqtt_client := None;
     sensor_status :=
       <["dht11" := false]> (<["bh1750" := false]>
         (<["soil_moisture" := false]> (<["oled" := false]> ∅)));
     failed_sensor_reads :=
       <["dht11" := 0]> (<["bh1750" := 0]> (<["soil_moisture" := 0]> ∅));
     connection_status := mkConn false false 0;
     last_publish_time := 0; last_sensor_read_time := 0;
     last_connection_check := 0; last_status_update := 0;
     last_gc_time := 0;
     temp_readings := []; hum_readings := []; lux_readings := [];
     moisture_readings := [];
     trace := [] |}.

Definition set_oled (v : option handle) (s : state) : state :=
  mkState v (light_sensor s) (dht_sensor s) (soil_moisture_adc s) (wlan s)
  (mqtt_client s) (sensor_status s) (failed_sensor_reads s) (connection_status
  s) (last_publish_time s) (last_sensor_read_time s) (last_connection_check s)
  (last_status_update s) (last_gc_time s) (temp_readings s) (hum_readings s)
  (lux_readings s) (moisture_readings s) (trace s).
Definition set_light_sensor (v : option handle) (s : state) : state :=
  mkState (oled s) v (dht_sensor s) (soil_moisture_adc s) (wlan s)
  (mqtt_client s) (sensor_status s) (failed_sensor_reads s) (connection_status
  s) (last_publish_time s) (last_sensor_read_time s) (last_connection_check s)
  (last_status_update s) (last_gc_time s) (temp_readings s) (hum_readings s)
  (lux_readings s) (moisture_readings s) (trace s).
Definition set_dht_sensor (v : option handle) (s : state) : state :=
  mkState (oled s) (light_sensor s) v (soil_moisture_adc s) (wlan s)
  (mqtt_client s) (sensor_status s) (failed_sensor_reads s) (connection_status
  s) (last_publish_time s) (last_sensor_read_time s) (last_connection_check s)
  (last_status_update s) (last_gc_time s) (temp_readings s) (hum_readings s)
  (lux_readings s) (moisture_readings s) (trace s).
Definition set_soil_moisture_adc (v : option handle) (s : state) : state :=
  mkState (oled s) (light_sensor s) (dht_sensor s) v (wlan s) (mqtt_client s)
  (sensor_status s) (failed_sensor_reads s) (connection_status s)
  (last_publish_time s) (last_sensor_read_time s) (last_connection_check s)
  (last_status_update s) (last_gc_time s) (temp_readings s) (hum_readings s)
  (lux_readings s) (moisture_readings s) (trace s).
Definition set_wlan (v : option handle) (s : state) : state :=
  mkState (oled s) (light_sensor s) (dht_sensor s) (soil_moisture_adc s) v
  (mqtt_client s) (sensor_status s) (failed_sensor_reads s) (connection_status
  s) (last_publish_time s) (last_sensor_read_time s) (last_connection_check s)
  (last_status_update s) (last_gc_time s) (temp_readings s) (hum_readings s)
  (lux_readings s) (moisture_readings s) (trace s).
Definition set_mqtt_client (v : option handle) (s : state) : state :=
  mkState (oled s) (light_sensor s) (dht_sensor s) (soil_moisture_adc s) (wlan
  s) v (sensor_status s) (failed_sensor_reads s) (connection_status s)
  (last_publish_time s) (last_sensor_read_time s) (last_connection_check s)
  (last_status_update s) (last_gc_time s) (temp_readings s) (hum_readings s)
  (lux_readings s) (moisture_readings s) (trace s).
Definition set_sensor_status (v : gmap string bool) (s : state) : state :=
  mkState (oled s) (light_sensor s) (dht_sensor s) (soil_moisture_adc s) (wlan
  s) (mqtt_client s) v (failed_sensor_reads s) (connection_status s)
  (last_publish_time s) (last_sensor_read_time s) (last_connection_check s)
  (last_status_update s) (last_gc_time s) (temp_readings s) (hum_readings s)
  (lux_readings s) (moisture_readings s) (trace s).
Definition set_failed_sensor_reads (v : gmap string Z) (s : state) : state :=
  mkState (oled s) (light_sensor s) (dht_sensor s) (soil_moisture_adc s) (wlan
  s) (mqtt_client s) (sensor_status s) v (connection_status s)
  (last_publish_time s) (last_sensor_read_time s) (last_connection_check s)
  (last_status_update s) (last_gc_time s) (temp_readings s) (hum_readings s)
  (lux_readings s) (moisture_readings s) (trace s).
Definition set_connection_status (v : conn) (s : state) : state :=
  mkState (oled s) (light_sensor s) (dht_sensor s) (soil_moisture_adc s) (wlan
  s) (mqtt_client s) (sensor_status s) (failed_sensor_reads s) v
  (last_publish_time s) (last_sensor_read_time s) (last_connection_check s)
  (last_status_update s) (last_gc_time s) (temp_readings s) (hum_readings s)
  (lux_readings s) (moisture_readings s) (trace s).
Definition set_last_publish_time (v : Z) (s : state) : state :=
  mkState (oled s) (light_sensor s) (dht_sensor s) (soil_moisture_adc s) (wlan
  s) (mqtt_client s) (sensor_status s) (failed_sensor_reads s)
  (connection_status s) v (last_sensor_read_time s) (last_connection_check s)
  (last_status_update s) (last_gc_time s) (temp_readings s) (hum_readings s)
  (lux_readings s) (moisture_readings s) (trace s).
Definition set_last_sensor_read_time (v : Z) (s : state) : state :=
  mkState (oled s) (light_sensor s) (dht_sensor s) (soil_moisture_adc s) (wlan
  s) (mqtt_client s) (sensor_status s) (failed_sensor_reads s)
  (connection_status s) (last_publish_time s) v (last_connection_check s)
  (last_status_update s) (last_gc_time s) (temp_readings s) (hum_readings s)
  (lux_readings s) (moisture_readings s) (trace s).
Definition set_last_connection_check (v : Z) (s : state) : state :=
  mkState (oled s) (light_sensor s) (dht_sensor s) (soil_moisture_adc s) (wlan
  s) (mqtt_client s) (sensor_status s) (failed_sensor_reads s)
  (connection_status s) (last_publish_time s) (last_sensor_read_time s) v
  (last_status_update s) (last_gc_time s) (temp_readings s) (hum_readings s)
  (lux_readings s) (moisture_readings s) (trace s).
Definition set_last_status_update (v : Z) (s : state) : state :=
  mkState (oled s) (light_sensor s) (dht_sensor s) (soil_moisture_adc s) (wlan
  s) (mqtt_client s) (sensor_status s) (failed_sensor_reads s)
  (connection_status s) (last_publish_time s) (last_sensor_read_time s)
  (last_connection_check s) v (last_gc_time s) (temp_readings s) (hum_readings
  s) (lux_readings s) (moisture_readings s) (trace s).
Definition set_last_gc_time (v : Z) (s : state) : state :=
  mkState (oled s) (light_sensor s) (dht_sensor s) (soil_moisture_adc s) (wlan
  s) (mqtt_client s) (sensor_status s) (failed_sensor_reads s)
  (connection_status s) (last_publish_time s) (last_sensor_read_time s)
  (last_connection_check s) (last_status_update s) v (temp_readings s)
  (hum_readings s) (lux_readings s) (moisture_readings s) (trace s).
Definition set_temp_readings (v : list Q) (s : state) : state :=
  mkState (oled s) (light_sensor s) (dht_sensor s) (soil_moisture_adc s) (wlan
  s) (mqtt_client s) (sensor_status s) (failed_sensor_reads s)
  (connection_status s) (last_publish_time s) (last_sensor_read_time s)
  (last_connection_check s) (last_status_update s) (last_gc_time s) v
  (hum_readings s) (lux_readings s) (moisture_readings s) (trace s).
Definition set_hum_readings (v : list Q) (s : state) : state :=
  mkState (oled s) (light_sensor s) (dht_sensor s) (soil_moisture_adc s) (wlan
  s) (mqtt_client s) (sensor_status s) (failed_sensor_reads s)
  (connection_status s) (last_publish_time s) (last_sensor_read_time s)
  (last_connection_check s) (last_status_update s) (last_gc_time s)
  (temp_readings s) v (lux_readings s) (moisture_readings s) (trace s).
Definition set_lux_readings (v : list Q) (s : state) : state :=
  mkState (oled s) (light_sensor s) (dht_sensor s) (soil_moisture_adc s) (wlan
  s) (mqtt_client s) (sensor_status s) (failed_sensor_reads s)
  (connection_status s) (last_publish_time s) (last_sensor_read_time s)
  (last_connection_check s) (last_status_update s) (last_gc_time s)
  (temp_readings s) (hum_readings s) v (moisture_readings s) (trace s).
Definition set_moisture_readings (v : list Q) (s : state) : state :=
  mkState (oled s) (light_sensor s) (dht_sensor s) (soil_moisture_adc s) (wlan
  s) (mqtt_client s) (sensor_status s) (failed_sensor_reads s)
  (connection_status s) (last_publish_time s) (last_sensor_read_time s)
  (last_connection_check s) (last_status_update s) (last_gc_time s)
  (temp_readings s) (hum_readings s) (lux_readings s) v (trace s).
Definition set_trace (v : list call) (s : state) : state :=
  mkState (oled s) (light_sensor s) (dht_sensor s) (soil_moisture_adc s) (wlan
  s) (mqtt_client s) (sensor_status s) (failed_sensor_reads s)
  (connection_status s) (last_publish_time s) (last_sensor_read_time s)
  (last_connection_check s) (last_status_update s) (last_gc_time s)
  (temp_readings s) (hum_readings s) (lux_readings s) (moisture_readings s) v.

(** ** The monad of the program: state, and exceptions that keep the state *)

Definition M (A : Type) : Type := state -> result A * state.

Definition ret {A} (a : A) : M A := fun s => (Val a, s).

Definition bind {A B} (m : M A) (k : A -> M B) : M B :=
  fun s =>
    match m s with
    | (Val a, s') => k a s'
    | (Exc e, s') => (Exc e, s')
    end.

Declare Scope py_scope.
Delimit Scope py_scope with py.
Bind Scope py_scope with M.
Notation "x <- m ; k" := (bind m (fun x => k))
  (at level 20, m at level 100, k at level 200, only parsing) : py_scope.
Notation "m ;; k" := (bind m (fun _ => k))
  (at level 100, k at level 200, only parsing, right associativity)
  : py_scope.
Local Open Scope py_scope.

Definition raise {A} (e : exn) : M A := fun s => (Exc e, s).

(** [try: body  except Exception: handler] (and the bare [except:]);
    what the body did to the state before raising stays done. *)
Definition try_except {A} (body handler : M A) : M A :=
  fun s =>
    match body s with
    | (Val a, s') => (Val a, s')
    | (Exc _, s') => handler s'
    end.

Definition gets {A} (f : state -> A) : M A := fun s => (Val (f s), s).
Definition modify (f : state -> state) : M unit := fun s => (Val tt, f s).
Definition lift {A} (r : result A) : M A := fun s => (r, s).
Definition when (b : bool) (m : M unit) : M unit := if b then m else ret tt.

(** [d[k]]: raises [KeyError] on a missing key. *)
Definition dict_get {V} (d : state -> gmap string V) (k : string) : M V :=
  fun s =>
    match d s !! k with
    | Some v => (Val v, s)
    | None => (Exc (KeyError k), s)
    end.

Definition not_none {A} (o : option A) : bool :=
  match o with Some _ => true | None => false end.

Definition set_wifi (b : bool) : M unit :=
  modify (fun s => set_connection_status (with_wifi b (connection_status s)) s).
Definition set_mqtt (b : bool) : M unit :=
  modify (fun s => set_connection_status (with_mqtt b (connection_status s)) s).

Definition state_topic (sensor_id : string) : string :=
  "homeassistant/sensor/pico_w_01/" +:+ sensor_id +:+ "/state".
Definition config_topic (sensor_id : string) : string :=
  "homeassistant/sensor/pico_w_01/" +:+ sensor_id +:+ "/config".

(** ** Pure parts *)

(** [get_soil_moisture_percent].  The true division followed by [int()]
    is the quotient truncated towards zero. *)
Definition get_soil_moisture_percent (raw_value dry wet : Z) : result Z :=
  let raw_value := Z.max (Z.min raw_value dry) wet in
  if dry - wet =? 0 then Exc ZeroDivisionError
  else Val (Z.quot ((dry - raw_value) * 100) (dry - wet)).

(** [sum(readings)]: the left fold from 0. *)
Definition py_sum (readings : list Q) : Q := fold_left Qplus readings 0%Q.

(** [sum(readings) / len(readings) if readings else None], the expression
    the publish cycle evaluates for each of the four windows. *)
Definition mean_or_none (readings : list Q) : option Q :=
  match readings with
  | [] => None
  | _ :: _ => Some (py_sum readings / inject_Z (Z.of_nat (length readings)))%Q
  end.

(** [sum] of a list of Python booleans. *)
Definition sum_bools (bs : list bool) : Z :=
  fold_left Z.add (Z.b2z <$> bs) 0.

Section Program.

Variable cfg : config.
Variable w : world.

(** ** Calls *)

(** Performs a call: logs it and obtains the world's answer. *)
Definition ask (c : call) : M reply :=
  fun s => (Val (w (length (trace s))), set_trace (c :: trace s) s).

(** A call that returns nothing and may raise. *)
Definition call_unit (c : call) : M unit :=
  r <- ask c; if raises r then raise OSError else ret tt.

(** A call that returns a number and may raise. *)
Definition call_num (c : call) : M Q :=
  r <- ask c; if raises r then raise OSError else ret (as_num r).

Definition call_int (c : call) : M Z :=
  r <- ask c; if raises r then raise OSError else ret (as_int r).

(** Calls the program makes outside any [try]; they are taken to return. *)
Definition call_pure (c : call) : M unit := _ <- ask c; ret tt.
Definition call_bool (c : call) : M bool := r <- ask c; ret (as_bool r).
Definition time_time : M Z := r <- ask TimeTime; ret (as_int r).

(** ** Sensor set-up *)

Definition set_status (name : string) (b : bool) : M unit :=
  modify (fun s => set_sensor_status (<[name := b]> (sensor_status s)) s).

(** The four [try] blocks of [initialize_sensors]; each leaves the driver
    global and its status flag in step. *)
Definition init_oled : M unit :=
  try_except
    (call_unit OledNew;;
     modify (set_oled (Some Handle));;
     call_unit OledFill;;
     call_unit (OledText "Starting..." None);;
     call_unit OledShow;;
     set_status "oled" true)
    (modify (set_oled None);; set_status "oled" false).

Definition init_bh1750 : M unit :=
  try_except
    (call_unit Bh1750New;;
     modify (set_light_sensor (Some Handle));;
     _ <- call_num Bh1750Luminance;
     set_status "bh1750" true)
    (modify (set_light_sensor None);; set_status "bh1750" false).

Definition init_dht11 : M unit :=
  try_except
    (call_unit Dht11New;;
     modify (set_dht_sensor (Some Handle));;
     set_status "dht11" true)
    (modify (set_dht_sensor None);; set_status "dht11" false).

Definition init_soil_moisture : M unit :=
  try_except
    (call_unit AdcNew;;
     modify (set_soil_moisture_adc (Some Handle));;
     _ <- call_int AdcReadU16;
     set_status "soil_moisture" true)
    (modify (set_soil_moisture_adc None);;
     set_status "soil_moisture" false).

(** [initialize_sensors], after the I2C bus is made. *)
Definition initialize_sensors : M unit :=
  init_oled;; init_bh1750;; init_dht11;; init_soil_moisture.

(** ** Connectivity *)

(** The [while not wlan.isconnected() and attempt < 10] loop;
    [remaining] is [10 - attempt]. *)
Fixpoint wifi_wait (remaining : nat) : M unit :=
  c <- call_bool WlanIsConnected;
  if c then ret tt
  else match remaining with
       | O => ret tt
       | S k => wifi_wait k
       end.

Definition connect_wifi : M bool :=
  wl <- gets wlan;
  when (negb (not_none wl))
    (call_pure WlanNew;; modify (set_wlan (Some Handle)));;
  call_pure WlanActive;;
  c <- call_bool WlanIsConnected;
  when (negb c) (call_pure WlanConnect;; wifi_wait 10);;
  connected <- call_bool WlanIsConnected;
  set_wifi connected;;
  ret connected.

(** [connect_mqtt].  Building the [MQTTClient] object performs no I/O; it
    is the assignment of the global. *)
Definition connect_mqtt : M bool :=
  try_except
    (cl <- gets mqtt_client;
     when (not_none cl) (try_except (call_unit MqttDisconnect) (ret tt));;
     modify (set_mqtt_client (Some Handle));;
     call_unit MqttConnect;;
     set_mqtt true;;
     call_unit (MqttPublish (state_topic "test") (PStr "connected") false);;
     ret true)
    (modify (set_mqtt_client None);; set_mqtt false;; ret false).

Definition is_mqtt_connected : M bool :=
  gets (fun s => not_none (mqtt_client s) && mqtt (connection_status s)).

(** The ids of the [sensors] list of [publish_discovery_config]. *)
Definition discovery_ids : list string :=
  ["humidity"; "temperature"; "lux"; "soil_moisture"; "status"].

Fixpoint discovery_loop (ids : list string) : M unit :=
  match ids with
  | [] => ret tt
  | id :: rest =>
      try_except
        (cl <- gets mqtt_client;
         when (not_none cl)
           (call_unit (MqttPublish (config_topic id) (PConfig id) true)))
        (ret tt);;
      discovery_loop rest
  end.

Definition publish_discovery_config : M unit :=
  c <- is_mqtt_connected;
  cl <- gets mqtt_client;
  if negb c || negb (not_none cl) then ret tt
  else discovery_loop discovery_ids.

Definition safe_publish (topic : string) (value : payload) (retain : bool)
  : M bool :=
  c <- is_mqtt_connected;
  if negb c then ret false
  else
    try_except
      (call_unit (MqttPublish topic value retain);; ret true)
      (set_mqtt false;; ret false).

Fixpoint publish_loop (sensors_data : list (string * option Q))
    (published_count : Z) : M Z :=
  match sensors_data with
  | [] => ret published_count
  | (sensor_type, value) :: rest =>
      match value with
      | Some v =>
          ok <- safe_publish (state_topic sensor_type) (PNum v) true;
          publish_loop rest
            (if ok then published_count + 1 else published_count)
      | None => publish_loop rest published_count
      end
  end.

Definition publish_sensor_data (temp hum lux moisture : option Q) : M Z :=
  c <- is_mqtt_connected;
  if negb c then ret 0
  else
    publish_loop
      [("temperature", temp); ("humidity", hum); ("lux", lux);
       ("soil_moisture", moisture)] 0.

(** ** Health *)

(** The counter test [failed_sensor_reads[name] < 5] (the fault tracker's
    "is healthy"). *)
Definition is_healthy (name : string) : M bool :=
  n <- dict_get failed_sensor_reads name;
  ret (n <? 5).

(** One entry of the list summed into [working_sensors]:
    [sensor_status[name] and failed_sensor_reads[name] < 5]. *)
Definition sensor_working (name : string) : M bool :=
  ok <- dict_get sensor_status name;
  if ok then is_healthy name else ret false.

Definition working_sensors : M Z :=
  a <- sensor_working "dht11";
  b <- sensor_working "bh1750";
  c <- sensor_working "soil_moisture";
  ret (sum_bools [a; b; c]).

Definition total_sensors : M Z :=
  a <- dict_get sensor_status "dht11";
  b <- dict_get sensor_status "bh1750";
  c <- dict_get sensor_status "soil_moisture";
  ret (sum_bools [a; b; c]).

(** The status string [publish_device_status] decides on; the clock is
    read only when the first four tests fail. *)
Definition device_status : M string :=
  working <- working_sensors;
  total <- total_sensors;
  cs <- gets connection_status;
  if negb (wifi cs) then ret "WiFi Disconnected"
  else if negb (mqtt cs) then ret "MQTT Disconnected"
  else if working =? 0 then ret "All Sensors Failed"
  else if working <? total then
    ret ("Partial (" +:+ pretty working +:+ "/" +:+ pretty total
         +:+ " sensors)")
  else
    now <- time_time;
    if now - last_successful_publish cs >? 300 then ret "Publish Timeout"
    else ret "Online".

Definition publish_device_status : M bool :=
  status <- device_status;
  safe_publish (state_topic "status") (PStr status) false.

(** ** Display *)

Definition update_oled (temp hum lux moisture : option Q) : M unit :=
  o <- gets oled;
  match o with
  | None => ret tt
  | Some _ =>
      try_except
        (call_unit OledFill;;
         call_unit (OledText "Lux" lux);;
         call_unit (OledText "Temp" temp);;
         call_unit (OledText "Humidity" hum);;
         call_unit (OledText "Moisture" moisture);;
         call_unit OledShow)
        (ret tt)
  end.

(** ** Sensor reads *)

Definition set_failed (name : string) (n : Z) : M unit :=
  modify (fun s =>
            set_failed_sensor_reads (<[name := n]> (failed_sensor_reads s)) s).

(** [safe_sensor_read].  [Some r] is the value [read_function] returned,
    [None] the [None] returned from the handler.  The handler's
    [failed_sensor_reads[sensor_name] += 1] subscripts the dictionary,
    and this is itself outside any [try]. *)
Definition safe_sensor_read {A} (sensor_name : string) (read_function : M A)
  : M (option A) :=
  try_except
    (result <- read_function;
     set_failed sensor_name 0;;
     ret (Some result))
    (n <- dict_get failed_sensor_reads sensor_name;
     set_failed sensor_name (n + 1);;
     ret None).

Definition read_dht : M (option Q * option Q) :=
  d <- gets dht_sensor;
  match d with
  | None => ret (None, None)
  | Some _ =>
      call_unit DhtMeasure;;
      t <- call_num DhtTemperature;
      h <- call_num DhtHumidity;
      ret (Some t, Some h)
  end.

Definition read_lux : M (option Q) :=
  l <- gets light_sensor;
  match l with
  | Some _ => x <- call_num Bh1750Luminance; ret (Some x)
  | None => ret None
  end.

Definition read_soil : M (option Z) :=
  a <- gets soil_moisture_adc;
  match a with
  | Some _ => x <- call_int AdcReadU16; ret (Some x)
  | None => ret None
  end.

Definition read_sensors_once
  : M (option Q * option Q * option Q * option Z) :=
  r <- safe_sensor_read "dht11" read_dht;
  let '(temp, hum) := default (None, None) r in
  l <- safe_sensor_read "bh1750" read_lux;
  let lux := mjoin l in
  m <- safe_sensor_read "soil_moisture" read_soil;
  moisture <-
    match mjoin m with
    | Some moisture_raw =>
        p <- lift (get_soil_moisture_percent moisture_raw
                    (SOIL_MOISTURE_DRY cfg) (SOIL_MOISTURE_WET cfg));
        ret (Some p)
    | None => ret None
    end;
  ret (temp, hum, lux, moisture).

(** ** Module body: connection set-up before the loop *)

Definition startup : M unit :=
  _ <- connect_wifi;
  ok <- connect_mqtt;
  if ok then
    publish_discovery_config;;
    _ <- publish_device_status;
    ret tt
  else ret tt.

(** ** The main loop, one block per [if] of the [while True] body *)

Definition keepalive : M unit :=
  c <- is_mqtt_connected;
  cl <- gets mqtt_client;
  when (c && not_none cl)
    (try_except (call_unit MqttCheckMsg) (set_mqtt false)).

Definition force_gc : M unit := call_pure GcCollect.

(** The WiFi half of the 60-second check. *)
Definition check_wifi : M unit :=
  wl <- gets wlan;
  down <- match wl with
          | None => ret true
          | Some _ => c <- call_bool WlanIsConnected; ret (negb c)
          end;
  if down then _ <- connect_wifi; ret tt else set_wifi true.

(** The handler of a failed ping: mark the session down and reconnect. *)
Definition reconnect_mqtt : M unit :=
  set_mqtt false;;
  _ <- connect_mqtt;
  c <- is_mqtt_connected;
  when c (publish_discovery_config;;
          _ <- publish_device_status;
          ret tt).

(** The MQTT half of the 60-second check. *)
Definition check_mqtt : M unit :=
  cl <- gets mqtt_client;
  if not_none cl then
    try_except (call_unit MqttPing;; set_mqtt true) reconnect_mqtt
  else set_mqtt false.

Definition check_connections : M unit :=
  wifi_was_connected <- gets (fun s => wifi (connection_status s));
  mqtt_was_connected <- gets (fun s => mqtt (connection_status s));
  check_wifi;;
  check_mqtt;;
  cs <- gets connection_status;
  when (negb (eqb wifi_was_connected (wifi cs))
        || negb (eqb mqtt_was_connected (mqtt cs)))
    (_ <- publish_device_status; ret tt).

Definition store_readings
    (r : option Q * option Q * option Q * option Z) : M unit :=
  let '(temp, hum, lux, moisture) := r in
  when (not_none temp)
    (modify (fun s =>
       set_temp_readings (temp_readings s ++ option_list temp) s));;
  when (not_none hum)
    (modify (fun s =>
       set_hum_readings (hum_readings s ++ option_list hum) s));;
  when (not_none lux)
    (modify (fun s =>
       set_lux_readings (lux_readings s ++ option_list lux) s));;
  when (not_none moisture)
    (modify (fun s =>
       set_moisture_readings
         (moisture_readings s ++ option_list (inject_Z <$> moisture)) s)).

Definition read_cycle (current_time : Z) : M unit :=
  r <- read_sensors_once;
  store_readings r;;
  modify (set_last_sensor_read_time current_time).

Definition clear_readings : M unit :=
  modify (set_temp_readings []);;
  modify (set_hum_readings []);;
  modify (set_lux_readings []);;
  modify (set_moisture_readings []).

(** The four averages computed at the top of the publish block. *)
Definition averages (s : state)
  : option Q * option Q * option Q * option Q :=
  (mean_or_none (temp_readings s), mean_or_none (hum_readings s),
   mean_or_none (lux_readings s), mean_or_none (moisture_readings s)).

Definition publish_cycle (current_time : Z) : M unit :=
  avgs <- gets averages;
  let '(avg_temp, avg_hum, avg_lux, avg_moisture) := avgs in
  update_oled avg_temp avg_hum avg_lux avg_moisture;;
  published_count <- publish_sensor_data avg_temp avg_hum avg_lux avg_moisture;
  when (published_count >? 0)
    (modify (fun s =>
       set_connection_status
         (with_last_successful_publish current_time (connection_status s)) s));;
  clear_readings;;
  modify (set_last_publish_time current_time).

Definition gc_block (current_time : Z) : M unit :=
  last_gc <- gets last_gc_time;
  when (current_time - last_gc >=? 300)
    (force_gc;; modify (set_last_gc_time current_time)).

Definition connection_block (current_time : Z) : M unit :=
  last_check <- gets last_connection_check;
  when (current_time - last_check >=? 60)
    (check_connections;; modify (set_last_connection_check current_time)).

Definition status_block (current_time : Z) : M unit :=
  last_status <- gets last_status_update;
  when (current_time - last_status >=? STATUS_UPDATE_INTERVAL cfg)
    (_ <- publish_device_status;
     modify (set_last_status_update current_time)).

Definition read_block (current_time : Z) : M unit :=
  last_read <- gets last_sensor_read_time;
  when (current_time - last_read >=? SENSOR_READ_INTERVAL cfg)
    (read_cycle current_time).

Definition publish_block (current_time : Z) : M unit :=
  last_publish <- gets last_publish_time;
  when (current_time - last_publish >=? PUBLISH_INTERVAL cfg)
    (publish_cycle current_time).

(** One iteration of [while True]. *)
Definition tick : M unit :=
  current_time <- time_time;
  keepalive;;
  gc_block current_time;;
  connection_block current_time;;
  status_block current_time;;
  read_block current_time;;
  publish_block current_time.

(** [n] iterations of the loop. *)
Fixpoint ticks (n : nat) : M unit :=
  match n with
  | O => ret tt
  | S k => tick;; ticks k
  end.

(** The module body up to [n] loop iterations. *)
Definition program (n : nat) : M unit :=
  initialize_sensors;; startup;; ticks n.

End Program.

(** Final state and result of a run. *)
Definition exec {A} (m : M A) (s : state) : state := snd (m s).
Definition eval {A} (m : M A) (s : state) : result A := fst (m s).

(** ** The calls outside any [try], taken as they are

    The functions that call the I2C bus, the WLAN object or the garbage
    collector outside any [try], with every such call made and able to
    raise; the exception of a call that raises leaves the function, and
    with it the program.  The other functions are as above. *)

Module Strict.

Section Program.

Variable cfg : config.
Variable w : world.

(** A call that returns a boolean and may raise. *)
Definition call_bool (c : call) : M bool :=
  r <- ask w c; if raises r then raise OSError else ret (as_bool r).

(** [initialize_sensors], from its first line: the bus is made and
    scanned before the first [try]. *)
Definition initialize_sensors : M unit :=
  call_unit w SoftI2CNew;;
  call_unit w I2cScan;;
  init_oled w;; init_bh1750 w;; init_dht11 w;; init_soil_moisture w.

Fixpoint wifi_wait (remaining : nat) : M unit :=
  c <- call_bool WlanIsConnected;
  if c then ret tt
  else match remaining with
       | O => ret tt
       | S k => wifi_wait k
       end.

Definition connect_wifi : M bool :=
  wl <- gets wlan;
  when (negb (not_none wl))
    (call_unit w WlanNew;; modify (set_wlan (Some Handle)));;
  call_unit w WlanActive;;
  c <- call_bool WlanIsConnected;
  when (negb c) (call_unit w WlanConnect;; wifi_wait 10);;
  connected <- call_bool WlanIsConnected;
  set_wifi connected;;
  if connected then call_unit w WlanIfconfig;; ret true
  else ret false.

Definition startup : M unit :=
  _ <- connect_wifi;
  ok <- connect_mqtt w;
  if ok then
    publish_discovery_config w;;
    _ <- publish_device_status w;
    ret tt
  else ret tt.

Definition force_gc : M unit :=
  call_unit w GcCollect;;
  call_unit w GcMemFree;;
  call_unit w GcMemAlloc.

Definition check_wifi : M unit :=
  wl <- gets wlan;
  down <- match wl with
          | None => ret true
          | Some _ => c <- call_bool WlanIsConnected; ret (negb c)
          end;
  if down then _ <- connect_wifi; ret tt else set_wifi true.

Definition check_connections : M unit :=
  wifi_was_connected <- gets (fun s => wifi (connection_status s));
  mqtt_was_connected <- gets (fun s => mqtt (connection_status s));
  check_wifi;;
  check_mqtt w;;
  cs <- gets connection_status;
  when (negb (eqb wifi_was_connected (wifi cs))
        || negb (eqb mqtt_was_connected (mqtt cs)))
    (_ <- publish_device_status w; ret tt).

Definition gc_block (current_time : Z) : M unit :=
  last_gc <- gets last_gc_time;
  when (current_time - last_gc >=? 300)
    (force_gc;; modify (set_last_gc_time current_time)).

Definition connection_block (current_time : Z) : M unit :=
  last_check <- gets last_connection_check;
  when (current_time - last_check >=? 60)
    (check_connections;; modify (set_last_connection_check current_time)).

Definition tick : M unit :=
  current_time <- time_time w;
  keepalive w;;
  gc_block current_time;;
  connection_block current_time;;
  status_block cfg w current_time;;
  read_block cfg w current_time;;
  publish_block cfg w current_time.

Fixpoint ticks (n : nat) : M unit :=
  match n with
  | O => ret tt
  | S k => tick;; ticks k
  end.

Definition program (n : nat) : M unit :=
  initialize_sensors;; startup;; ticks n.

End Program.

End Strict.

(** ** Weakest preconditions for runs *)

(** [wp m Q s]: running [m] from [s] ends in a result and state that
    satisfy [Q].  Runs are total, so this is a total-correctness reading. *)
Definition wp {A} (m : M A) (Q : result A -> state -> Prop) (s : state)
  : Prop :=
  Q (eval m s) (exec m s).

(** ** The vocabulary of the specification *)

(** The device-status verdicts of the health evaluator. *)
Inductive DeviceStatus :=
| Online
| PartialDegradation (count_ok count_total : Z)
| AllSensorsFailed
| SessionDown
| LinkDown
| PublishStale.

(** The six rules of the health evaluator, in the order the specification
    lists them. *)
Definition evaluate (link_up session_up : bool) (healthy total elapsed : Z)
  : DeviceStatus :=
  if negb link_up then LinkDown
  else if negb session_up then SessionDown
  else if healthy =? 0 then AllSensorsFailed
  else if healthy <? total then PartialDegradation healthy total
  else if elapsed >? 300 then PublishStale
  else Online.

(** The string under which the program reports each verdict. *)
Definition status_string (d : DeviceStatus) : string :=
  match d with
  | Online => "Online"
  | PartialDegradation ok total =>
      "Partial (" +:+ pretty ok +:+ "/" +:+ pretty total +:+ " sensors)"
  | AllSensorsFailed => "All Sensors Failed"
  | SessionDown => "MQTT Disconnected"
  | LinkDown => "WiFi Disconnected"
  | PublishStale => "Publish Timeout"
  end.

(** The arithmetic mean as the specification words it: the sum of all
    entries over their number. *)
Definition arithmetic_mean (entries : list Q) : Q :=
  (fold_right Qplus 0 entries / inject_Z (Z.of_nat (length entries)))%Q.

(** The sensors whose reads are counted. *)
Definition tracked : list string := ["dht11"; "bh1750"; "soil_moisture"].

(** Both sensor dictionaries still hold the keys they were created with. *)
Definition keys_present (s : state) : Prop :=
  forall name, name ∈ tracked ->
    is_Some (sensor_status s !! name) /\
    is_Some (failed_sensor_reads s !! name).

(** What the two dictionaries hold for a sensor name.  A missing key
    reads as [False] and 0 here; the program raises [KeyError] on it. *)
Definition status_flag (s : state) (name : string) : bool :=
  default false (sensor_status s !! name).
Definition failure_count (s : state) (name : string) : Z :=
  default 0 (failed_sensor_reads s !! name).

(** The healthy sensors of a state: the tracked names whose status flag
    is set and whose failure count is below the threshold 5. *)
Definition healthy_sensors (s : state) : Z :=
  Z.of_nat
    (length (List.filter
               (fun name => status_flag s name && (failure_count s name <? 5))
               tracked)).

(** The known sensors of a state: the tracked names whose status flag is
    set. *)
Definition known_sensors (s : state) : Z :=
  Z.of_nat (length (List.filter (status_flag s) tracked)).

(** The session is considered up: the test of [is_mqtt_connected]. *)
Definition session_up (s : state) : bool :=
  not_none (mqtt_client s) && mqtt (connection_status s).

(** The verdict a state leads to, given the two sensor counts. *)
Definition verdict (w : world) (s : state) (working total : Z)
  : DeviceStatus :=
  evaluate (wifi (connection_status s)) (mqtt (connection_status s))
    working total
    (as_int (w (length (trace s)))
     - last_successful_publish (connection_status s)).

(** ** Worlds used in examples *)

(** The clock of the example worlds: 30000 at the first call and ten
    seconds more at each further call. *)
Definition example_clock (n : nat) : Z := 30000 + 10 * Z.of_nat n.

(** Every call returns; the WiFi is connected and readings are 21. *)
Definition world_quiet : world :=
  fun n => mkReply false true 21%Q (example_clock n).

(** As [world_quiet], but the WiFi never connects. *)
Definition world_link_down : world :=
  fun n => mkReply false false 21%Q (example_clock n).

(** As [world_quiet], but the call number [k] raises. *)
Definition world_failing_at (k : nat) : world :=
  fun n => mkReply (Nat.eqb n k) true 21%Q (example_clock n).

(** As [world_quiet], but every call from number [k] on raises when it
    can. *)
Definition world_failing_from (k : nat) : world :=
  fun n => mkReply (Nat.leb k n) true 21%Q (example_clock n).

(** ** Publish attempts of one cycle *)

(** The quantities of a batch that are not [None]. *)
Definition present (sensors_data : list (string * option Q))
  : list (string * Q) :=
  omap (fun '(sensor_type, value) => pair sensor_type <$> value) sensors_data.

Definition publish_call (item : string * Q) : call :=
  MqttPublish (state_topic (fst item)) (PNum (snd item)) true.

(** The transport publishes of a batch, oldest first, when the next call
    is number [n]: one per item, up to and including the first that
    raises. *)
Fixpoint attempts (w : world) (n : nat) (items : list (string * Q))
  : list call :=
  match items with
  | [] => []
  | item :: rest =>
      publish_call item
      :: (if raises (w n) then [] else attempts w (S n) rest)
  end.

(** The batch [publish_sensor_data] builds from its arguments. *)
Definition batch (temp hum lux moisture : option Q)
  : list (string * option Q) :=
  [("temperature", temp); ("humidity", hum); ("lux", lux);
   ("soil_moisture", moisture)].

(** Whether one of the transport publishes of a batch raises. *)
Fixpoint any_failure (w : world) (n : nat) (items : list (string * Q))
  : bool :=
  match items with
  | [] => false
  | _ :: rest => raises (w n) || any_failure w (S n) rest
  end.

(** ** Judgements on runs *)

(** Every run of [m] relates the state before to the state after, whether
    it returns or raises. *)
Definition steps (R : relation state) {A} (m : M A) : Prop :=
  forall s, R s (exec m s).

(** From a state in [P], [m] returns: it does not raise. *)
Definition returns (P : state -> Prop) {A} (m : M A) : Prop :=
  forall s, P s -> exists a, eval m s = Val a.

Definition keeping (P : state -> Prop) : relation state :=
  fun s s' => P s -> P s'.

(** ** Invariants of the program state *)

(** The driver global of a tracked sensor. *)
Definition driver (name : string) (s : state) : option handle :=
  if String.eqb name "dht11" then dht_sensor s
  else if String.eqb name "bh1750" then light_sensor s
  else soil_moisture_adc s.

(** Flag, counter and driver of one sensor agree: the status flag says
    whether the driver exists, the counter is not negative, and without a
    driver it is 0. *)
Definition sensor_ok (s : state) (name : string) : Prop :=
  exists c,
    failed_sensor_reads s !! name = Some c /\ 0 <= c /\
    sensor_status s !! name = Some (not_none (driver name s)) /\
    (driver name s = None -> c = 0).

Definition sensor_inv (s : state) : Prop :=
  forall name, name ∈ tracked -> sensor_ok s name.

(** The [mqtt] flag is set only while a client object exists. *)
Definition session_inv (s : state) : Prop :=
  mqtt (connection_status s) = true -> mqtt_client s <> None.

Definition inv (s : state) : Prop := sensor_inv s /\ session_inv s.

(** ** Frames *)

Definition same_sensors (s s' : state) : Prop :=
  dht_sensor s' = dht_sensor s /\
  light_sensor s' = light_sensor s /\
  soil_moisture_adc s' = soil_moisture_adc s /\
  sensor_status s' = sensor_status s /\
  failed_sensor_reads s' = failed_sensor_reads s.

Definition same_windows (s s' : state) : Prop :=
  temp_readings s' = temp_readings s /\
  hum_readings s' = hum_readings s /\
  lux_readings s' = lux_readings s /\
  moisture_readings s' = moisture_readings s /\
  last_publish_time s' = last_publish_time s /\
  last_sensor_read_time s' = last_sensor_read_time s.

Definition trace_grows (s s' : state) : Prop :=
  trace s `suffix_of` trace s'.

(** What the connectivity and reporting code may do to the state: nothing
    to the sensor globals and the windows; the trace grows; the session
    invariant is kept. *)
Definition quiet (s s' : state) : Prop :=
  same_sensors s s' /\ same_windows s s' /\ trace_grows s s' /\
  keeping session_inv s s'.

(** The invariant before any sensor has been read: all counters are 0. *)
Definition fresh_inv (s : state) : Prop :=
  inv s /\
  forall name, name ∈ tracked -> failed_sensor_reads s !! name = Some 0.

(** What reading the sensors may do: the invariant is kept and the
    windows are not touched. *)
Definition sensing (s s' : state) : Prop :=
  keeping inv s s' /\ same_windows s s'.

(** No condition on the state. *)
Definition anywhere : state -> Prop := fun _ => True.

(** ** Sequences of reads *)

(** A read function may do anything to the state (the hardware reads log
    their calls) but leaves the failure counters alone. *)
Definition keeps_counters {A} (read_function : M A) : Prop :=
  forall s, failed_sensor_reads (exec read_function s) = failed_sensor_reads s.

(** What a read function yields at a state: its value, or [None] when it
    raises. *)
Definition outcome {A} (read_function : M A) (s : state) : option A :=
  match eval read_function s with
  | Val v => Some v
  | Exc _ => None
  end.

(** [safe_sensor_read] applied to one read function after the other. *)
Fixpoint record_all {A} (name : string) (reads : list (M A))
  : M (list (option A)) :=
  match reads with
  | [] => ret []
  | read_function :: rest =>
      r <- safe_sensor_read name read_function;
      rs <- record_all name rest;
      ret (r :: rs)
  end.

(** The outcomes of a sequence of reads: what each read function yields
    at the state it meets. *)
Fixpoint outcomes_of {A} (name : string) (reads : list (M A)) (s : state)
  : list (option A) :=
  match reads with
  | [] => []
  | read_function :: rest =>
      outcome read_function s
      :: outcomes_of name rest (exec (safe_sensor_read name read_function) s)
  end.

(** The consecutive-failure count after a sequence of outcomes. *)
Definition counter_after {A} (c : Z) (outcomes : list (option A)) : Z :=
  fold_left (fun n outcome => match outcome with
                              | Some _ => 0
                              | None => n + 1
                              end) outcomes c.

(** The MQTT client global is left alone. *)
Definition same_client (s s' : state) : Prop :=
  mqtt_client s' = mqtt_client s.

(** ** The aggregation windows *)

Definition windows_of (s : state) : list (list Q) :=
  [temp_readings s; hum_readings s; lux_readings s; moisture_readings s].

Definition windows_empty (s : state) : Prop :=
  Forall (fun window => window = []) (windows_of s).

(** At most one reading has been appended. *)
Definition grown (before after : list Q) : Prop :=
  exists new, after = before ++ new /\ (length new <= 1)%nat.

(** What one loop iteration that starts at clock value [current_time]
    does to the windows and to the two timers that guard them. *)
Definition tick_effect (cfg : config) (current_time : Z) (s s' : state)
  : Prop :=
  let read := current_time - last_sensor_read_time s
              >=? SENSOR_READ_INTERVAL cfg in
  let publish := current_time - last_publish_time s
                 >=? PUBLISH_INTERVAL cfg in
  last_sensor_read_time s'
  = (if read then current_time else last_sensor_read_time s) /\
  last_publish_time s'
  = (if publish then current_time else last_publish_time s) /\
  if publish then windows_empty s'
  else if read then Forall2 grown (windows_of s) (windows_of s')
  else windows_of s' = windows_of s.

(** A window holds only readings taken since the last publish cycle and
    less than one publish interval after it: with [n] readings in the
    window, the latest read lies more than [n - 1] read intervals and
    less than one publish interval after the last publish. *)
Definition window_fresh (cfg : config) (s : state) (window : list Q)
  : Prop :=
  let n := Z.of_nat (length window) in
  last_publish_time s - SENSOR_READ_INTERVAL cfg < last_sensor_read_time s /\
  (0 < n ->
   last_publish_time s + (n - 1) * SENSOR_READ_INTERVAL cfg
   < last_sensor_read_time s /\
   last_sensor_read_time s < last_publish_time s + PUBLISH_INTERVAL cfg).

Definition windows_fresh (cfg : config) (s : state) : Prop :=
  Forall (window_fresh cfg s) (windows_of s).

(** ** Vocabulary of the further properties *)

(** The discovery publish of one sensor id. *)
Definition config_call (sensor_id : string) : call :=
  MqttPublish (config_topic sensor_id) (PConfig sensor_id) true.

(** As [world_quiet], but the four driver constructors (the first four
    calls of the program) raise. *)
Definition world_no_sensors : world :=
  fun n => mkReply (Nat.ltb n 4) true 21%Q (example_clock n).

(** A percentage. *)
Definition in_percent_range (x : Q) : Prop := (0 <= x /\ x <= 100)%Q.

(** Every reading of the soil-moisture window is a percentage. *)
Definition moisture_in_range (s : state) : Prop :=
  Forall in_percent_range (moisture_readings s).

(** The three timers of the garbage collection, the connectivity check
    and the status report are left alone. *)
Definition same_timers (s s' : state) : Prop :=
  last_gc_time s' = last_gc_time s /\
  last_connection_check s' = last_connection_check s /\
  last_status_update s' = last_status_update s.

(** Only the trace differs. *)
Definition trace_only (s s' : state) : Prop := s' = set_trace (trace s') s.

(** The calls of one [connect_wifi], oldest first: whether the [wlan]
    object existed, what the first [isconnected] answered, and the number
    of polls of the waiting loop. *)
Definition wifi_calls (had_wlan first : bool) (polls : nat) : list call :=
  (if had_wlan then [] else [WlanNew])
  ++ [WlanActive; WlanIsConnected]
  ++ (if first then [] else WlanConnect :: replicate polls WlanIsConnected)
  ++ [WlanIsConnected].

(** The calls of one [connect_mqtt], oldest first: whether a client
    object existed, and whether the transport connect raised. *)
Definition mqtt_connect_calls (had_client connect_raised : bool)
  : list call :=
  (if had_client then [MqttDisconnect] else [])
  ++ [MqttConnect]
  ++ (if connect_raised then []
      else [MqttPublish (state_topic "test") (PStr "connected") false]).

(** The six display calls of one full [update_oled], oldest first. *)
Definition oled_frame (temp hum lux moisture : option Q) : list call :=
  [OledFill; OledText "Lux" lux; OledText "Temp" temp;
   OledText "Humidity" hum; OledText "Moisture" moisture; OledShow].

(** What a run may end with when it does not return: only the division
    by a zero calibration span. *)
Definition only_uncalibrated (cfg : config) {A} (r : result A) : Prop :=
  match r with
  | Val _ => True
  | Exc e =>
      e = ZeroDivisionError /\ SOIL_MOISTURE_DRY cfg = SOIL_MOISTURE_WET cfg
  end.

(** The example configuration with the dry bound set to the wet bound. *)
Definition config_flat : config :=
  {| SENSOR_READ_INTERVAL := SENSOR_READ_INTERVAL config_example;
     PUBLISH_INTERVAL := PUBLISH_INTERVAL config_example;
     STATUS_UPDATE_INTERVAL := STATUS_UPDATE_INTERVAL config_example;
     SOIL_MOISTURE_DRY := SOIL_MOISTURE_WET config_example;
     SOIL_MOISTURE_WET := SOIL_MOISTURE_WET config_example |}.

(** As [world_quiet], but with a clock that advances one second per
    call, so that several reads fall between two publish cycles. *)
Definition world_slow : world :=
  fun n => mkReply false true 21%Q (30000 + Z.of_nat n).

(** The calls that go to the MQTT client object. *)
Definition is_mqtt_call (c : call) : bool :=
  match c with
  | MqttDisconnect | MqttConnect | MqttPublish _ _ _ | MqttCheckMsg
  | MqttPing => true
  | _ => false
  end.

(** The MQTT calls made so far, newest first. *)
Definition mqtt_calls (s : state) : list call :=
  List.filter is_mqtt_call (trace s).

(** From a state without a client object: there is still none, and no
    MQTT call has been added. *)
Definition offline (s s' : state) : Prop :=
  mqtt_client s = None ->
  mqtt_client s' = None /\ mqtt_calls s' = mqtt_calls s.

(** The temperature and humidity windows hold equally many readings. *)
Definition dht_windows_paired (s : state) : Prop :=
  length (temp_readings s) = length (hum_readings s).

(** The calls of a sequence that are made when the next call is number
    [n] and the sequence ends at the first call that raises: every call
    up to and including that one. *)
Fixpoint issued (w : world) (n : nat) (calls : list call) : list call :=
  match calls with
  | [] => []
  | c :: rest => c :: (if raises (w n) then [] else issued w (S n) rest)
  end.

(** ** Runs of code that has no [try] *)

(** Every call made between [s] and [s'] returned. *)
Definition calls_returned (w : world) (s s' : state) : Prop :=
  exists calls,
    trace s' = calls ++ trace s /\
    forall i, (i < length calls)%nat ->
      raises (w (length (trace s) + i)%nat) = false.

(** The run from [s] ended at [s'] with a call that raised, the first
    one to do so. *)
Definition stopped_at_call (w : world) (s s' : state) : Prop :=
  exists c calls,
    trace s' = c :: calls ++ trace s /\
    (forall i, (i < length calls)%nat ->
       raises (w (length (trace s) + i)%nat) = false) /\
    raises (w (length (trace s) + length calls)%nat) = true.

(** A function without a [try]: it returns when every call it makes
    returns, and otherwise ends with [OSError] at the first call that
    raises. *)
Definition unguarded (w : world) {A} (m : M A) : Prop :=
  forall s,
    match eval m s with
    | Val _ => calls_returned w s (exec m s)
    | Exc e => e = OSError /\ stopped_at_call w s (exec m s)
    end.

(** ** What can end the program *)

(** The calls the program makes outside any [try]: the I2C bus, the WLAN
    object and the garbage collector. *)
Definition is_unguarded (c : call) : bool :=
  match c with
  | SoftI2CNew | I2cScan | WlanNew | WlanActive | WlanIsConnected
  | WlanConnect | WlanIfconfig | GcCollect | GcMemFree | GcMemAlloc => true
  | _ => false
  end.

(** The last call made was outside any [try], and it raised. *)
Definition stopped_by_unguarded (w : world) (s : state) : Prop :=
  exists c rest,
    trace s = c :: rest /\
    is_unguarded c = true /\
    raises (w (length rest)) = true.

(** The two ways the program can end: the division by a zero calibration
    span, and a call outside any [try] that raises. *)
Definition fatal (cfg : config) (w : world) (e : exn) (s : state) : Prop :=
  (e = ZeroDivisionError /\ SOIL_MOISTURE_DRY cfg = SOIL_MOISTURE_WET cfg)
  \/ (e = OSError /\ stopped_by_unguarded w s).

Definition ends_ok (cfg : config) (w : world) {A} (r : result A)
    (s : state) : Prop :=
  match r with
  | Val _ => True
  | Exc e => fatal cfg w e s
  end.

(** From a state that satisfies the invariant, [m] returns or ends in one
    of the two ways. *)
Definition contained (cfg : config) (w : world) {A} (m : M A) : Prop :=
  forall s, inv s -> ends_ok cfg w (eval m s) (exec m s).

(** * Properties *)

(** ** Rules of the weakest precondition *)

Section WpRules.

Context {A B : Type}.
Implicit Types (s : state) (Q : result A -> state -> Prop).

Lemma wp_ret (a : A) Q s : Q (Val a) s -> wp (ret a) Q s.
Proof. exact (fun H => H). Qed.

Lemma wp_raise (e : exn) Q s : Q (Exc e) s -> wp (raise e) Q s.
Proof. exact (fun H => H). Qed.

Lemma wp_lift (r : result A) Q s : Q r s -> wp (lift r) Q s.
Proof. exact (fun H => H). Qed.

Lemma wp_gets (f : state -> A) Q s : Q (Val (f s)) s -> wp (gets f) Q s.
Proof. exact (fun H => H). Qed.

Lemma wp_bind (m : M B) (k : B -> M A) Q s :
  wp m (fun r s' => match r with
                    | Val b => wp (k b) Q s'
                    | Exc e => Q (Exc e) s'
                    end) s ->
  wp (bind m k) Q s.
Proof.
  unfold wp, eval, exec, bind. destruct (m s) as [[b|e] s']; simpl; auto.
Qed.

Lemma wp_try_except (body handler : M A) Q s :
  wp body (fun r s' => match r with
                       | Val a => Q (Val a) s'
                       | Exc _ => wp handler Q s'
                       end) s ->
  wp (try_except body handler) Q s.
Proof.
  unfold wp, eval, exec, try_except.
  destruct (body s) as [[a|e] s']; simpl; auto.
Qed.

Lemma wp_mono (m : M A) Q (Q' : result A -> state -> Prop) s :
  wp m Q s -> (forall r s', Q r s' -> Q' r s') -> wp m Q' s.
Proof. unfold wp. auto. Qed.

End WpRules.

Lemma wp_modify (f : state -> state) (Q : result unit -> state -> Prop) s :
  Q (Val tt) (f s) -> wp (modify f) Q s.
Proof. exact (fun H => H). Qed.

Lemma wp_dict_get {V} (d : state -> gmap string V) (k : string)
    (Q : result V -> state -> Prop) s :
  match d s !! k with
  | Some v => Q (Val v) s
  | None => Q (Exc (KeyError k)) s
  end ->
  wp (dict_get d k) Q s.
Proof. unfold wp, eval, exec, dict_get. destruct (d s !! k); auto. Qed.

Lemma wp_ask (w : world) (c : call) (Q : result reply -> state -> Prop) s :
  Q (Val (w (length (trace s)))) (set_trace (c :: trace s) s) ->
  wp (ask w c) Q s.
Proof. exact (fun H => H). Qed.

(** ** C8: soil moisture *)

Lemma soil_percent_value (raw dry wet : Z) :
  wet < dry ->
  get_soil_moisture_percent raw dry wet
  = Val (((dry - Z.max (Z.min raw dry) wet) * 100) `quot` (dry - wet)).
Proof.
  intros Hcal. unfold get_soil_moisture_percent.
  destruct (Z.eqb_spec (dry - wet) 0); [lia | reflexivity].
Qed.

(** C8.  With calibration bounds [wet < dry], [get_soil_moisture_percent]
    maps the dry bound to 0 and the wet bound to 100, clamps readings
    beyond either bound to 0 and 100, stays within 0..100 for every raw
    reading, and maps 29500 to exactly 50 under the bounds 41000/18000. *)
Theorem soil_moisture_percent_mapping (raw dry wet : Z) (Hcal : wet < dry) :
  get_soil_moisture_percent dry dry wet = Val 0 /\
  get_soil_moisture_percent wet dry wet = Val 100 /\
  (dry <= raw -> get_soil_moisture_percent raw dry wet = Val 0) /\
  (raw <= wet -> get_soil_moisture_percent raw dry wet = Val 100) /\
  (exists p, get_soil_moisture_percent raw dry wet = Val p /\ 0 <= p <= 100) /\
  get_soil_moisture_percent 29500 41000 18000 = Val 50.
Proof.
  assert (Hfull : ((dry - wet) * 100) `quot` (dry - wet) = 100).
  { rewrite Z.mul_comm. apply Z.quot_mul. lia. }
  repeat split.
  - rewrite soil_percent_value by lia.
    replace (Z.max (Z.min dry dry) wet) with dry by lia.
    now rewrite Z.sub_diag.
  - rewrite soil_percent_value by lia.
    replace (Z.max (Z.min wet dry) wet) with wet by lia.
    now rewrite Hfull.
  - intros Hdry. rewrite soil_percent_value by lia.
    replace (Z.max (Z.min raw dry) wet) with dry by lia.
    now rewrite Z.sub_diag.
  - intros Hwet. rewrite soil_percent_value by lia.
    replace (Z.max (Z.min raw dry) wet) with wet by lia.
    now rewrite Hfull.
  - eexists. split; [apply soil_percent_value; lia |].
    set (r := Z.max (Z.min raw dry) wet).
    assert (wet <= r <= dry) by lia.
    rewrite Z.quot_div_nonneg by nia.
    split.
    + apply Z.div_pos; nia.
    + apply Z.div_le_upper_bound; nia.
Qed.

Lemma soil_moisture_percent_mapping_witness :
  get_soil_moisture_percent 29500 41000 18000 = Val 50.
Proof.
  apply (soil_moisture_percent_mapping 29500 41000 18000). lia.
Defined.

(** ** Symbolic execution *)

Ltac state_simpl :=
  cbn [oled light_sensor dht_sensor soil_moisture_adc wlan mqtt_client
       sensor_status failed_sensor_reads connection_status
       last_publish_time last_sensor_read_time last_connection_check
       last_status_update last_gc_time temp_readings hum_readings
       lux_readings moisture_readings trace
       set_oled set_light_sensor set_dht_sensor set_soil_moisture_adc
       set_wlan set_mqtt_client set_sensor_status set_failed_sensor_reads
       set_connection_status set_last_publish_time
       set_last_sensor_read_time set_last_connection_check
       set_last_status_update set_last_gc_time set_temp_readings
       set_hum_readings set_lux_readings set_moisture_readings set_trace
       wifi mqtt last_successful_publish with_wifi with_mqtt
       with_last_successful_publish not_none negb andb orb fst snd].

Ltac wp_step :=
  lazymatch goal with
  | |- wp (bind _ _) _ _ => apply wp_bind
  | |- wp (ret _) _ _ => apply wp_ret
  | |- wp (raise _) _ _ => apply wp_raise
  | |- wp (lift _) _ _ => apply wp_lift
  | |- wp (gets _) _ _ => apply wp_gets
  | |- wp (modify _) _ _ => apply wp_modify
  | |- wp (try_except _ _) _ _ => apply wp_try_except
  | |- wp (ask _ _) _ _ => apply wp_ask
  | |- wp (dict_get _ _) _ _ => apply wp_dict_get
  | |- wp (call_unit _ _) _ _ => unfold call_unit
  | |- wp (call_num _ _) _ _ => unfold call_num
  | |- wp (call_int _ _) _ _ => unfold call_int
  | |- wp (call_pure _ _) _ _ => unfold call_pure
  | |- wp (call_bool _ _) _ _ => unfold call_bool
  | |- wp (time_time _) _ _ => unfold time_time
  | |- wp (when _ _) _ _ => unfold when
  | |- wp (set_wifi _) _ _ => unfold set_wifi
  | |- wp (set_mqtt _) _ _ => unfold set_mqtt
  | |- wp (set_status _ _) _ _ => unfold set_status
  | |- wp (set_failed _ _) _ _ => unfold set_failed
  | |- wp is_mqtt_connected _ _ => unfold is_mqtt_connected
  | |- wp (if ?b then _ else _) _ _ => destruct b eqn:?
  | |- wp (match ?x with _ => _ end) _ _ => destruct x eqn:?
  | |- match ?x with _ => _ end => destruct x eqn:?
  end; cbv beta iota; state_simpl.

Ltac wp_run := repeat wp_step.

(** ** C7: the drained mean *)

Lemma fold_left_Qplus (l : list Q) (a : Q) :
  (fold_left Qplus l a == a + fold_right Qplus 0 l)%Q.
Proof.
  revert a. induction l as [|x l IH]; intros a; simpl.
  - ring.
  - rewrite IH. ring.
Qed.

Lemma py_sum_fold_right (l : list Q) : (py_sum l == fold_right Qplus 0 l)%Q.
Proof. unfold py_sum. rewrite fold_left_Qplus. ring. Qed.

Lemma mean_or_none_spec (window : list Q) :
  match window with
  | [] => mean_or_none window = None
  | _ :: _ =>
      exists m, mean_or_none window = Some m /\
                (m == arithmetic_mean window)%Q /\
                (m * inject_Z (Z.of_nat (length window))
                 == fold_right Qplus 0 window)%Q
  end.
Proof.
  destruct window as [|x l]; [reflexivity |].
  eexists. split; [reflexivity |].
  assert (Hn : ~ (inject_Z (Z.of_nat (length (x :: l))) == 0)%Q).
  { unfold Qeq. simpl. lia. }
  split.
  - unfold arithmetic_mean. now rewrite py_sum_fold_right.
  - rewrite py_sum_fold_right. field. exact Hn.
Qed.

(** C7.  For each of the four quantities the average drained in the
    publish block is [None] when the window is empty and otherwise the
    arithmetic mean of all entries of the window (their sum over their
    number); the window 10, 20, 30 has mean 20. *)
Theorem drain_mean_is_arithmetic_mean (s : state) :
  let mean_of (window : list Q) (avg : option Q) : Prop :=
    match window with
    | [] => avg = None
    | _ :: _ =>
        exists m, avg = Some m /\ (m == arithmetic_mean window)%Q /\
                  (m * inject_Z (Z.of_nat (length window))
                   == fold_right Qplus 0 window)%Q
    end in
  (let '(avg_temp, avg_hum, avg_lux, avg_moisture) := averages s in
   mean_of (temp_readings s) avg_temp /\
   mean_of (hum_readings s) avg_hum /\
   mean_of (lux_readings s) avg_lux /\
   mean_of (moisture_readings s) avg_moisture) /\
  mean_or_none [] = None /\
  (exists m, mean_or_none [10; 20; 30]%Q = Some m /\ (m == 20)%Q).
Proof.
  cbv zeta. split; [| split].
  - unfold averages. repeat split; apply mean_or_none_spec.
  - reflexivity.
  - eexists. split; [reflexivity | reflexivity].
Qed.

(** ** C6: publishing fails closed *)

Lemma safe_publish_run (w : world) (topic : string) (value : payload)
    (retain : bool) (s : state) :
  safe_publish w topic value retain s =
  if session_up s then
    let s1 := set_trace (MqttPublish topic value retain :: trace s) s in
    if raises (w (length (trace s))) then
      (Val false,
       set_connection_status (with_mqtt false (connection_status s1)) s1)
    else (Val true, s1)
  else (Val false, s).
Proof.
  unfold safe_publish, is_mqtt_connected, bind, gets, session_up.
  destruct (not_none (mqtt_client s) && mqtt (connection_status s));
    [| reflexivity].
  cbn [negb]. unfold try_except, call_unit, bind, ask.
  destruct (raises (w (length (trace s)))); reflexivity.
Qed.

(** C6.  [safe_publish] never raises.  When the session is not up it
    returns [False] and does nothing.  When the session is up it hands the
    message to the transport; if that raises, the [mqtt] flag is set to
    [False] and the result is [False].  The result is [True] exactly when
    the session was up and the transport publish returned. *)
Theorem safe_publish_fails_closed (w : world) (topic : string)
    (value : payload) (retain : bool) (s : state) :
  let r := eval (safe_publish w topic value retain) s in
  let s' := exec (safe_publish w topic value retain) s in
  (exists b, r = Val b) /\
  (session_up s = false -> r = Val false /\ s' = s) /\
  (session_up s = true ->
     trace s' = MqttPublish topic value retain :: trace s) /\
  (session_up s = true -> raises (w (length (trace s))) = true ->
     r = Val false /\ mqtt (connection_status s') = false) /\
  (r = Val true <->
     session_up s = true /\ raises (w (length (trace s))) = false).
Proof.
  unfold eval, exec. rewrite safe_publish_run.
  destruct (session_up s); cbv zeta;
    destruct (raises (w (length (trace s)))); cbn [fst snd];
    repeat split; eauto; try congruence; intros; try tauto;
    try (destruct_and?; congruence).
Qed.

(** ** C1: the health verdict *)

Lemma tracked_dht11 : "dht11" ∈ tracked.
Proof. unfold tracked. set_solver. Qed.
Lemma tracked_bh1750 : "bh1750" ∈ tracked.
Proof. unfold tracked. set_solver. Qed.
Lemma tracked_soil_moisture : "soil_moisture" ∈ tracked.
Proof. unfold tracked. set_solver. Qed.

#[local] Hint Resolve tracked_dht11 tracked_bh1750 tracked_soil_moisture
  : core.

Lemma sensor_working_run (name : string) (s : state) :
  keys_present s -> name ∈ tracked ->
  exists b, sensor_working name s = (Val b, s).
Proof.
  intros Hkeys Hname. destruct (Hkeys name Hname) as [[ok Hok] [n Hn]].
  unfold sensor_working, is_healthy, bind, dict_get. rewrite Hok.
  destruct ok; [rewrite Hn |]; eauto.
Qed.

Lemma working_sensors_run (s : state) :
  keys_present s -> exists n, working_sensors s = (Val n, s).
Proof.
  intros Hkeys.
  destruct (sensor_working_run "dht11" s) as [a Ha]; auto.
  destruct (sensor_working_run "bh1750" s) as [b Hb]; auto.
  destruct (sensor_working_run "soil_moisture" s) as [c Hc]; auto.
  unfold working_sensors, bind. rewrite Ha, Hb, Hc. eauto.
Qed.

Lemma total_sensors_run (s : state) :
  keys_present s -> exists n, total_sensors s = (Val n, s).
Proof.
  intros Hkeys.
  destruct (Hkeys "dht11") as [[a Ha] _]; auto.
  destruct (Hkeys "bh1750") as [[b Hb] _]; auto.
  destruct (Hkeys "soil_moisture") as [[c Hc] _]; auto.
  unfold total_sensors, bind, dict_get. rewrite Ha, Hb, Hc. eauto.
Qed.

Lemma device_status_run (w : world) (s : state) (working total : Z) :
  working_sensors s = (Val working, s) ->
  total_sensors s = (Val total, s) ->
  device_status w s =
  (Val (status_string (verdict w s working total)),
   match verdict w s working total with
   | PublishStale | Online => set_trace (TimeTime :: trace s) s
   | _ => s
   end).
Proof.
  intros Hw Ht. unfold device_status, bind, verdict, evaluate.
  rewrite Hw, Ht. unfold gets.
  destruct (wifi (connection_status s)); [| reflexivity].
  destruct (mqtt (connection_status s)); [| reflexivity].
  cbn [negb].
  destruct (working =? 0); [reflexivity |].
  destruct (working <? total); [reflexivity |].
  unfold time_time, bind, ask, ret.
  destruct (_ >? 300); reflexivity.
Qed.

Lemma status_string_constant (d : DeviceStatus) :
  (status_string d = "WiFi Disconnected" -> d = LinkDown) /\
  (status_string d = "MQTT Disconnected" -> d = SessionDown) /\
  (status_string d = "All Sensors Failed" -> d = AllSensorsFailed) /\
  (status_string d = "Publish Timeout" -> d = PublishStale) /\
  (status_string d = "Online" -> d = Online).
Proof. destruct d; repeat split; intros H; (reflexivity || discriminate H). Qed.

Lemma sensor_counts_run (s : state) :
  keys_present s ->
  working_sensors s = (Val (healthy_sensors s), s) /\
  total_sensors s = (Val (known_sensors s), s).
Proof.
  intros Hkeys.
  destruct (Hkeys "dht11") as [[a Ha] [ca Hca]]; auto.
  destruct (Hkeys "bh1750") as [[b Hb] [cb Hcb]]; auto.
  destruct (Hkeys "soil_moisture") as [[c Hc] [cc Hcc]]; auto.
  assert (Hone : forall name ok n,
            sensor_status s !! name = Some ok ->
            failed_sensor_reads s !! name = Some n ->
            sensor_working name s = (Val (ok && (n <? 5)), s)).
  { intros name ok n Hok Hn.
    unfold sensor_working, is_healthy, bind, dict_get. rewrite Hok.
    destruct ok; [rewrite Hn |]; reflexivity. }
  split.
  - unfold working_sensors, bind.
    rewrite (Hone _ _ _ Ha Hca), (Hone _ _ _ Hb Hcb), (Hone _ _ _ Hc Hcc).
    unfold ret, healthy_sensors, tracked, status_flag, failure_count.
    cbn [List.filter]. rewrite Ha, Hb, Hc, Hca, Hcb, Hcc.
    cbn [default from_option id].
    destruct (a && (ca <? 5)), (b && (cb <? 5)), (c && (cc <? 5));
      reflexivity.
  - unfold total_sensors, bind, dict_get. rewrite Ha, Hb, Hc.
    unfold ret, known_sensors, tracked, status_flag.
    cbn [List.filter]. rewrite Ha, Hb, Hc. cbn [default from_option id].
    destruct a, b, c; reflexivity.
Qed.

(** C1.  In a state whose sensor dictionaries hold their keys, the two
    counts of the status report are the number of healthy sensors (status
    flag set and failure count below 5) and the number of known sensors
    (status flag set) that the dictionaries hold, and the status string
    chosen by [publish_device_status] is the report of the verdict of the
    six rules taken in order on these counts: WiFi flag down, then MQTT
    flag down, then no healthy sensor, then fewer healthy sensors than
    known ones, then more than 300 seconds since the last successful
    publish, then online.  The strings of the five fixed verdicts are
    distinct from every other verdict's.  In particular, with the WiFi
    flag down the status is "WiFi Disconnected" whatever the sensors
    are. *)
Theorem health_verdict_priority (w : world) (s : state)
    (Hkeys : keys_present s) :
  let healthy := healthy_sensors s in
  let total := known_sensors s in
  let elapsed :=
    as_int (w (length (trace s)))
    - last_successful_publish (connection_status s) in
  eval working_sensors s = Val healthy /\
  eval total_sensors s = Val total /\
  eval (device_status w) s
  = Val (status_string
           (evaluate (wifi (connection_status s))
              (mqtt (connection_status s)) healthy total elapsed)) /\
  (forall d,
     (status_string d = "WiFi Disconnected" -> d = LinkDown) /\
     (status_string d = "MQTT Disconnected" -> d = SessionDown) /\
     (status_string d = "All Sensors Failed" -> d = AllSensorsFailed) /\
     (status_string d = "Publish Timeout" -> d = PublishStale) /\
     (status_string d = "Online" -> d = Online)) /\
  (wifi (connection_status s) = false ->
     evaluate (wifi (connection_status s)) (mqtt (connection_status s))
       healthy total elapsed = LinkDown /\
     eval (device_status w) s = Val "WiFi Disconnected").
Proof.
  cbv zeta. destruct (sensor_counts_run s Hkeys) as [Hw Ht].
  unfold eval.
  rewrite (device_status_run w s _ _ Hw Ht), Hw, Ht.
  cbn [fst]. unfold verdict.
  split; [reflexivity |]. split; [reflexivity |].
  split; [reflexivity |]. split; [apply status_string_constant |].
  intros Hdown. unfold evaluate. rewrite Hdown. split; reflexivity.
Qed.

Ltac solve_keys :=
  let name := fresh "name" in
  let Hin := fresh "Hin" in
  intros name Hin; unfold tracked in Hin;
  repeat (apply elem_of_cons in Hin as [-> | Hin]);
  [split; vm_compute; eauto ..| apply elem_of_nil in Hin; destruct Hin].

Lemma health_verdict_priority_witness :
  let s := exec (program config_example world_link_down 1) initial_state in
  keys_present s /\
  eval (device_status world_link_down) s = Val "WiFi Disconnected".
Proof.
  cbv zeta.
  assert (Hkeys : keys_present
            (exec (program config_example world_link_down 1) initial_state))
    by solve_keys.
  split; [exact Hkeys |].
  destruct (health_verdict_priority world_link_down _ Hkeys)
    as (_ & _ & _ & _ & Hdown).
  apply Hdown. vm_compute. reflexivity.
Defined.

(** ** C10: the status publication *)

Lemma session_up_set_trace (t : list call) (s : state) :
  session_up (set_trace t s) = session_up s.
Proof. reflexivity. Qed.

Lemma publish_device_status_run (w : world) (s : state)
    (working total : Z) :
  working_sensors s = (Val working, s) ->
  total_sensors s = (Val total, s) ->
  publish_device_status w s =
  safe_publish w (state_topic "status")
    (PStr (status_string (verdict w s working total))) false
    (match verdict w s working total with
     | PublishStale | Online => set_trace (TimeTime :: trace s) s
     | _ => s
     end).
Proof.
  intros Hw Ht. unfold publish_device_status, bind.
  now rewrite (device_status_run w s working total Hw Ht).
Qed.

(** C10 (as amended).  In a state whose sensor dictionaries hold their
    keys, [publish_device_status] never raises and returns [False]
    whenever the session is considered down; a state whose status is
    "MQTT Disconnected" therefore yields [False].  A state whose status is
    "WiFi Disconnected" yields [True] exactly when the session is up and
    the transport publish returns: the WiFi flag does not gate the
    publication. *)
Theorem status_publication_fails_closed (w : world) (s : state)
    (Hkeys : keys_present s) :
  let r := eval (publish_device_status w) s in
  (exists b, r = Val b) /\
  (session_up s = false -> r = Val false) /\
  (eval (device_status w) s = Val "MQTT Disconnected" -> r = Val false) /\
  (eval (device_status w) s = Val "WiFi Disconnected" ->
     (r = Val true <->
      session_up s = true /\ raises (w (length (trace s))) = false)).
Proof.
  destruct (working_sensors_run s Hkeys) as [working Hw].
  destruct (total_sensors_run s Hkeys) as [total Ht].
  cbv zeta. unfold eval.
  rewrite (publish_device_status_run w s working total Hw Ht).
  rewrite (device_status_run w s working total Hw Ht). cbn [fst].
  set (d := verdict w s working total).
  set (s1 := match d with
             | PublishStale | Online => set_trace (TimeTime :: trace s) s
             | _ => s
             end).
  assert (Hup : session_up s1 = session_up s) by (subst s1; now destruct d).
  assert (Hlen : d = LinkDown -> s1 = s) by (intros Hd; subst s1; now rewrite Hd).
  rewrite safe_publish_run, Hup. clearbody s1.
  assert (Hdown : session_up s = false ->
            fst (if session_up s
                 then
                   let s2 := set_trace
                     (MqttPublish (state_topic "status")
                        (PStr (status_string d)) false :: trace s1) s1 in
                   if raises (w (length (trace s1)))
                   then (Val false,
                         set_connection_status
                           (with_mqtt false (connection_status s2)) s2)
                   else (Val true, s2)
                 else (Val false, s1)) = Val false)
    by (intros ->; reflexivity).
  split; [| split; [exact Hdown | split]].
  - destruct (session_up s); cbv zeta;
      [destruct (raises (w (length (trace s1)))) |]; cbn [fst]; eauto.
  - intros Hd. apply Hdown.
    assert (d = SessionDown) as Hs
      by (apply status_string_constant; congruence).
    subst d. unfold verdict, evaluate, session_up in *.
    destruct (wifi (connection_status s)); [| discriminate Hs].
    destruct (mqtt (connection_status s)); cbn [negb] in Hs.
    + repeat match type of Hs with
             | (if ?b then _ else _) = _ => destruct b
             end; discriminate Hs.
    + apply andb_false_r.
  - intros Hd.
    assert (d = LinkDown) as Hs
      by (apply status_string_constant; congruence).
    rewrite (Hlen Hs).
    destruct (session_up s); cbv zeta;
      [destruct (raises (w (length (trace s)))) |]; cbn [fst];
      split; intros H; try discriminate H; try (destruct H; discriminate);
      auto.
Qed.

Lemma status_publication_fails_closed_witness :
  let s := exec (program config_example (world_failing_from 0) 1) initial_state in
  keys_present s /\
  eval (publish_device_status (world_failing_from 0)) s = Val false.
Proof.
  cbv zeta.
  assert (Hkeys : keys_present
            (exec (program config_example (world_failing_from 0) 1) initial_state))
    by solve_keys.
  split; [exact Hkeys |].
  destruct (status_publication_fails_closed (world_failing_from 0) _ Hkeys)
    as (_ & Hdown & _).
  apply Hdown. vm_compute. reflexivity.
Defined.

(** C10 as stated fails: when the WiFi never connects but the broker
    accepts the connection, the start-up code reaches a state whose status
    is "WiFi Disconnected", and publishing it returns [True]; the start-up
    code itself has already handed that status to the transport. *)
Lemma wifi_disconnected_status_is_published :
  let w := world_link_down in
  let s := exec (program config_example w 0) initial_state in
  eval (device_status w) s = Val "WiFi Disconnected" /\
  eval (publish_device_status w) s = Val true /\
  In (MqttPublish (state_topic "status") (PStr "WiFi Disconnected") false)
     (trace s).
Proof. vm_compute. repeat split; auto. Qed.

(** ** C5: publish attempts within one cycle *)

Lemma present_some (sensor_type : string) (v : Q)
    (rest : list (string * option Q)) :
  present ((sensor_type, Some v) :: rest) = (sensor_type, v) :: present rest.
Proof. reflexivity. Qed.

Lemma present_none (sensor_type : string)
    (rest : list (string * option Q)) :
  present ((sensor_type, None) :: rest) = present rest.
Proof. reflexivity. Qed.

Lemma publish_loop_session_down (w : world)
    (data : list (string * option Q)) (count : Z) (s : state) :
  session_up s = false -> publish_loop w data count s = (Val count, s).
Proof.
  intros Hdown. revert count.
  induction data as [|[sensor_type [v|]] rest IH]; intros count;
    cbn [publish_loop]; [reflexivity | | apply IH].
  unfold bind. rewrite safe_publish_run, Hdown. apply IH.
Qed.

(** What a batch does from a state with the session up. *)
Lemma publish_loop_run (w : world) (data : list (string * option Q))
    (count : Z) (s : state) :
  session_up s = true ->
  let n := length (trace s) in
  let items := present data in
  let sent := attempts w n items in
  let s1 := set_trace (rev sent ++ trace s) s in
  publish_loop w data count s =
  if any_failure w n items then
    (Val (count + Z.of_nat (length sent) - 1),
     set_connection_status (with_mqtt false (connection_status s)) s1)
  else (Val (count + Z.of_nat (length sent)), s1).
Proof.
  revert count s.
  induction data as [|[sensor_type [v|]] rest IH]; intros count s Hup;
    cbv zeta.
  - cbn [publish_loop present omap list_omap attempts any_failure rev app
         length].
    unfold ret. do 2 f_equal; [lia | now destruct s].
  - rewrite present_some. cbn [publish_loop attempts any_failure].
    unfold bind. rewrite safe_publish_run, Hup. cbv zeta.
    destruct (raises (w (length (trace s)))) eqn:Hraise.
    + rewrite publish_loop_session_down
        by (unfold session_up; state_simpl; apply andb_false_r).
      cbn [orb rev app length]. do 2 f_equal. lia.
    + rewrite IH by exact Hup. cbv zeta. state_simpl.
      cbn [orb rev length]. unfold publish_call. cbn [fst snd].
      rewrite <- !app_assoc. cbn [app]. state_simpl.
      destruct (any_failure w _ _); do 2 f_equal; lia.
  - rewrite present_none. cbn [publish_loop]. now apply IH.
Qed.

Lemma attempts_all (w : world) (n : nat) (items : list (string * Q)) :
  (forall i, (i < length items)%nat -> raises (w (n + i)%nat) = false) ->
  attempts w n items = publish_call <$> items.
Proof.
  revert n. induction items as [|item rest IH]; intros n Hok;
    [reflexivity |].
  cbn [attempts fmap list_fmap].
  rewrite <- (Nat.add_0_r n) at 1. rewrite Hok by (cbn; lia).
  f_equal. apply IH. intros i Hi.
  replace (S n + i)%nat with (n + S i)%nat by lia. apply Hok. cbn. lia.
Qed.

Lemma publish_sensor_data_run (w : world) (temp hum lux moisture : option Q)
    (s : state) :
  publish_sensor_data w temp hum lux moisture s =
  if session_up s then
    publish_loop w (batch temp hum lux moisture) 0 s
  else (Val 0, s).
Proof.
  unfold publish_sensor_data, is_mqtt_connected, bind, gets.
  fold (session_up s). now destruct (session_up s).
Qed.

(** C5 (as amended).  [publish_sensor_data] makes no transport call when
    the session is down.  When the session is up it hands the non-[None]
    quantities to the transport in order, up to and including the first
    one whose publish raises: that failure marks the session down, and
    the quantities after it are skipped without a transport call.  So
    every non-[None] quantity is attempted when no earlier publish of the
    cycle has failed, and only the first one when the first publish
    fails.  The count returned is the number of publishes that returned. *)
Theorem publish_attempts_stop_at_first_failure (w : world)
    (temp hum lux moisture : option Q) (s : state) :
  let items := present (batch temp hum lux moisture) in
  let r := eval (publish_sensor_data w temp hum lux moisture) s in
  let s' := exec (publish_sensor_data w temp hum lux moisture) s in
  let n := length (trace s) in
  let sent := if session_up s then attempts w n items else [] in
  let failed := session_up s && any_failure w n items in
  trace s' = rev sent ++ trace s /\
  session_up s' = session_up s && negb failed /\
  r = Val (Z.of_nat (length sent) - Z.b2z failed) /\
  (session_up s = true ->
   (forall i, (i < length items)%nat -> raises (w (n + i)%nat) = false) ->
   sent = publish_call <$> items) /\
  (session_up s = true -> raises (w n) = true ->
   sent = publish_call <$> take 1 items).
Proof.
  cbv zeta. unfold eval, exec. rewrite publish_sensor_data_run.
  destruct (session_up s) eqn:Hup.
  - rewrite publish_loop_run by exact Hup. cbv zeta. cbn [andb].
    split; [| split; [| split; [| split]]].
    + destruct (any_failure w _ _); reflexivity.
    + destruct (any_failure w _ _); cbn [snd negb]; unfold session_up in *;
        state_simpl; [apply andb_false_r | exact Hup].
    + destruct (any_failure w _ _); cbn [fst Z.b2z]; f_equal; lia.
    + intros _ Hok. now apply attempts_all.
    + intros _ Hraise.
      destruct (present (batch temp hum lux moisture)) as [|item rest];
        [reflexivity |].
      cbn [attempts]. now rewrite Hraise.
  - cbn [fst snd andb negb app rev length Z.b2z]. rewrite Hup.
    repeat split; intros; discriminate.
Qed.

(** C5 as stated fails: after a start-up that leaves the session up, a
    publish cycle with four values whose first transport publish
    (temperature, call number 22 of the run) raises makes no publish
    attempt for humidity, lux or soil moisture. *)
Lemma later_quantities_not_attempted :
  let w := world_failing_at 22 in
  let s := exec (program config_example w 0) initial_state in
  let s' := exec (publish_sensor_data w (Some 21%Q) (Some 40%Q)
                    (Some 300%Q) (Some 55%Q)) s in
  length (trace s) = 22%nat /\
  session_up s = true /\
  trace s'
  = MqttPublish (state_topic "temperature") (PNum 21) true :: trace s /\
  session_up s' = false.
Proof. vm_compute. repeat split. Qed.

(** ** Rules for [steps] *)

#[global] Instance keeping_preorder (P : state -> Prop) :
  PreOrder (keeping P).
Proof. split; unfold keeping; [intros s; auto | intros s1 s2 s3; auto]. Qed.

#[global] Instance same_sensors_preorder : PreOrder same_sensors.
Proof.
  split; unfold same_sensors.
  - intros s. repeat split.
  - intros s1 s2 s3 H1 H2. destruct_and!. repeat split; congruence.
Qed.

#[global] Instance same_windows_preorder : PreOrder same_windows.
Proof.
  split; unfold same_windows.
  - intros s. repeat split.
  - intros s1 s2 s3 H1 H2. destruct_and!. repeat split; congruence.
Qed.

#[global] Instance trace_grows_preorder : PreOrder trace_grows.
Proof.
  split; unfold trace_grows.
  - intros s. reflexivity.
  - intros s1 s2 s3 H1 H2. now transitivity (trace s2).
Qed.

#[global] Instance quiet_preorder : PreOrder quiet.
Proof.
  split; unfold quiet.
  - intros s. split; [| split; [| split]]; reflexivity.
  - intros s1 s2 s3 (Ha & Hb & Hc & Hd) (Ha' & Hb' & Hc' & Hd').
    split; [| split; [| split]]; etransitivity; eassumption.
Qed.

Section StepsRules.

Context (R : relation state) `{!PreOrder R}.
Context {A B : Type}.

Lemma steps_ret (a : A) : steps R (ret a).
Proof. intros s. reflexivity. Qed.

Lemma steps_raise (e : exn) : steps R (raise (A := A) e).
Proof. intros s. reflexivity. Qed.

Lemma steps_lift (r : result A) : steps R (lift r).
Proof. intros s. reflexivity. Qed.

Lemma steps_gets (f : state -> A) : steps R (gets f).
Proof. intros s. reflexivity. Qed.

Lemma steps_dict_get (d : state -> gmap string A) (k : string) :
  steps R (dict_get d k).
Proof.
  intros s. unfold exec, dict_get. destruct (d s !! k); reflexivity.
Qed.

Lemma steps_bind (m : M B) (k : B -> M A) :
  steps R m -> (forall b, steps R (k b)) -> steps R (bind m k).
Proof.
  intros Hm Hk s. specialize (Hm s). unfold exec, bind in *.
  destruct (m s) as [[b|e] s1]; cbn [snd] in *; [| exact Hm].
  etransitivity; [exact Hm | apply Hk].
Qed.

Lemma steps_try_except (body handler : M A) :
  steps R body -> steps R handler -> steps R (try_except body handler).
Proof.
  intros Hb Hh s. specialize (Hb s). unfold exec, try_except in *.
  destruct (body s) as [[a|e] s1]; cbn [snd] in *; [exact Hb |].
  etransitivity; [exact Hb | apply Hh].
Qed.

End StepsRules.

Lemma steps_modify (R : relation state) (f : state -> state) :
  (forall s, R s (f s)) -> steps R (modify f).
Proof. intros H s. apply H. Qed.

Lemma steps_ask (R : relation state) (w : world) (c : call) :
  (forall s, R s (set_trace (c :: trace s) s)) -> steps R (ask w c).
Proof. intros H s. apply H. Qed.

Lemma steps_weaken (R R' : relation state) {A} (m : M A) :
  (forall s s', R s s' -> R' s s') -> steps R m -> steps R' m.
Proof. intros Hsub Hm s. apply Hsub, Hm. Qed.

Lemma wp_of_steps (R : relation state) {A} (m : M A)
    (Q : result A -> state -> Prop) (s : state) :
  steps R m -> (forall r s', R s s' -> Q r s') -> wp m Q s.
Proof. intros Hm HQ. apply HQ, Hm. Qed.

Create HintDb steps discriminated.

(** Breaks a [steps] goal down along the program text; [leaf] proves
    what is left for the single assignments and calls. *)
Ltac steps_go leaf :=
  repeat first
    [ apply steps_ret; solve [typeclasses eauto]
    | apply steps_raise; solve [typeclasses eauto]
    | apply steps_lift; solve [typeclasses eauto]
    | apply steps_gets; solve [typeclasses eauto]
    | apply steps_dict_get; solve [typeclasses eauto]
    | solve [auto 1 with steps nocore]
    | apply steps_modify; solve [leaf]
    | apply steps_ask; solve [leaf]
    | apply steps_try_except; [typeclasses eauto | |]
    | apply steps_bind; [typeclasses eauto | | intros ?]
    | match goal with
      | |- steps _ (if ?b then _ else _) => destruct b
      | |- steps _ (match ?x with _ => _ end) => destruct x
      | |- steps _ (when ?b _) => unfold when
      end ].

Ltac quiet_solve :=
  solve
    [ unfold quiet, same_sensors, same_windows, trace_grows, keeping,
        session_inv in *; state_simpl;
      repeat split;
      first [ reflexivity
            | repeat apply suffix_cons_r; reflexivity
            | intros; first [discriminate | tauto | congruence]
            | unfold not; intros;
              repeat match goal with
                     | H : _ = None |- _ => rewrite H in *
                     end;
              discriminate ] ].

Ltac quiet_leaf :=
  idtac;
  let s := fresh "s" in
  intros s; quiet_solve.

(** Closes [quiet s0 x] from the [quiet] facts collected along a path. *)
Ltac quiet_chain :=
  first
    [ quiet_solve
    | match goal with
      | H : quiet ?m ?x |- quiet _ ?x =>
          transitivity m; [quiet_chain | exact H]
      | H : quiet _ ?y |- quiet _ _ =>
          transitivity y; [quiet_chain | quiet_solve]
      end ].

(** Symbolic execution that steps over calls known to be [quiet]. *)
Ltac wp_quiet_step :=
  first
    [ wp_step
    | match goal with
      | |- match ?r with Val _ => _ | Exc _ => _ end =>
          destruct r; cbv beta iota; state_simpl
      | |- wp _ _ _ =>
          eapply (wp_of_steps quiet);
          [ solve [auto 1 with steps nocore]
          | let r := fresh "r" in
            let s := fresh "s" in
            let H := fresh "Hq" in
            intros r s H; cbv beta iota ]
      end ].

Section Connectivity.

Variable w : world.

Lemma steps_call_unit (c : call) : steps quiet (call_unit w c).
Proof. unfold call_unit. steps_go quiet_leaf. Qed.
Lemma steps_call_num (c : call) : steps quiet (call_num w c).
Proof. unfold call_num. steps_go quiet_leaf. Qed.
Lemma steps_call_int (c : call) : steps quiet (call_int w c).
Proof. unfold call_int. steps_go quiet_leaf. Qed.
Lemma steps_call_pure (c : call) : steps quiet (call_pure w c).
Proof. unfold call_pure. steps_go quiet_leaf. Qed.
Lemma steps_call_bool (c : call) : steps quiet (call_bool w c).
Proof. unfold call_bool. steps_go quiet_leaf. Qed.
Lemma steps_time_time : steps quiet (time_time w).
Proof. unfold time_time. steps_go quiet_leaf. Qed.
Lemma steps_set_wifi (b : bool) : steps quiet (set_wifi b).
Proof. unfold set_wifi. steps_go quiet_leaf. Qed.
Lemma steps_set_mqtt_false : steps quiet (set_mqtt false).
Proof. unfold set_mqtt. steps_go quiet_leaf. Qed.

#[local] Hint Resolve steps_call_unit steps_call_num steps_call_int
  steps_call_pure steps_call_bool steps_time_time steps_set_wifi
  steps_set_mqtt_false : steps.

Lemma steps_wifi_wait (remaining : nat) : steps quiet (wifi_wait w remaining).
Proof.
  induction remaining as [|k IH]; cbn [wifi_wait]; steps_go quiet_leaf.
Qed.
#[local] Hint Resolve steps_wifi_wait : steps.

Lemma steps_connect_wifi : steps quiet (connect_wifi w).
Proof. unfold connect_wifi. steps_go quiet_leaf. Qed.

Lemma steps_connect_mqtt : steps quiet (connect_mqtt w).
Proof.
  intros s. change (wp (connect_mqtt w) (fun _ s' => quiet s s') s).
  unfold connect_mqtt. wp_run; quiet_solve.
Qed.

Lemma steps_is_mqtt_connected : steps quiet is_mqtt_connected.
Proof. unfold is_mqtt_connected. steps_go quiet_leaf. Qed.

#[local] Hint Resolve steps_connect_wifi steps_connect_mqtt
  steps_is_mqtt_connected : steps.

Lemma steps_discovery_loop (ids : list string) :
  steps quiet (discovery_loop w ids).
Proof.
  induction ids as [|id rest IH]; cbn [discovery_loop]; steps_go quiet_leaf.
Qed.
#[local] Hint Resolve steps_discovery_loop : steps.

Lemma steps_publish_discovery_config :
  steps quiet (publish_discovery_config w).
Proof. unfold publish_discovery_config. steps_go quiet_leaf. Qed.

Lemma steps_safe_publish (topic : string) (value : payload) (retain : bool) :
  steps quiet (safe_publish w topic value retain).
Proof. unfold safe_publish. steps_go quiet_leaf. Qed.
#[local] Hint Resolve steps_publish_discovery_config steps_safe_publish
  : steps.

Lemma steps_publish_loop (data : list (string * option Q)) (count : Z) :
  steps quiet (publish_loop w data count).
Proof.
  revert count.
  induction data as [|[sensor_type [v|]] rest IH]; intros count;
    cbn [publish_loop]; steps_go quiet_leaf.
Qed.
#[local] Hint Resolve steps_publish_loop : steps.

Lemma steps_publish_sensor_data (temp hum lux moisture : option Q) :
  steps quiet (publish_sensor_data w temp hum lux moisture).
Proof. unfold publish_sensor_data. steps_go quiet_leaf. Qed.

Lemma steps_is_healthy (name : string) : steps quiet (is_healthy name).
Proof. unfold is_healthy. steps_go quiet_leaf. Qed.
#[local] Hint Resolve steps_is_healthy : steps.

Lemma steps_sensor_working (name : string) :
  steps quiet (sensor_working name).
Proof. unfold sensor_working. steps_go quiet_leaf. Qed.
#[local] Hint Resolve steps_sensor_working : steps.

Lemma steps_working_sensors : steps quiet working_sensors.
Proof. unfold working_sensors. steps_go quiet_leaf. Qed.

Lemma steps_total_sensors : steps quiet total_sensors.
Proof. unfold total_sensors. steps_go quiet_leaf. Qed.
#[local] Hint Resolve steps_working_sensors steps_total_sensors : steps.

Lemma steps_device_status : steps quiet (device_status w).
Proof. unfold device_status. steps_go quiet_leaf. Qed.
#[local] Hint Resolve steps_device_status : steps.

Lemma steps_publish_device_status : steps quiet (publish_device_status w).
Proof. unfold publish_device_status. steps_go quiet_leaf. Qed.

Lemma steps_update_oled (temp hum lux moisture : option Q) :
  steps quiet (update_oled w temp hum lux moisture).
Proof. unfold update_oled. steps_go quiet_leaf. Qed.

Lemma steps_keepalive : steps quiet (keepalive w).
Proof. unfold keepalive. steps_go quiet_leaf. Qed.

Lemma steps_force_gc : steps quiet (force_gc w).
Proof. unfold force_gc. steps_go quiet_leaf. Qed.

Lemma steps_check_wifi : steps quiet (check_wifi w).
Proof. unfold check_wifi. steps_go quiet_leaf. Qed.

#[local] Hint Resolve steps_publish_sensor_data steps_publish_device_status
  steps_update_oled steps_keepalive steps_force_gc steps_check_wifi : steps.

Lemma steps_reconnect_mqtt : steps quiet (reconnect_mqtt w).
Proof. unfold reconnect_mqtt. steps_go quiet_leaf. Qed.
#[local] Hint Resolve steps_reconnect_mqtt : steps.

Lemma steps_check_mqtt : steps quiet (check_mqtt w).
Proof.
  intros s. change (wp (check_mqtt w) (fun _ s' => quiet s s') s).
  unfold check_mqtt. repeat wp_quiet_step; quiet_chain.
Qed.
#[local] Hint Resolve steps_check_mqtt : steps.

Lemma steps_check_connections : steps quiet (check_connections w).
Proof. unfold check_connections. steps_go quiet_leaf. Qed.
#[local] Hint Resolve steps_check_connections : steps.

Lemma steps_gc_block (current_time : Z) :
  steps quiet (gc_block w current_time).
Proof. unfold gc_block. steps_go quiet_leaf. Qed.

Lemma steps_connection_block (current_time : Z) :
  steps quiet (connection_block w current_time).
Proof. unfold connection_block. steps_go quiet_leaf. Qed.

Lemma steps_startup : steps quiet (startup w).
Proof. unfold startup. steps_go quiet_leaf. Qed.

End Connectivity.

#[global] Hint Resolve
  steps_call_unit
  steps_call_num
  steps_call_int
  steps_call_pure
  steps_call_bool
  steps_time_time
  steps_set_wifi
  steps_set_mqtt_false
  steps_wifi_wait
  steps_connect_wifi
  steps_connect_mqtt
  steps_is_mqtt_connected
  steps_discovery_loop
  steps_publish_discovery_config
  steps_safe_publish
  steps_publish_loop
  steps_publish_sensor_data
  steps_is_healthy
  steps_sensor_working
  steps_working_sensors
  steps_total_sensors
  steps_device_status
  steps_publish_device_status
  steps_update_oled
  steps_keepalive
  steps_force_gc
  steps_check_wifi
  steps_reconnect_mqtt
  steps_check_mqtt
  steps_check_connections
  steps_gc_block
  steps_connection_block
  steps_startup
  : steps.

(** ** The invariant along the whole program *)

Lemma tracked_cases (name : string) :
  name ∈ tracked ->
  name = "dht11" \/ name = "bh1750" \/ name = "soil_moisture".
Proof.
  unfold tracked. intros Hin.
  repeat (apply elem_of_cons in Hin as [-> | Hin]); auto.
  now apply elem_of_nil in Hin.
Qed.

Lemma quiet_keeps_inv (s s' : state) : quiet s s' -> keeping inv s s'.
Proof.
  intros ((Hd & Hl & Ha & Hs & Hf) & _ & _ & Hsess) [Hsens Hconn].
  split; [| now apply Hsess].
  intros name Hin. specialize (Hsens name Hin).
  unfold sensor_ok, driver in *. now rewrite Hd, Hl, Ha, Hs, Hf.
Qed.

Lemma steps_quiet_inv {A} (m : M A) : steps quiet m -> steps (keeping inv) m.
Proof. apply steps_weaken, quiet_keeps_inv. Qed.

#[global] Hint Extern 2 (steps (keeping inv) _) =>
  apply steps_quiet_inv; solve [auto 1 with steps nocore] : steps.

(** Proves [inv] of an explicitly updated state from [inv] of the state
    it was made from (and whatever else the context knows). *)
Ltac inv_core Hinv :=
  let Hsens := fresh "Hsens" in
  let Hconn := fresh "Hconn" in
  let name := fresh "name" in
  let Hin := fresh "Hin" in
  destruct Hinv as [Hsens Hconn]; split;
  [ intros name Hin;
    pose proof (Hsens _ tracked_dht11) as (? & ? & ? & ? & ?);
    pose proof (Hsens _ tracked_bh1750) as (? & ? & ? & ? & ?);
    pose proof (Hsens _ tracked_soil_moisture) as (? & ? & ? & ? & ?);
    clear Hsens;
    destruct (tracked_cases name Hin) as [-> | [-> | ->]];
    unfold sensor_ok, driver in *; cbn [String.eqb Ascii.eqb Bool.eqb] in *;
    state_simpl; simplify_map_eq;
    eexists; (split; [reflexivity |]);
    repeat split;
    first [assumption | lia | congruence | reflexivity
          | intros; first [discriminate | lia | congruence]]
  | unfold session_inv in *; state_simpl;
    first [assumption | intros; first [discriminate | tauto | congruence]] ].

Ltac inv_solve :=
  let Hinv := fresh "Hinv" in
  unfold keeping; intros Hinv; inv_core Hinv.

Ltac inv_leaf :=
  idtac;
  let s := fresh "s" in
  intros s; solve [inv_solve].

Ltac fresh_solve :=
  let Hinv := fresh "Hinv" in
  let Hzero := fresh "Hzero" in
  unfold keeping, fresh_inv; intros [Hinv Hzero]; split;
  [ pose proof (Hzero _ tracked_dht11);
    pose proof (Hzero _ tracked_bh1750);
    pose proof (Hzero _ tracked_soil_moisture);
    inv_core Hinv
  | state_simpl; exact Hzero ].

Section Loop.

Variable cfg : config.
Variable w : world.

Lemma steps_init_oled : steps (keeping fresh_inv) (init_oled w).
Proof.
  intros s. change (wp (init_oled w) (fun _ s' => keeping fresh_inv s s') s).
  unfold init_oled. wp_run; fresh_solve.
Qed.

Lemma steps_init_bh1750 : steps (keeping fresh_inv) (init_bh1750 w).
Proof.
  intros s.
  change (wp (init_bh1750 w) (fun _ s' => keeping fresh_inv s s') s).
  unfold init_bh1750. wp_run; fresh_solve.
Qed.

Lemma steps_init_dht11 : steps (keeping fresh_inv) (init_dht11 w).
Proof.
  intros s. change (wp (init_dht11 w) (fun _ s' => keeping fresh_inv s s') s).
  unfold init_dht11. wp_run; fresh_solve.
Qed.

Lemma steps_init_soil_moisture :
  steps (keeping fresh_inv) (init_soil_moisture w).
Proof.
  intros s.
  change (wp (init_soil_moisture w) (fun _ s' => keeping fresh_inv s s') s).
  unfold init_soil_moisture. wp_run; fresh_solve.
Qed.

Lemma steps_initialize_sensors :
  steps (keeping fresh_inv) (initialize_sensors w).
Proof.
  unfold initialize_sensors.
  repeat (apply steps_bind; [typeclasses eauto | | intros ?]);
    auto using steps_init_oled, steps_init_bh1750, steps_init_dht11,
      steps_init_soil_moisture.
Qed.

Lemma fresh_inv_initial : fresh_inv initial_state.
Proof.
  split; [split |].
  - intros name Hin.
    destruct (tracked_cases name Hin) as [-> | [-> | ->]];
      exists 0; vm_compute; repeat split; auto; discriminate.
  - intros H. discriminate H.
  - intros name Hin.
    destruct (tracked_cases name Hin) as [-> | [-> | ->]]; reflexivity.
Qed.

(** *** Reading the sensors *)

#[local] Instance sensing_preorder : PreOrder sensing.
Proof.
  split; unfold sensing.
  - intros s. split; reflexivity.
  - intros s1 s2 s3 [Ha Hb] [Ha' Hb']. split; etransitivity; eassumption.
Qed.

Ltac sensing_solve :=
  unfold sensing; split;
  [ inv_solve
  | unfold same_windows; state_simpl; repeat split; reflexivity ].

Lemma steps_safe_read_dht : steps sensing (safe_sensor_read "dht11" (read_dht w)).
Proof.
  intros s.
  change (wp (safe_sensor_read "dht11" (read_dht w))
            (fun _ s' => sensing s s') s).
  unfold safe_sensor_read, read_dht. wp_run; sensing_solve.
Qed.

Lemma steps_safe_read_lux :
  steps sensing (safe_sensor_read "bh1750" (read_lux w)).
Proof.
  intros s.
  change (wp (safe_sensor_read "bh1750" (read_lux w))
            (fun _ s' => sensing s s') s).
  unfold safe_sensor_read, read_lux. wp_run; sensing_solve.
Qed.

Lemma steps_safe_read_soil :
  steps sensing (safe_sensor_read "soil_moisture" (read_soil w)).
Proof.
  intros s.
  change (wp (safe_sensor_read "soil_moisture" (read_soil w))
            (fun _ s' => sensing s s') s).
  unfold safe_sensor_read, read_soil. wp_run; sensing_solve.
Qed.

Lemma steps_sensing_inv {A} (m : M A) :
  steps sensing m -> steps (keeping inv) m.
Proof. apply steps_weaken. now intros s s' [H _]. Qed.

#[local] Hint Resolve steps_safe_read_dht steps_safe_read_lux
  steps_safe_read_soil : steps.

Ltac sensing_leaf :=
  idtac;
  let s := fresh "s" in
  intros s; solve [sensing_solve].

Lemma steps_read_sensors_once : steps sensing (read_sensors_once cfg w).
Proof. unfold read_sensors_once. steps_go sensing_leaf. Qed.

Lemma inv_steps_read_cycle (current_time : Z) :
  steps (keeping inv) (read_cycle cfg w current_time).
Proof.
  unfold read_cycle, store_readings.
  apply steps_bind; [typeclasses eauto | | intros [[[temp hum] lux] moisture]].
  - apply steps_sensing_inv, steps_read_sensors_once.
  - steps_go inv_leaf.
Qed.

Lemma inv_steps_publish_cycle (current_time : Z) :
  steps (keeping inv) (publish_cycle w current_time).
Proof.
  unfold publish_cycle, clear_readings.
  apply steps_bind; [typeclasses eauto | | intros [[[temp hum] lux] moisture]];
    steps_go inv_leaf.
Qed.

#[local] Hint Resolve inv_steps_read_cycle inv_steps_publish_cycle : steps.

Lemma inv_steps_tick : steps (keeping inv) (tick cfg w).
Proof.
  unfold tick, gc_block, connection_block, status_block, read_block,
    publish_block.
  steps_go inv_leaf.
Qed.

Lemma inv_steps_ticks (n : nat) : steps (keeping inv) (ticks cfg w n).
Proof.
  induction n as [|k IH]; cbn [ticks]; [apply steps_ret; typeclasses eauto |].
  apply steps_bind; [typeclasses eauto | apply inv_steps_tick | auto].
Qed.

(** Every state the program reaches satisfies the invariant, whether or
    not the run has raised. *)
Lemma inv_program (n : nat) : inv (exec (program cfg w n) initial_state).
Proof.
  unfold program, exec, bind.
  pose proof (steps_initialize_sensors initial_state fresh_inv_initial)
    as [Hinit _].
  unfold exec in Hinit.
  destruct (initialize_sensors w initial_state) as [[[]|e] s1];
    cbn [snd] in *; [| exact Hinit].
  pose proof (steps_quiet_inv _ (steps_startup w) s1 Hinit) as Hstart.
  unfold exec in Hstart.
  destruct (startup w s1) as [[[]|e] s2]; cbn [snd] in *; [| exact Hstart].
  exact (inv_steps_ticks n s2 Hstart).
Qed.

End Loop.

#[global] Hint Resolve steps_sensing_inv inv_steps_read_cycle
  inv_steps_publish_cycle inv_steps_tick inv_steps_ticks : steps.
#[global] Hint Extern 2 (steps (keeping inv) (safe_sensor_read _ _)) =>
  apply steps_sensing_inv;
  first [apply steps_safe_read_dht | apply steps_safe_read_lux
        | apply steps_safe_read_soil] : steps.
#[global] Hint Extern 2 (steps (keeping inv) (read_sensors_once _ _)) =>
  apply steps_sensing_inv, steps_read_sensors_once : steps.

(** ** Rules for [returns] *)

Section ReturnsRules.

Context (P : state -> Prop).
Context {A B : Type}.

Lemma returns_ret (a : A) : returns P (ret a).
Proof. intros s _. now exists a. Qed.

Lemma returns_gets (f : state -> A) : returns P (gets f).
Proof. intros s _. now exists (f s). Qed.

Lemma returns_bind (m : M B) (k : B -> M A) :
  returns P m -> steps (keeping P) m -> (forall b, returns P (k b)) ->
  returns P (bind m k).
Proof.
  intros Hm Hkeep Hk s Hs. destruct (Hm s Hs) as [b Hb].
  specialize (Hkeep s Hs). unfold eval, exec, bind in *.
  destruct (m s) as [[b'|e] s1]; cbn [fst snd] in *; [| discriminate Hb].
  now apply Hk.
Qed.

Lemma returns_try_except (body handler : M A) :
  steps (keeping P) body -> returns P handler ->
  returns P (try_except body handler).
Proof.
  intros Hkeep Hh s Hs. specialize (Hkeep s Hs).
  unfold eval, exec, try_except in *.
  destruct (body s) as [[a|e] s1]; cbn [fst snd] in *; [now exists a |].
  now apply Hh.
Qed.

End ReturnsRules.

Lemma returns_modify (P : state -> Prop) (f : state -> state) :
  returns P (modify f).
Proof. intros s _. now exists tt. Qed.

Lemma returns_ask (P : state -> Prop) (w : world) (c : call) :
  returns P (ask w c).
Proof. intros s _. now eexists. Qed.

Lemma wp_total (P : state -> Prop) (R : relation state) {A} (m : M A)
    (Q : result A -> state -> Prop) (s : state) :
  returns P m -> steps R m -> P s ->
  (forall a s', R s s' -> Q (Val a) s') ->
  wp m Q s.
Proof.
  intros Hret Hsteps Hs HQ. destruct (Hret s Hs) as [a Ha].
  unfold wp. rewrite Ha. apply HQ, Hsteps.
Qed.

Lemma returns_get_status (name : string) :
  name ∈ tracked -> returns inv (dict_get sensor_status name).
Proof.
  intros Hin s [Hsens _]. destruct (Hsens name Hin) as (c & _ & _ & Hst & _).
  unfold eval, dict_get. rewrite Hst. eauto.
Qed.

Lemma returns_get_failed (name : string) :
  name ∈ tracked -> returns inv (dict_get failed_sensor_reads name).
Proof.
  intros Hin s [Hsens _]. destruct (Hsens name Hin) as (c & Hc & _).
  unfold eval, dict_get. rewrite Hc. eauto.
Qed.

Lemma steps_anywhere {A} (m : M A) : steps (keeping anywhere) m.
Proof. intros s _. exact I. Qed.

Lemma returns_anywhere (P : state -> Prop) {A} (m : M A) :
  returns anywhere m -> returns P m.
Proof. intros H s _. now apply H. Qed.

Create HintDb returns discriminated.

#[global] Hint Resolve tracked_dht11 tracked_bh1750 tracked_soil_moisture
  returns_get_status returns_get_failed : returns.
#[global] Hint Extern 3 (returns inv _) =>
  apply returns_anywhere; solve [auto 1 with returns nocore] : returns.

Ltac keeps_side :=
  first [ apply steps_anywhere
        | solve [auto 1 with steps nocore]
        | solve [steps_go inv_leaf] ].

(** Breaks a [returns] goal down along the program text. *)
Ltac returns_go :=
  repeat first
    [ apply returns_ret
    | apply returns_gets
    | apply returns_modify
    | apply returns_ask
    | solve [auto 2 with returns nocore]
    | apply returns_try_except; [keeps_side |]
    | apply returns_bind; [ | keeps_side | intros ?]
    | match goal with
      | |- returns _ (if ?b then _ else _) => destruct b
      | |- returns _ (match ?x with _ => _ end) => destruct x
      | |- returns _ (when ?b _) => unfold when
      end ].

Section ReturnsAnywhere.

Variable w : world.

Lemma returns_call_pure (c : call) : returns anywhere (call_pure w c).
Proof. unfold call_pure. returns_go. Qed.
Lemma returns_call_bool (c : call) : returns anywhere (call_bool w c).
Proof. unfold call_bool. returns_go. Qed.
Lemma returns_time_time : returns anywhere (time_time w).
Proof. unfold time_time. returns_go. Qed.
Lemma returns_set_wifi (b : bool) : returns anywhere (set_wifi b).
Proof. unfold set_wifi. returns_go. Qed.
Lemma returns_set_mqtt (b : bool) : returns anywhere (set_mqtt b).
Proof. unfold set_mqtt. returns_go. Qed.
Lemma returns_set_failed (name : string) (n : Z) :
  returns anywhere (set_failed name n).
Proof. unfold set_failed. returns_go. Qed.
Lemma returns_is_mqtt_connected : returns anywhere is_mqtt_connected.
Proof. unfold is_mqtt_connected. returns_go. Qed.

#[local] Hint Resolve returns_call_pure returns_call_bool returns_time_time
  returns_set_wifi returns_set_mqtt returns_set_failed
  returns_is_mqtt_connected : returns.

Lemma returns_wifi_wait (remaining : nat) :
  returns anywhere (wifi_wait w remaining).
Proof. induction remaining as [|k IH]; cbn [wifi_wait]; returns_go. Qed.
#[local] Hint Resolve returns_wifi_wait : returns.

Lemma returns_connect_wifi : returns anywhere (connect_wifi w).
Proof. unfold connect_wifi. returns_go. Qed.

Lemma returns_connect_mqtt : returns anywhere (connect_mqtt w).
Proof. unfold connect_mqtt. returns_go. Qed.

Lemma returns_discovery_loop (ids : list string) :
  returns anywhere (discovery_loop w ids).
Proof. induction ids as [|id rest IH]; cbn [discovery_loop]; returns_go. Qed.
#[local] Hint Resolve returns_discovery_loop : returns.

Lemma returns_publish_discovery_config :
  returns anywhere (publish_discovery_config w).
Proof. unfold publish_discovery_config. returns_go. Qed.

Lemma returns_safe_publish (topic : string) (value : payload)
    (retain : bool) :
  returns anywhere (safe_publish w topic value retain).
Proof. unfold safe_publish. returns_go. Qed.
#[local] Hint Resolve returns_safe_publish : returns.

Lemma returns_publish_loop (data : list (string * option Q)) (count : Z) :
  returns anywhere (publish_loop w data count).
Proof.
  revert count.
  induction data as [|[sensor_type [v|]] rest IH]; intros count;
    cbn [publish_loop]; returns_go.
Qed.
#[local] Hint Resolve returns_publish_loop : returns.

Lemma returns_publish_sensor_data (temp hum lux moisture : option Q) :
  returns anywhere (publish_sensor_data w temp hum lux moisture).
Proof. unfold publish_sensor_data. returns_go. Qed.

Lemma returns_update_oled (temp hum lux moisture : option Q) :
  returns anywhere (update_oled w temp hum lux moisture).
Proof. unfold update_oled. returns_go. Qed.

Lemma returns_keepalive : returns anywhere (keepalive w).
Proof. unfold keepalive. returns_go. Qed.

Lemma returns_force_gc : returns anywhere (force_gc w).
Proof. unfold force_gc. returns_go. Qed.
#[local] Hint Resolve returns_connect_wifi returns_force_gc : returns.

Lemma returns_check_wifi : returns anywhere (check_wifi w).
Proof. unfold check_wifi. returns_go. Qed.

Lemma returns_gc_block (current_time : Z) :
  returns anywhere (gc_block w current_time).
Proof. unfold gc_block. returns_go. Qed.

#[local] Hint Resolve returns_update_oled returns_publish_sensor_data
  : returns.

Lemma returns_publish_cycle (current_time : Z) :
  returns anywhere (publish_cycle w current_time).
Proof.
  unfold publish_cycle, clear_readings.
  apply returns_bind; [| keeps_side | intros [[[temp hum] lux] moisture]];
    returns_go.
Qed.

Lemma returns_store_readings
    (r : option Q * option Q * option Q * option Z) :
  returns anywhere (store_readings r).
Proof. destruct r as [[[temp hum] lux] moisture]. cbn. returns_go. Qed.

End ReturnsAnywhere.

#[global] Hint Resolve returns_call_pure returns_call_bool returns_time_time
  returns_set_wifi returns_set_mqtt returns_set_failed
  returns_is_mqtt_connected returns_wifi_wait returns_connect_wifi
  returns_connect_mqtt returns_discovery_loop
  returns_publish_discovery_config returns_safe_publish
  returns_publish_loop returns_publish_sensor_data returns_update_oled
  returns_keepalive returns_force_gc returns_check_wifi returns_gc_block
  returns_publish_cycle returns_store_readings : returns.

Section ReturnsInv.

Variable cfg : config.
Variable w : world.
Hypothesis Hcal : SOIL_MOISTURE_DRY cfg <> SOIL_MOISTURE_WET cfg.

Lemma returns_is_healthy (name : string) :
  name ∈ tracked -> returns inv (is_healthy name).
Proof. intros Hin. unfold is_healthy. returns_go. Qed.
#[local] Hint Resolve returns_is_healthy : returns.

Lemma returns_sensor_working (name : string) :
  name ∈ tracked -> returns inv (sensor_working name).
Proof. intros Hin. unfold sensor_working. returns_go. Qed.
#[local] Hint Resolve returns_sensor_working : returns.

Lemma returns_working_sensors : returns inv working_sensors.
Proof. unfold working_sensors. returns_go. Qed.

Lemma returns_total_sensors : returns inv total_sensors.
Proof. unfold total_sensors. returns_go. Qed.
#[local] Hint Resolve returns_working_sensors returns_total_sensors
  : returns.

Lemma returns_device_status : returns inv (device_status w).
Proof. unfold device_status. returns_go. Qed.
#[local] Hint Resolve returns_device_status : returns.

Lemma returns_publish_device_status : returns inv (publish_device_status w).
Proof. unfold publish_device_status. returns_go. Qed.
#[local] Hint Resolve returns_publish_device_status : returns.

Lemma returns_reconnect_mqtt : returns inv (reconnect_mqtt w).
Proof. unfold reconnect_mqtt. returns_go. Qed.

Lemma returns_check_mqtt : returns inv (check_mqtt w).
Proof.
  intros s Hinv. unfold eval, check_mqtt, bind, gets.
  destruct (mqtt_client s) as [h|] eqn:Hclient; cbn [not_none];
    [| now eexists].
  unfold try_except, call_unit, bind, ask.
  destruct (raises (w (length (trace s)))); [| now eexists].
  apply returns_reconnect_mqtt. revert Hinv. inv_solve.
Qed.
#[local] Hint Resolve returns_check_mqtt : returns.

Lemma returns_check_connections : returns inv (check_connections w).
Proof. unfold check_connections. returns_go. Qed.
#[local] Hint Resolve returns_check_connections : returns.

Lemma returns_connection_block (current_time : Z) :
  returns inv (connection_block w current_time).
Proof. unfold connection_block. returns_go. Qed.

Lemma returns_status_block (current_time : Z) :
  returns inv (status_block cfg w current_time).
Proof. unfold status_block. returns_go. Qed.

Lemma returns_startup : returns inv (startup w).
Proof. unfold startup. returns_go. Qed.

Lemma steps_read_dht : steps quiet (read_dht w).
Proof. unfold read_dht. steps_go quiet_leaf. Qed.
Lemma steps_read_lux : steps quiet (read_lux w).
Proof. unfold read_lux. steps_go quiet_leaf. Qed.
Lemma steps_read_soil : steps quiet (read_soil w).
Proof. unfold read_soil. steps_go quiet_leaf. Qed.
#[local] Hint Resolve steps_read_dht steps_read_lux steps_read_soil : steps.

Lemma returns_safe_sensor_read {A} (name : string) (read_function : M A) :
  name ∈ tracked -> steps quiet read_function ->
  returns inv (safe_sensor_read name read_function).
Proof.
  intros Hin Hquiet. unfold safe_sensor_read.
  apply returns_try_except; [| returns_go].
  apply steps_bind;
    [typeclasses eauto | now apply steps_quiet_inv | intros ?].
  unfold set_failed.
  destruct (tracked_cases name Hin) as [-> | [-> | ->]]; steps_go inv_leaf.
Qed.

Lemma returns_read_sensors_once : returns inv (read_sensors_once cfg w).
Proof.
  unfold read_sensors_once.
  apply returns_bind;
    [apply returns_safe_sensor_read; auto with steps | keeps_side
    | intros r1].
  destruct (default (None, None) r1) as [temp hum].
  apply returns_bind;
    [apply returns_safe_sensor_read; auto with steps | keeps_side
    | intros r2].
  apply returns_bind;
    [apply returns_safe_sensor_read; auto with steps | keeps_side
    | intros r3].
  apply returns_bind; [| keeps_side | intros ?; returns_go].
  destruct (mjoin r3) as [raw|]; [| returns_go].
  apply returns_bind; [| keeps_side | intros ?; returns_go].
  intros s _. unfold eval, lift, get_soil_moisture_percent. cbn [fst].
  destruct (Z.eqb_spec (SOIL_MOISTURE_DRY cfg - SOIL_MOISTURE_WET cfg) 0);
    [lia | now eexists].
Qed.
#[local] Hint Resolve returns_read_sensors_once : returns.

Lemma inv_steps_store_readings
    (r : option Q * option Q * option Q * option Z) :
  steps (keeping inv) (store_readings r).
Proof.
  destruct r as [[[temp hum] lux] moisture]. unfold store_readings.
  steps_go inv_leaf.
Qed.
#[local] Hint Resolve inv_steps_store_readings : steps.

Lemma returns_read_cycle (current_time : Z) :
  returns inv (read_cycle cfg w current_time).
Proof. unfold read_cycle. returns_go. Qed.
#[local] Hint Resolve returns_read_cycle : returns.

Lemma returns_read_block (current_time : Z) :
  returns inv (read_block cfg w current_time).
Proof. unfold read_block. returns_go. Qed.

Lemma returns_publish_block (current_time : Z) :
  returns inv (publish_block cfg w current_time).
Proof. unfold publish_block. returns_go. Qed.

#[local] Hint Resolve returns_connection_block returns_status_block
  returns_read_block returns_publish_block : returns.

Lemma returns_tick : returns inv (tick cfg w).
Proof. unfold tick. returns_go. Qed.

Lemma returns_ticks (n : nat) : returns inv (ticks cfg w n).
Proof.
  induction n as [|k IH]; cbn [ticks]; [apply returns_ret |].
  apply returns_bind; [apply returns_tick | keeps_side | auto].
Qed.

End ReturnsInv.

(** ** C2: the fault tracker *)

Lemma safe_sensor_read_success {A} (name : string) (read_function : M A)
    (s s1 : state) (v : A) :
  read_function s = (Val v, s1) ->
  safe_sensor_read name read_function s =
  (Val (Some v),
   set_failed_sensor_reads (<[name := 0]> (failed_sensor_reads s1)) s1).
Proof.
  intros Hrun. unfold safe_sensor_read, try_except, bind. now rewrite Hrun.
Qed.

Lemma safe_sensor_read_failure {A} (name : string) (read_function : M A)
    (s s1 : state) (e : exn) (c : Z) :
  read_function s = (Exc e, s1) ->
  failed_sensor_reads s1 !! name = Some c ->
  safe_sensor_read (A := A) name read_function s =
  (Val None,
   set_failed_sensor_reads (<[name := c + 1]> (failed_sensor_reads s1)) s1).
Proof.
  intros Hrun Hc. unfold safe_sensor_read, try_except, bind, dict_get.
  now rewrite Hrun, Hc.
Qed.

Lemma is_healthy_run (name : string) (s : state) (c : Z) :
  failed_sensor_reads s !! name = Some c ->
  is_healthy name s = (Val (c <? 5), s).
Proof. intros Hc. unfold is_healthy, bind, dict_get. now rewrite Hc. Qed.

Lemma counter_after_cons {A} (c : Z) (o : option A)
    (rest : list (option A)) :
  counter_after c (o :: rest) = counter_after (counter_after c [o]) rest.
Proof. reflexivity. Qed.

(** One guarded read, whatever the read function does to the state: the
    result is the outcome of the read, and the counter of the state the
    read leaves is reset or incremented. *)
Lemma safe_sensor_read_counts {A} (name : string) (read_function : M A)
    (s : state) (c : Z) :
  failed_sensor_reads (exec read_function s) !! name = Some c ->
  safe_sensor_read name read_function s =
  (Val (outcome read_function s),
   set_failed_sensor_reads
     (<[name := counter_after c [outcome read_function s]]>
        (failed_sensor_reads (exec read_function s)))
     (exec read_function s)).
Proof.
  unfold outcome, eval, exec. intros Hc.
  destruct (read_function s) as [[v|e] s1] eqn:Hrun; cbn [fst snd] in *.
  - now rewrite (safe_sensor_read_success name _ s s1 v Hrun).
  - now rewrite (safe_sensor_read_failure name _ s s1 e c Hrun Hc).
Qed.

Lemma record_all_run {A} (name : string) (reads : list (M A))
    (s : state) (c : Z) :
  Forall keeps_counters reads ->
  failed_sensor_reads s !! name = Some c ->
  eval (record_all name reads) s = Val (outcomes_of name reads s) /\
  failed_sensor_reads (exec (record_all name reads) s) !! name
  = Some (counter_after c (outcomes_of name reads s)).
Proof.
  intros Hkeep. revert s c.
  induction Hkeep as [|read_function rest Hread _ IH]; intros s c Hc;
    [split; [reflexivity | exact Hc] |].
  assert (Hc1 : failed_sensor_reads (exec read_function s) !! name = Some c)
    by now rewrite Hread.
  pose proof (safe_sensor_read_counts name read_function s c Hc1) as Hstep.
  cbn [record_all outcomes_of]. rewrite counter_after_cons.
  unfold eval, exec in *. unfold bind at 1 3. rewrite Hstep. cbn [snd].
  set (s1 := set_failed_sensor_reads _ _) in *.
  destruct (IH s1 (counter_after c [outcome read_function s]))
    as [Hval Hcount].
  { subst s1. state_simpl. apply lookup_insert_eq. }
  unfold bind. destruct (record_all name rest s1) as [r s2].
  cbn [fst snd] in *. subst r. cbn [fst snd]. split; [reflexivity |].
  exact Hcount.
Qed.

Lemma counter_after_failures {A} (c : Z) (N : nat) :
  counter_after (A := A) c (replicate N None) = c + Z.of_nat N.
Proof.
  revert c. induction N as [|k IH]; intros c; [cbn; lia |].
  cbn [replicate]. unfold counter_after in *. cbn [fold_left].
  rewrite IH. lia.
Qed.

Lemma quiet_keeps_counters {A} (m : M A) : steps quiet m -> keeps_counters m.
Proof.
  intros Hm s. destruct (Hm s) as [(_ & _ & _ & _ & Hcount) _].
  exact Hcount.
Qed.

(** C2.  For a sensor name with a counter [c] in [failed_sensor_reads],
    and read functions that may do anything to the state (the hardware
    reads log their calls) but leave the counters alone: a read that
    returns a value resets the counter to 0 and hands the value back; a
    read that raises, in whatever state it leaves, adds 1 to the counter
    and gives [None]; over any sequence of reads the results are the
    outcomes of the reads and the counter is the number of failures since
    the last success; the counter test is [c < 5], so after [N >= 5]
    consecutive failing reads the sensor is not healthy, and one
    successful read later the counter is 0 and it is healthy again.  In
    every state the program reaches, a tracked sensor is counted as
    working exactly when it was initialised and its counter is below 5,
    and a counter of 5 or more belongs to an initialised sensor. *)
Theorem fault_tracker_counts {A} (name : string) (s : state) (c : Z)
    (Hc : failed_sensor_reads s !! name = Some c) :
  (forall (read_function : M A) v s1,
     read_function s = (Val v, s1) ->
     safe_sensor_read name read_function s
     = (Val (Some v),
        set_failed_sensor_reads (<[name := 0]> (failed_sensor_reads s1)) s1)
     /\
     failed_sensor_reads (exec (safe_sensor_read name read_function) s)
       !! name = Some 0) /\
  (forall (read_function : M A) e s1,
     read_function s = (Exc e, s1) ->
     failed_sensor_reads s1 !! name = Some c ->
     safe_sensor_read name read_function s
     = (Val None,
        set_failed_sensor_reads
          (<[name := c + 1]> (failed_sensor_reads s1)) s1) /\
     failed_sensor_reads (exec (safe_sensor_read name read_function) s)
       !! name = Some (c + 1)) /\
  (forall reads : list (M A),
     Forall keeps_counters reads ->
     eval (record_all name reads) s = Val (outcomes_of name reads s) /\
     failed_sensor_reads (exec (record_all name reads) s) !! name
     = Some (counter_after c (outcomes_of name reads s))) /\
  eval (is_healthy name) s = Val (c <? 5) /\
  (forall reads : list (M A),
     Forall keeps_counters reads ->
     outcomes_of name reads s = replicate (length reads) None ->
     0 <= c -> (5 <= length reads)%nat ->
     let s1 := exec (record_all name reads) s in
     failed_sensor_reads s1 !! name = Some (c + Z.of_nat (length reads)) /\
     eval (is_healthy name) s1 = Val false /\
     forall (read_function : M A) v s2,
       read_function s1 = (Val v, s2) ->
       let s3 := exec (safe_sensor_read name read_function) s1 in
       eval (safe_sensor_read name read_function) s1 = Val (Some v) /\
       failed_sensor_reads s3 !! name = Some 0 /\
       eval (is_healthy name) s3 = Val true) /\
  (forall cfg w n sensor,
     sensor ∈ tracked ->
     let reached := exec (program cfg w n) initial_state in
     exists count ok,
       failed_sensor_reads reached !! sensor = Some count /\
       sensor_status reached !! sensor = Some ok /\
       eval (sensor_working sensor) reached = Val (ok && (count <? 5)) /\
       (5 <= count -> ok = true)).
Proof.
  split; [| split; [| split; [| split; [| split]]]].
  - intros rf v s1 Hrun. unfold exec.
    rewrite (safe_sensor_read_success name rf s s1 v Hrun).
    split; [reflexivity |]. cbn [snd]. state_simpl. apply lookup_insert_eq.
  - intros rf e s1 Hrun Hc1. unfold exec.
    rewrite (safe_sensor_read_failure name rf s s1 e c Hrun Hc1).
    split; [reflexivity |]. cbn [snd]. state_simpl. apply lookup_insert_eq.
  - intros reads Hkeep. now apply record_all_run.
  - unfold eval. now rewrite (is_healthy_run name s c Hc).
  - intros reads Hkeep Hfail Hc0 HN. cbv zeta.
    destruct (record_all_run name reads s c Hkeep Hc) as [_ Hcount].
    rewrite Hfail, counter_after_failures in Hcount.
    set (s1 := exec (record_all name reads) s) in *.
    split; [exact Hcount |]. split.
    { unfold eval. rewrite (is_healthy_run name s1 _ Hcount). cbn [fst].
      f_equal. lia. }
    intros rf v s2 Hrun. unfold eval, exec.
    rewrite (safe_sensor_read_success name rf s1 s2 v Hrun).
    split; [reflexivity |]. cbn [snd]. split.
    { state_simpl. apply lookup_insert_eq. }
    rewrite (is_healthy_run name _ 0); [reflexivity |].
    state_simpl. apply lookup_insert_eq.
  - intros cfg w n sensor Hin. cbv zeta.
    destruct (inv_program cfg w n) as [Hsens _].
    destruct (Hsens sensor Hin) as (count & Hcount & Hpos & Hstatus & Hzero).
    exists count,
      (not_none (driver sensor (exec (program cfg w n) initial_state))).
    split; [exact Hcount |]. split; [exact Hstatus |]. split.
    + unfold eval, sensor_working, bind, dict_get. rewrite Hstatus.
      destruct (not_none _); [| reflexivity].
      now rewrite (is_healthy_run sensor _ count Hcount).
    + intros Hfive.
      destruct (driver sensor _) as [h|]; [reflexivity |].
      specialize (Hzero eq_refl). lia.
Qed.

(** Six failing hardware reads of the light sensor, each of which logs
    its call, and one read that returns. *)
Lemma fault_tracker_counts_witness :
  let w := world_failing_from 22 in
  let s := exec (program config_example w 0) initial_state in
  let reads := replicate 6 (read_lux w) in
  let s1 := exec (record_all "bh1750" reads) s in
  failed_sensor_reads s !! "bh1750" = Some 0 /\
  length (trace s1) = (length (trace s) + 6)%nat /\
  failed_sensor_reads s1 !! "bh1750" = Some 6 /\
  eval (is_healthy "bh1750") s1 = Val false /\
  failed_sensor_reads
    (exec (safe_sensor_read "bh1750" (read_lux world_quiet)) s1)
    !! "bh1750" = Some 0.
Proof.
  cbv zeta.
  set (w := world_failing_from 22).
  set (s := exec (program config_example w 0) initial_state).
  assert (Hc : failed_sensor_reads s !! "bh1750" = Some 0)
    by (vm_compute; reflexivity).
  assert (Hkeep : Forall keeps_counters (replicate 6 (read_lux w)))
    by (repeat constructor; apply quiet_keeps_counters, steps_read_lux).
  assert (Hfail : outcomes_of "bh1750" (replicate 6 (read_lux w)) s
                  = replicate (length (replicate 6 (read_lux w))) None)
    by (vm_compute; reflexivity).
  destruct (fault_tracker_counts (A := option Q) "bh1750" s 0 Hc)
    as (_ & _ & _ & _ & Hrun & _).
  destruct (Hrun _ Hkeep Hfail ltac:(lia) ltac:(cbn; lia))
    as (Hcount & Hbad & Hgood).
  split; [exact Hc |]. split; [vm_compute; reflexivity |].
  split; [exact Hcount |]. split; [exact Hbad |].
  refine (proj1 (proj2 (Hgood (read_lux world_quiet) (Some 21%Q) _ _))).
  vm_compute. reflexivity.
Defined.

(** ** C9: a sensor without a driver *)

(** C9.  A read function whose driver global is [None] returns [None]
    (a pair of [None] for the DHT11) without raising and without touching
    the hardware, so [safe_sensor_read] takes it for a success and sets
    the counter of that sensor to 0.  In every state the program reaches,
    a tracked sensor that has no driver has counter 0 and passes the
    counter test. *)
Theorem absent_driver_counter_stays_zero (cfg : config) (w : world) :
  (forall s, dht_sensor s = None -> read_dht w s = (Val (None, None), s)) /\
  (forall s, light_sensor s = None -> read_lux w s = (Val None, s)) /\
  (forall s, soil_moisture_adc s = None -> read_soil w s = (Val None, s)) /\
  (forall s, dht_sensor s = None ->
     let run := safe_sensor_read "dht11" (read_dht w) in
     eval run s = Val (Some (None, None)) /\
     failed_sensor_reads (exec run s) !! "dht11" = Some 0) /\
  (forall s, light_sensor s = None ->
     let run := safe_sensor_read "bh1750" (read_lux w) in
     eval run s = Val (Some None) /\
     failed_sensor_reads (exec run s) !! "bh1750" = Some 0) /\
  (forall s, soil_moisture_adc s = None ->
     let run := safe_sensor_read "soil_moisture" (read_soil w) in
     eval run s = Val (Some None) /\
     failed_sensor_reads (exec run s) !! "soil_moisture" = Some 0) /\
  (forall n name,
     name ∈ tracked ->
     let s := exec (program cfg w n) initial_state in
     driver name s = None ->
     failed_sensor_reads s !! name = Some 0 /\
     sensor_status s !! name = Some false /\
     eval (is_healthy name) s = Val true).
Proof.
  assert (Hdht : forall s, dht_sensor s = None ->
                   read_dht w s = (Val (None, None), s)).
  { intros s Hnone. unfold read_dht, bind, gets. now rewrite Hnone. }
  assert (Hlux : forall s, light_sensor s = None ->
                   read_lux w s = (Val None, s)).
  { intros s Hnone. unfold read_lux, bind, gets. now rewrite Hnone. }
  assert (Hsoil : forall s, soil_moisture_adc s = None ->
                    read_soil w s = (Val None, s)).
  { intros s Hnone. unfold read_soil, bind, gets. now rewrite Hnone. }
  split; [exact Hdht |]. split; [exact Hlux |]. split; [exact Hsoil |].
  split; [| split; [| split]].
  - intros s Hnone. cbv zeta. unfold eval, exec.
    rewrite (safe_sensor_read_success _ _ s s _ (Hdht s Hnone)).
    split; [reflexivity |]. cbn [snd]. state_simpl. apply lookup_insert_eq.
  - intros s Hnone. cbv zeta. unfold eval, exec.
    rewrite (safe_sensor_read_success _ _ s s _ (Hlux s Hnone)).
    split; [reflexivity |]. cbn [snd]. state_simpl. apply lookup_insert_eq.
  - intros s Hnone. cbv zeta. unfold eval, exec.
    rewrite (safe_sensor_read_success _ _ s s _ (Hsoil s Hnone)).
    split; [reflexivity |]. cbn [snd]. state_simpl. apply lookup_insert_eq.
  - intros n name Hin. cbv zeta. intros Hnone.
    destruct (inv_program cfg w n) as [Hsens _].
    destruct (Hsens name Hin) as (c & Hc & _ & Hstatus & Hzero).
    rewrite (Hzero Hnone) in Hc. rewrite Hnone in Hstatus.
    split; [exact Hc |]. split; [exact Hstatus |].
    unfold eval. now rewrite (is_healthy_run name _ 0 Hc).
Qed.

(** ** C3: session and link *)

Lemma trace_grows_In (s s' : state) (c : call) :
  trace_grows s s' -> In c (trace s) -> In c (trace s').
Proof.
  intros [new Hnew] Hin. rewrite Hnew. apply in_or_app. now right.
Qed.

Lemma quiet_In (s s' : state) (c : call) :
  quiet s s' -> In c (trace s) -> In c (trace s').
Proof. intros (_ & _ & Hgrow & _). now apply trace_grows_In. Qed.

Ltac in_trace :=
  state_simpl; cbn [In]; repeat first [left; reflexivity | right].

Lemma connect_mqtt_attempts (w : world) (s : state) :
  In MqttConnect (trace (exec (connect_mqtt w) s)).
Proof.
  change (wp (connect_mqtt w) (fun _ s' => In MqttConnect (trace s')) s).
  unfold connect_mqtt. wp_run; in_trace.
Qed.

Lemma startup_attempts (w : world) (s : state) :
  In MqttConnect (trace (exec (startup w) s)).
Proof.
  unfold startup, exec, bind.
  destruct (returns_connect_wifi w s I) as [b Hb]. unfold eval in Hb.
  destruct (connect_wifi w s) as [r s1]. cbn [fst] in Hb. subst r.
  pose proof (connect_mqtt_attempts w s1) as Hin. unfold exec in Hin.
  destruct (connect_mqtt w s1) as [[[]|e] s2]; cbn [snd] in *;
    [| exact Hin | exact Hin].
  assert (Htail : steps quiet
            (bind (publish_discovery_config w)
               (fun _ => bind (publish_device_status w) (fun _ => ret tt))))
    by steps_go quiet_leaf.
  exact (quiet_In _ _ _ (Htail s2) Hin).
Qed.

Lemma check_mqtt_attempts (w : world) (s : state) :
  mqtt_client s <> None -> In MqttPing (trace (exec (check_mqtt w) s)).
Proof.
  intros Hclient. unfold check_mqtt, exec, bind, gets.
  destruct (mqtt_client s) as [h|]; [| now destruct Hclient].
  cbn [not_none]. unfold try_except, call_unit, bind, ask.
  destruct (raises (w (length (trace s)))).
  - apply (quiet_In _ _ _ (steps_reconnect_mqtt w _)). in_trace.
  - in_trace.
Qed.

#[local] Instance same_client_preorder : PreOrder same_client.
Proof.
  split; unfold same_client; [intros s | intros s1 s2 s3]; congruence.
Qed.

Ltac client_leaf :=
  idtac;
  let s := fresh "s" in
  intros s; reflexivity.

Lemma client_wifi_wait (w : world) (remaining : nat) :
  steps same_client (wifi_wait w remaining).
Proof.
  induction remaining as [|k IH]; cbn [wifi_wait]; unfold call_bool;
    steps_go client_leaf.
Qed.

Lemma client_check_wifi (w : world) : steps same_client (check_wifi w).
Proof.
  pose proof (client_wifi_wait w) as Hwait.
  unfold check_wifi, connect_wifi, call_bool, call_pure, set_wifi.
  steps_go client_leaf; auto.
Qed.

Lemma check_connections_attempts (w : world) (s : state) :
  mqtt_client s <> None ->
  In MqttPing (trace (exec (check_connections w) s)).
Proof.
  intros Hclient. unfold check_connections, exec, bind, gets.
  destruct (returns_check_wifi w s I) as [[] Hb]. unfold eval in Hb.
  pose proof (client_check_wifi w s) as Hsame. unfold exec in Hsame.
  destruct (check_wifi w s) as [r s1]. cbn [fst snd] in *. subst r.
  pose proof (check_mqtt_attempts w s1) as Hin. unfold exec in Hin.
  rewrite Hsame in Hin. specialize (Hin Hclient).
  destruct (check_mqtt w s1) as [[[]|e] s2]; cbn [snd] in *;
    [| exact Hin].
  destruct (_ || _); [| exact Hin].
  assert (Htail : steps quiet
            (bind (publish_device_status w) (fun _ => ret tt)))
    by steps_go quiet_leaf.
  exact (quiet_In _ _ _ (Htail s2) Hin).
Qed.



(** ** C4: the aggregation windows *)

Lemma quiet_windows_of (s s' : state) :
  quiet s s' ->
  windows_of s' = windows_of s /\
  last_publish_time s' = last_publish_time s /\
  last_sensor_read_time s' = last_sensor_read_time s.
Proof.
  intros (_ & (Ht & Hh & Hl & Hm & Hp & Hr) & _). unfold windows_of.
  now rewrite Ht, Hh, Hl, Hm.
Qed.

(** The publish block: whatever the windows hold and whatever the display
    and the transport do, it returns, leaves all four windows empty and
    stamps the publish timer. *)
Lemma publish_cycle_effect (w : world) (current_time : Z) (s : state) :
  eval (publish_cycle w current_time) s = Val tt /\
  windows_empty (exec (publish_cycle w current_time) s) /\
  last_publish_time (exec (publish_cycle w current_time) s) = current_time /\
  last_sensor_read_time (exec (publish_cycle w current_time) s)
  = last_sensor_read_time s.
Proof.
  change (wp (publish_cycle w current_time)
            (fun r s' => r = Val tt /\ windows_empty s' /\
                         last_publish_time s' = current_time /\
                         last_sensor_read_time s' = last_sensor_read_time s)
            s).
  unfold publish_cycle. apply wp_bind, wp_gets. unfold averages.
  cbv beta iota.
  apply wp_bind.
  eapply (wp_total anywhere quiet);
    [auto 1 with returns nocore | auto 1 with steps nocore | exact I |].
  intros [] s1 Hq1. cbv beta iota.
  apply wp_bind.
  eapply (wp_total anywhere quiet);
    [auto 1 with returns nocore | auto 1 with steps nocore | exact I |].
  intros count s2 Hq2. cbv beta iota.
  destruct (quiet_windows_of _ _ Hq1) as (_ & _ & Hr1).
  destruct (quiet_windows_of _ _ Hq2) as (_ & _ & Hr2).
  unfold clear_readings, windows_empty, windows_of.
  wp_run; (split; [reflexivity |]); (split; [repeat constructor |]);
    (split; [reflexivity | congruence]).
Qed.

Lemma grown_refl (l : list Q) : grown l l.
Proof. exists []. rewrite app_nil_r. split; [reflexivity | cbn; lia]. Qed.

Lemma grown_option (l : list Q) (o : option Q) : grown l (l ++ option_list o).
Proof. exists (option_list o). split; [reflexivity |]. destruct o; cbn; lia. Qed.

Section Windows.

Variable cfg : config.
Variable w : world.
Hypothesis Hcal : SOIL_MOISTURE_DRY cfg <> SOIL_MOISTURE_WET cfg.

(** The read block body: every window gains at most one reading. *)
Lemma read_cycle_effect (current_time : Z) (s : state) :
  inv s ->
  wp (read_cycle cfg w current_time)
     (fun r s' => r = Val tt /\ inv s' /\
                  Forall2 grown (windows_of s) (windows_of s') /\
                  last_sensor_read_time s' = current_time /\
                  last_publish_time s' = last_publish_time s) s.
Proof.
  intros Hinv. unfold read_cycle. apply wp_bind.
  eapply (wp_total inv sensing);
    [ apply returns_read_sensors_once, Hcal
    | apply steps_read_sensors_once | exact Hinv |].
  intros [[[temp hum] lux] moisture] s1 [Hkeep Hsame]. cbv beta iota.
  specialize (Hkeep Hinv).
  destruct Hsame as (Ht & Hh & Hl & Hm & Hp & Hr).
  unfold store_readings, windows_of.
  wp_run; (split; [reflexivity |]);
    (split; [revert Hkeep; inv_solve |]);
    (split; [| split; [reflexivity | exact Hp]]);
    rewrite ?Ht, ?Hh, ?Hl, ?Hm;
    repeat constructor; first [apply grown_refl | apply grown_option].
Qed.

Lemma read_block_effect (current_time : Z) (s : state) :
  inv s ->
  wp (read_block cfg w current_time)
     (fun r s' =>
        r = Val tt /\ inv s' /\
        last_publish_time s' = last_publish_time s /\
        if current_time - last_sensor_read_time s
           >=? SENSOR_READ_INTERVAL cfg
        then Forall2 grown (windows_of s) (windows_of s') /\
             last_sensor_read_time s' = current_time
        else windows_of s' = windows_of s /\
             last_sensor_read_time s' = last_sensor_read_time s) s.
Proof.
  intros Hinv. unfold read_block. apply wp_bind, wp_gets. cbv beta iota.
  unfold when. destruct (_ >=? _).
  - eapply wp_mono; [apply read_cycle_effect, Hinv |].
    cbv beta. intros r s' (Hr & Hinv' & Hgrown & Hread & Hpub). auto.
  - apply wp_ret. auto.
Qed.

Lemma publish_block_effect (current_time : Z) (s : state) :
  inv s ->
  wp (publish_block cfg w current_time)
     (fun r s' =>
        r = Val tt /\ inv s' /\
        last_sensor_read_time s' = last_sensor_read_time s /\
        if current_time - last_publish_time s >=? PUBLISH_INTERVAL cfg
        then windows_empty s' /\ last_publish_time s' = current_time
        else windows_of s' = windows_of s /\
             last_publish_time s' = last_publish_time s) s.
Proof.
  intros Hinv. unfold publish_block. apply wp_bind, wp_gets. cbv beta iota.
  unfold when. destruct (_ >=? _).
  - destruct (publish_cycle_effect w current_time s)
      as (Hr & Hempty & Hpub & Hread).
    unfold wp. repeat split; auto.
    + now apply (inv_steps_publish_cycle w current_time s).
    + now apply (inv_steps_publish_cycle w current_time s).
  - apply wp_ret. auto.
Qed.

(** One loop iteration from a state that satisfies the invariant: it
    returns, keeps the invariant, and treats the windows as [tick_effect]
    says. *)
Lemma tick_run (s : state) :
  inv s ->
  eval (tick cfg w) s = Val tt /\
  inv (exec (tick cfg w) s) /\
  tick_effect cfg (as_int (w (length (trace s)))) s (exec (tick cfg w) s).
Proof.
  intros Hinv.
  change (wp (tick cfg w)
            (fun r s' => r = Val tt /\ inv s' /\
               tick_effect cfg (as_int (w (length (trace s)))) s s') s).
  unfold tick. apply wp_bind. unfold time_time.
  apply wp_bind, wp_ask. cbv beta iota. apply wp_ret. cbv beta iota.
  set (ct := as_int (w (length (trace s)))).
  assert (H0 : inv (set_trace (TimeTime :: trace s) s))
    by (revert Hinv; inv_solve).
  set (s0 := set_trace (TimeTime :: trace s) s) in *.
  assert (Hw0 : windows_of s0 = windows_of s) by reflexivity.
  assert (Hp0 : last_publish_time s0 = last_publish_time s) by reflexivity.
  assert (Hr0 : last_sensor_read_time s0 = last_sensor_read_time s)
    by reflexivity.
  clearbody s0.
  apply wp_bind.
  eapply (wp_total inv quiet);
    [auto 2 with returns nocore | auto 1 with steps nocore | exact H0 |].
  intros [] s1 Hq1. cbv beta iota.
  pose proof (quiet_keeps_inv _ _ Hq1 H0) as H1.
  destruct (quiet_windows_of _ _ Hq1) as (Hw1 & Hp1 & Hr1).
  apply wp_bind.
  eapply (wp_total inv quiet);
    [auto 2 with returns nocore | auto 1 with steps nocore | exact H1 |].
  intros [] s2 Hq2. cbv beta iota.
  pose proof (quiet_keeps_inv _ _ Hq2 H1) as H2.
  destruct (quiet_windows_of _ _ Hq2) as (Hw2 & Hp2 & Hr2).
  apply wp_bind.
  eapply (wp_total inv quiet);
    [apply returns_connection_block | auto 1 with steps nocore | exact H2 |].
  intros [] s3 Hq3. cbv beta iota.
  pose proof (quiet_keeps_inv _ _ Hq3 H2) as H3.
  destruct (quiet_windows_of _ _ Hq3) as (Hw3 & Hp3 & Hr3).
  apply wp_bind.
  eapply (wp_total inv quiet);
    [apply returns_status_block | | exact H3 |].
  { unfold status_block. steps_go quiet_leaf. }
  intros [] s4 Hq4. cbv beta iota.
  pose proof (quiet_keeps_inv _ _ Hq4 H3) as H4.
  destruct (quiet_windows_of _ _ Hq4) as (Hw4 & Hp4 & Hr4).
  assert (Hw : windows_of s4 = windows_of s) by congruence.
  assert (Hp : last_publish_time s4 = last_publish_time s) by congruence.
  assert (Hr : last_sensor_read_time s4 = last_sensor_read_time s)
    by congruence.
  clear Hq1 Hq2 Hq3 Hq4 Hw0 Hw1 Hw2 Hw3 Hw4 Hp0 Hp1 Hp2 Hp3 Hp4
    Hr0 Hr1 Hr2 Hr3 Hr4 H0 H1 H2 H3.
  apply wp_bind.
  eapply wp_mono; [apply read_block_effect, H4 |].
  cbv beta. intros r s5 (-> & H5 & Hp5 & Hread). cbv iota.
  eapply wp_mono; [apply publish_block_effect, H5 |].
  cbv beta. intros r s6 (-> & H6 & Hr6 & Hpub).
  split; [reflexivity |]. split; [exact H6 |].
  unfold tick_effect. cbv zeta. fold ct.
  rewrite Hr in Hread. rewrite Hp5, Hp in Hpub.
  destruct (ct - last_sensor_read_time s >=? SENSOR_READ_INTERVAL cfg);
    destruct (ct - last_publish_time s >=? PUBLISH_INTERVAL cfg);
    destruct Hread as [Hwin5 Hread5]; destruct Hpub as [Hwin6 Hpub6];
    (split; [congruence |]); (split; [congruence |]);
    try exact Hwin6; congruence.
Qed.

End Windows.

Lemma window_fresh_step (cfg : config) (ct : Z) (s s' : state)
    (l l' : list Q) :
  0 < SENSOR_READ_INTERVAL cfg ->
  let read := ct - last_sensor_read_time s >=? SENSOR_READ_INTERVAL cfg in
  let publish := ct - last_publish_time s >=? PUBLISH_INTERVAL cfg in
  last_sensor_read_time s' = (if read then ct else last_sensor_read_time s) ->
  last_publish_time s' = (if publish then ct else last_publish_time s) ->
  (if publish then l' = [] else if read then grown l l' else l' = l) ->
  window_fresh cfg s l -> window_fresh cfg s' l'.
Proof.
  intros Hpos. cbv zeta. intros Hr Hp Hwin [Hlow Hfull].
  unfold window_fresh. cbv zeta. rewrite Hr, Hp. clear Hr Hp.
  destruct (Z.geb_spec (ct - last_sensor_read_time s)
              (SENSOR_READ_INTERVAL cfg));
    destruct (Z.geb_spec (ct - last_publish_time s) (PUBLISH_INTERVAL cfg)).
  - subst l'. cbn [length]. split; lia.
  - destruct Hwin as (new & -> & Hnew). rewrite length_app.
    split; [lia |]. intros Hn.
    destruct (decide (0 < Z.of_nat (length l))) as [Hl|Hl].
    + destruct (Hfull Hl). split; nia.
    + split; nia.
  - subst l'. cbn [length]. split; lia.
  - subst l'. split; [lia | exact Hfull].
Qed.

Lemma windows_fresh_same (cfg : config) (s s' : state) :
  windows_of s' = windows_of s ->
  last_publish_time s' = last_publish_time s ->
  last_sensor_read_time s' = last_sensor_read_time s ->
  windows_fresh cfg s -> windows_fresh cfg s'.
Proof.
  intros Hw Hp Hr. unfold windows_fresh, window_fresh.
  now rewrite Hw, Hp, Hr.
Qed.

Lemma tick_effect_keeps_fresh (cfg : config) (ct : Z) (s s' : state) :
  0 < SENSOR_READ_INTERVAL cfg ->
  tick_effect cfg ct s s' -> windows_fresh cfg s -> windows_fresh cfg s'.
Proof.
  intros Hpos (Hr & Hp & Hwin). unfold windows_fresh, windows_empty in *.
  unfold windows_of in *.
  rewrite !Forall_cons.
  intros (Ht & Hh & Hl & Hm & _).
  assert (Hstep : forall l l',
            (if ct - last_publish_time s >=? PUBLISH_INTERVAL cfg
             then l' = []
             else if ct - last_sensor_read_time s
                     >=? SENSOR_READ_INTERVAL cfg
                  then grown l l' else l' = l) ->
            window_fresh cfg s l -> window_fresh cfg s' l')
    by (intros l l'; now apply (window_fresh_step cfg ct s s')).
  destruct (ct - last_publish_time s >=? PUBLISH_INTERVAL cfg) eqn:Hpub.
  - rewrite !Forall_cons in Hwin. destruct Hwin as (Et & Eh & El & Em & _).
    split; [| split; [| split; [| split; [| constructor]]]];
      [apply (Hstep (temp_readings s)) | apply (Hstep (hum_readings s))
      | apply (Hstep (lux_readings s)) | apply (Hstep (moisture_readings s))];
      assumption.
  - destruct (ct - last_sensor_read_time s >=? SENSOR_READ_INTERVAL cfg)
      eqn:Hread.
    + rewrite !Forall2_cons in Hwin. destruct Hwin as (Gt & Gh & Gl & Gm & _).
      split; [| split; [| split; [| split; [| constructor]]]];
        eapply Hstep; eassumption.
    + injection Hwin as Et Eh El Em.
      split; [| split; [| split; [| split; [| constructor]]]];
        eapply Hstep; eassumption.
Qed.

Ltac frame_leaf :=
  idtac;
  let s := fresh "s" in
  intros s; unfold same_windows; state_simpl; repeat split; reflexivity.

Lemma frame_initialize_sensors (w : world) :
  steps same_windows (initialize_sensors w).
Proof.
  unfold initialize_sensors, init_oled, init_bh1750, init_dht11,
    init_soil_moisture, call_unit, call_num, call_int, set_status.
  steps_go frame_leaf.
Qed.

Lemma returns_initialize_sensors (w : world) :
  returns anywhere (initialize_sensors w).
Proof.
  unfold initialize_sensors, init_oled, init_bh1750, init_dht11,
    init_soil_moisture, set_status.
  returns_go.
Qed.

Lemma windows_fresh_initial (cfg : config) :
  0 < SENSOR_READ_INTERVAL cfg -> windows_fresh cfg initial_state.
Proof.
  intros Hpos.
  assert (Hempty : window_fresh cfg initial_state [])
    by (split; cbn; lia).
  unfold windows_fresh, windows_of. cbn.
  repeat (constructor; [exact Hempty |]). constructor.
Qed.

Section Runs.

Variable cfg : config.
Variable w : world.
Hypothesis Hcal : SOIL_MOISTURE_DRY cfg <> SOIL_MOISTURE_WET cfg.
Hypothesis Hpos : 0 < SENSOR_READ_INTERVAL cfg.

Lemma ticks_run (n : nat) (s : state) :
  inv s -> windows_fresh cfg s ->
  eval (ticks cfg w n) s = Val tt /\
  inv (exec (ticks cfg w n) s) /\
  windows_fresh cfg (exec (ticks cfg w n) s).
Proof.
  revert s. induction n as [|k IH]; intros s Hinv Hfresh;
    [split; [reflexivity | split; assumption] |].
  destruct (tick_run cfg w Hcal s Hinv) as (Hval & Hinv1 & Heffect).
  pose proof (tick_effect_keeps_fresh cfg _ s _ Hpos Heffect Hfresh) as Hfresh1.
  destruct (IH _ Hinv1 Hfresh1) as (Hval2 & Hinv2 & Hfresh2).
  unfold eval, exec in *. cbn [ticks]. unfold bind.
  destruct (tick cfg w s) as [r s1]. cbn [fst snd] in *. subst r.
  auto.
Qed.

Lemma program_run (n : nat) :
  eval (program cfg w n) initial_state = Val tt /\
  inv (exec (program cfg w n) initial_state) /\
  windows_fresh cfg (exec (program cfg w n) initial_state).
Proof.
  destruct (returns_initialize_sensors w initial_state I) as [[] Hval1].
  pose proof (steps_initialize_sensors w initial_state fresh_inv_initial)
    as [Hinv1 _].
  pose proof (frame_initialize_sensors w initial_state)
    as (Ht & Hh & Hl & Hm & Hp & Hr).
  assert (Hfresh1 : windows_fresh cfg (exec (initialize_sensors w) initial_state)).
  { apply (windows_fresh_same cfg initial_state); auto.
    - unfold windows_of. now rewrite Ht, Hh, Hl, Hm.
    - now apply windows_fresh_initial. }
  unfold program, eval, exec, bind in *.
  destruct (initialize_sensors w initial_state) as [r s1].
  cbn [fst snd] in *. subst r. clear Ht Hh Hl Hm Hp Hr.
  destruct (returns_startup w s1 Hinv1) as [[] Hval2].
  pose proof (steps_startup w s1) as Hq. unfold eval, exec in *.
  destruct (startup w s1) as [r s2]. cbn [fst snd] in *. subst r.
  pose proof (quiet_keeps_inv _ _ Hq Hinv1) as Hinv2.
  destruct (quiet_windows_of _ _ Hq) as (Hw2 & Hp2 & Hr2).
  pose proof (windows_fresh_same cfg s1 s2 Hw2 Hp2 Hr2 Hfresh1) as Hfresh2.
  exact (ticks_run n s2 Hinv2 Hfresh2).
Qed.

End Runs.

(** C4.  The publish block returns and leaves all four windows empty and
    the publish timer stamped, whatever the windows held and whatever
    display and transport did.  With calibration bounds that differ, a
    loop iteration from a state satisfying the invariant returns, empties
    the windows when its publish timer has elapsed and otherwise lets each
    window grow by at most one reading.  With a positive read interval
    besides, in every state the program reaches a window with [n]
    readings has its latest read more than [n - 1] read intervals and
    less than one publish interval after the last publish cycle, so it
    never holds more than one publish interval of reads. *)
Theorem windows_cleared_every_publish_cycle (cfg : config) (w : world) :
  (forall current_time s,
     eval (publish_cycle w current_time) s = Val tt /\
     windows_empty (exec (publish_cycle w current_time) s) /\
     last_publish_time (exec (publish_cycle w current_time) s)
     = current_time) /\
  (SOIL_MOISTURE_DRY cfg <> SOIL_MOISTURE_WET cfg ->
   forall s,
     inv s ->
     eval (tick cfg w) s = Val tt /\
     inv (exec (tick cfg w) s) /\
     tick_effect cfg (as_int (w (length (trace s)))) s
       (exec (tick cfg w) s)) /\
  (SOIL_MOISTURE_DRY cfg <> SOIL_MOISTURE_WET cfg ->
   0 < SENSOR_READ_INTERVAL cfg ->
   forall n,
     let s := exec (program cfg w n) initial_state in
     eval (program cfg w n) initial_state = Val tt /\
     windows_fresh cfg s /\
     Forall (fun window =>
               let count := Z.of_nat (length window) in
               0 < count ->
               (count - 1) * SENSOR_READ_INTERVAL cfg < PUBLISH_INTERVAL cfg)
       (windows_of s)).
Proof.
  split; [| split].
  - intros current_time s.
    destruct (publish_cycle_effect w current_time s) as (H1 & H2 & H3 & _).
    auto.
  - intros Hcal s Hinv. now apply tick_run.
  - intros Hcal Hpos n. cbv zeta.
    destruct (program_run cfg w Hcal Hpos n) as (Hval & _ & Hfresh).
    split; [exact Hval |]. split; [exact Hfresh |].
    unfold windows_fresh in Hfresh.
    eapply Forall_impl; [exact Hfresh |].
    intros window [_ Hfull] Hcount. destruct (Hfull Hcount). lia.
Qed.

Lemma windows_cleared_every_publish_cycle_witness :
  SOIL_MOISTURE_DRY config_example <> SOIL_MOISTURE_WET config_example /\
  0 < SENSOR_READ_INTERVAL config_example /\
  let s := exec (program config_example world_quiet 7) initial_state in
  eval (program config_example world_quiet 7) initial_state = Val tt /\
  windows_fresh config_example s.
Proof.
  assert (Hcal : SOIL_MOISTURE_DRY config_example
                 <> SOIL_MOISTURE_WET config_example) by discriminate.
  assert (Hpos : 0 < SENSOR_READ_INTERVAL config_example) by reflexivity.
  split; [exact Hcal |]. split; [exact Hpos |].
  destruct (windows_cleared_every_publish_cycle config_example world_quiet)
    as (_ & _ & Hrun).
  destruct (Hrun Hcal Hpos 7%nat) as (Hval & Hfresh & _).
  split; [exact Hval | exact Hfresh].
Defined.

(** * Further properties of the program *)

(** ** Soil moisture: order and degenerate calibrations *)

(** X1.  With calibration bounds [wet < dry] the percentage never rises
    with the raw value: a larger ADC reading (drier soil) gives a
    percentage that is at most that of a smaller one. *)
Theorem soil_moisture_percent_antitone (raw1 raw2 dry wet : Z)
    (Hcal : wet < dry) (Hraw : raw1 <= raw2) :
  exists p1 p2,
    get_soil_moisture_percent raw1 dry wet = Val p1 /\
    get_soil_moisture_percent raw2 dry wet = Val p2 /\
    p2 <= p1.
Proof.
  do 2 eexists. split; [now apply soil_percent_value |].
  split; [now apply soil_percent_value |].
  rewrite !Z.quot_div_nonneg by nia.
  apply Z.div_le_mono; nia.
Qed.

Lemma soil_moisture_percent_antitone_witness :
  exists p1 p2,
    get_soil_moisture_percent 20000 41000 18000 = Val p1 /\
    get_soil_moisture_percent 35000 41000 18000 = Val p2 /\
    p2 <= p1.
Proof.
  apply (soil_moisture_percent_antitone 20000 35000 41000 18000); lia.
Defined.

(** X2.  Degenerate calibrations: with equal bounds the conversion raises
    [ZeroDivisionError] for every raw value, and with the bounds the wrong
    way round ([dry < wet]) it answers 100 for every raw value. *)
Theorem soil_moisture_percent_degenerate (raw dry wet : Z) :
  (dry = wet -> get_soil_moisture_percent raw dry wet = Exc ZeroDivisionError) /\
  (dry < wet -> get_soil_moisture_percent raw dry wet = Val 100).
Proof.
  unfold get_soil_moisture_percent. split.
  - intros ->. now rewrite Z.sub_diag.
  - intros Hinv. destruct (Z.eqb_spec (dry - wet) 0); [lia |].
    replace (Z.max (Z.min raw dry) wet) with wet by lia.
    rewrite Z.mul_comm, Z.quot_mul by lia. reflexivity.
Qed.

Lemma soil_moisture_percent_degenerate_witness :
  get_soil_moisture_percent 30000 18000 18000 = Exc ZeroDivisionError /\
  get_soil_moisture_percent 30000 18000 41000 = Val 100.
Proof.
  split.
  - apply (soil_moisture_percent_degenerate 30000 18000 18000). reflexivity.
  - apply (soil_moisture_percent_degenerate 30000 18000 41000). reflexivity.
Defined.

(** ** The mean of a window *)

Lemma sum_between (l : list Q) (lo hi : Q) :
  Forall (fun x => lo <= x /\ x <= hi)%Q l ->
  (inject_Z (Z.of_nat (length l)) * lo <= fold_right Qplus 0 l /\
   fold_right Qplus 0 l <= inject_Z (Z.of_nat (length l)) * hi)%Q.
Proof.
  induction 1 as [|x l [Hlo Hhi] _ [IHlo IHhi]].
  - cbn. split; rewrite Qmult_0_l; apply Qle_refl.
  - cbn [length fold_right]. rewrite Nat2Z.inj_succ. unfold Z.succ.
    rewrite inject_Z_plus. split.
    + assert (E : ((inject_Z (Z.of_nat (length l)) + inject_Z 1) * lo
                   == lo + inject_Z (Z.of_nat (length l)) * lo)%Q) by ring.
      rewrite E. now apply Qplus_le_compat.
    + assert (E : ((inject_Z (Z.of_nat (length l)) + inject_Z 1) * hi
                   == hi + inject_Z (Z.of_nat (length l)) * hi)%Q) by ring.
      rewrite E. now apply Qplus_le_compat.
Qed.

(** ** Sensor counts of the health report *)

Lemma sensor_working_value (name : string) (s : state) :
  keys_present s -> name ∈ tracked ->
  exists ok b,
    sensor_status s !! name = Some ok /\
    sensor_working name s = (Val b, s) /\
    (b = true -> ok = true).
Proof.
  intros Hkeys Hname. destruct (Hkeys name Hname) as [[ok Hok] [n Hn]].
  exists ok. unfold sensor_working, is_healthy, bind, dict_get.
  rewrite Hok. destruct ok; [rewrite Hn |]; eexists;
    (split; [reflexivity |]); (split; [reflexivity |]);
    first [reflexivity | discriminate].
Qed.

Lemma sum_bools_three (a b c : bool) :
  sum_bools [a; b; c] = Z.b2z a + Z.b2z b + Z.b2z c.
Proof. now destruct a, b, c. Qed.

(** X4.  In a state whose sensor dictionaries hold their keys, the two
    counts of the status report satisfy
    [0 <= working_sensors <= total_sensors <= 3]: a sensor is never
    counted as working without being counted as initialised. *)
Theorem sensor_counts_bounded (s : state) (Hkeys : keys_present s) :
  exists working total,
    eval working_sensors s = Val working /\
    eval total_sensors s = Val total /\
    0 <= working <= total /\ total <= 3.
Proof.
  destruct (sensor_working_value "dht11" s) as (a' & a & Ha' & Ha & Ia);
    auto.
  destruct (sensor_working_value "bh1750" s) as (b' & b & Hb' & Hb & Ib);
    auto.
  destruct (sensor_working_value "soil_moisture" s)
    as (c' & c & Hc' & Hc & Ic); auto.
  exists (sum_bools [a; b; c]), (sum_bools [a'; b'; c']).
  unfold eval, working_sensors, total_sensors, bind, dict_get.
  rewrite Ha, Hb, Hc, Ha', Hb', Hc'. cbn [fst].
  split; [reflexivity |]. split; [reflexivity |].
  rewrite !sum_bools_three.
  destruct a, b, c, a', b', c'; cbn;
    try lia; (specialize (Ia eq_refl) || specialize (Ib eq_refl)
              || specialize (Ic eq_refl)); discriminate.
Qed.

Lemma sensor_counts_bounded_witness :
  let s := exec (program config_example (world_failing_from 9) 6)
             initial_state in
  exists working total,
    eval working_sensors s = Val working /\
    eval total_sensors s = Val total /\
    0 <= working <= total /\ total <= 3.
Proof.
  cbv zeta. apply sensor_counts_bounded. solve_keys.
Defined.

(** X5.  When none of the three sensors was initialised, a device whose
    WiFi and MQTT flags are both up reports "All Sensors Failed": the
    test for zero working sensors comes before the comparison with the
    (equally zero) total, so such a device is never reported online. *)
Theorem no_sensor_initialised_reports_all_failed (w : world) (s : state)
    (Hdht : sensor_status s !! "dht11" = Some false)
    (Hlux : sensor_status s !! "bh1750" = Some false)
    (Hsoil : sensor_status s !! "soil_moisture" = Some false)
    (Hwifi : wifi (connection_status s) = true)
    (Hmqtt : mqtt (connection_status s) = true) :
  eval total_sensors s = Val 0 /\
  eval (device_status w) s = Val "All Sensors Failed".
Proof.
  assert (Hoff : forall name, sensor_status s !! name = Some false ->
            sensor_working name s = (Val false, s)).
  { intros name Hname. unfold sensor_working, bind, dict_get.
    now rewrite Hname. }
  assert (Hworking : working_sensors s = (Val 0, s)).
  { unfold working_sensors, bind. now rewrite !Hoff by assumption. }
  assert (Htotal : total_sensors s = (Val 0, s)).
  { unfold total_sensors, bind, dict_get. now rewrite Hdht, Hlux, Hsoil. }
  unfold eval. rewrite (device_status_run w s 0 0 Hworking Htotal), Htotal.
  unfold verdict, evaluate. rewrite Hwifi, Hmqtt. split; reflexivity.
Qed.

Lemma no_sensor_initialised_reports_all_failed_witness :
  let w := world_no_sensors in
  let s := exec (program config_example w 0) initial_state in
  eval total_sensors s = Val 0 /\
  eval (device_status w) s = Val "All Sensors Failed".
Proof.
  cbv zeta.
  apply (no_sensor_initialised_reports_all_failed world_no_sensors);
    vm_compute; reflexivity.
Defined.

(** ** A name without a counter *)

(** X6.  For a name that has no entry in [failed_sensor_reads] (such as
    "oled"), a successful read creates the entry with count 0, but a
    failing read escapes [safe_sensor_read] as [KeyError]: the handler's
    increment subscripts the missing key. *)
Theorem safe_sensor_read_untracked_name {A} (name : string)
    (read_function : M A) (s s1 : state)
    (Hnew : failed_sensor_reads s1 !! name = None) :
  (forall e, read_function s = (Exc e, s1) ->
     safe_sensor_read name read_function s = (Exc (KeyError name), s1)) /\
  (forall v, read_function s = (Val v, s1) ->
     eval (safe_sensor_read name read_function) s = Val (Some v) /\
     failed_sensor_reads (exec (safe_sensor_read name read_function) s)
       !! name = Some 0).
Proof.
  split.
  - intros e Hrun.
    unfold safe_sensor_read, try_except, bind, dict_get.
    now rewrite Hrun, Hnew.
  - intros v Hrun. unfold eval, exec.
    rewrite (safe_sensor_read_success name _ s s1 v Hrun).
    split; [reflexivity |]. cbn [snd]. state_simpl. apply lookup_insert_eq.
Qed.

Lemma safe_sensor_read_untracked_name_witness :
  safe_sensor_read (A := Q) "oled" (raise OSError) initial_state
  = (Exc (KeyError "oled"), initial_state).
Proof.
  assert (Hnew : failed_sensor_reads initial_state !! "oled" = None)
    by (vm_compute; reflexivity).
  exact (proj1 (safe_sensor_read_untracked_name "oled" (raise OSError)
                  initial_state initial_state Hnew) OSError eq_refl).
Defined.

(** ** Connecting the WiFi *)

Lemma replicate_app_cons {A} (n : nat) (x : A) (l : list A) :
  replicate n x ++ x :: l = x :: replicate n x ++ l.
Proof. induction n as [|n IH]; [reflexivity |]. cbn. now rewrite IH. Qed.

Lemma handle_unique (h : handle) : h = Handle.
Proof. now destruct h. Qed.

Lemma rev_replicate_same {A} (n : nat) (x : A) :
  rev (replicate n x) = replicate n x.
Proof.
  induction n as [|n IH]; [reflexivity |].
  cbn [replicate rev]. rewrite IH, replicate_app_cons.
  now rewrite app_nil_r.
Qed.

(** *** Rules for code without a [try] *)

Lemma calls_returned_refl (w : world) (s s' : state) :
  trace s' = trace s -> calls_returned w s s'.
Proof. intros Htrace. exists []. split; [exact Htrace |]. cbn. lia. Qed.

Lemma calls_returned_trans (w : world) (s1 s2 s3 : state) :
  calls_returned w s1 s2 -> calls_returned w s2 s3 ->
  calls_returned w s1 s3.
Proof.
  intros (calls1 & Ht1 & Hok1) (calls2 & Ht2 & Hok2).
  exists (calls2 ++ calls1). split; [now rewrite Ht2, Ht1, app_assoc |].
  intros i Hi. rewrite length_app in Hi.
  destruct (Nat.lt_ge_cases i (length calls1)) as [Hlt | Hge];
    [now apply Hok1 |].
  replace (length (trace s1) + i)%nat
    with (length (trace s2) + (i - length calls1))%nat
    by (rewrite Ht1, length_app; lia).
  apply Hok2. lia.
Qed.

Lemma stopped_after_returned (w : world) (s1 s2 s3 : state) :
  calls_returned w s1 s2 -> stopped_at_call w s2 s3 ->
  stopped_at_call w s1 s3.
Proof.
  intros (calls1 & Ht1 & Hok1) (c & calls2 & Ht2 & Hok2 & Hraise).
  exists c, (calls2 ++ calls1).
  split; [now rewrite Ht2, Ht1, app_assoc |]. split.
  - intros i Hi. rewrite length_app in Hi.
    destruct (Nat.lt_ge_cases i (length calls1)) as [Hlt | Hge];
      [now apply Hok1 |].
    replace (length (trace s1) + i)%nat
      with (length (trace s2) + (i - length calls1))%nat
      by (rewrite Ht1, length_app; lia).
    apply Hok2. lia.
  - rewrite length_app.
    replace (length (trace s1) + (length calls2 + length calls1))%nat
      with (length (trace s2) + length calls2)%nat
      by (rewrite Ht1, length_app; lia).
    exact Hraise.
Qed.

Lemma unguarded_ret (w : world) {A} (a : A) : unguarded w (ret a).
Proof. intros s. now apply calls_returned_refl. Qed.

Lemma unguarded_gets (w : world) {A} (f : state -> A) :
  unguarded w (gets f).
Proof. intros s. now apply calls_returned_refl. Qed.

Lemma unguarded_modify (w : world) (f : state -> state) :
  (forall s, trace (f s) = trace s) -> unguarded w (modify f).
Proof. intros Hf s. apply calls_returned_refl, Hf. Qed.

Lemma unguarded_bind (w : world) {A B} (m : M B) (k : B -> M A) :
  unguarded w m -> (forall b, unguarded w (k b)) -> unguarded w (bind m k).
Proof.
  intros Hm Hk s. specialize (Hm s). unfold eval, exec, bind in *.
  destruct (m s) as [[b|e] s1]; cbn [fst snd] in *; [| exact Hm].
  specialize (Hk b s1). unfold eval, exec in Hk.
  destruct (k b s1) as [[a|e] s2]; cbn [fst snd] in *.
  - now apply (calls_returned_trans w s s1 s2).
  - destruct Hk as [-> Hstop]. split; [reflexivity |].
    now apply (stopped_after_returned w s s1 s2).
Qed.

Lemma unguarded_call_unit (w : world) (c : call) :
  unguarded w (call_unit w c).
Proof.
  intros s. unfold eval, exec, call_unit, bind, ask.
  destruct (raises (w (length (trace s)))) eqn:Hraise; cbn [fst snd].
  - split; [reflexivity |]. exists c, []. state_simpl. cbn [app length].
    rewrite Nat.add_0_r. split; [reflexivity |]. split; [lia | exact Hraise].
  - exists [c]. state_simpl. split; [reflexivity |].
    intros [|i] Hi; [now rewrite Nat.add_0_r | cbn in Hi; lia].
Qed.

Lemma unguarded_call_bool (w : world) (c : call) :
  unguarded w (Strict.call_bool w c).
Proof.
  intros s. unfold eval, exec, Strict.call_bool, bind, ask.
  destruct (raises (w (length (trace s)))) eqn:Hraise; cbn [fst snd].
  - split; [reflexivity |]. exists c, []. state_simpl. cbn [app length].
    rewrite Nat.add_0_r. split; [reflexivity |]. split; [lia | exact Hraise].
  - exists [c]. state_simpl. split; [reflexivity |].
    intros [|i] Hi; [now rewrite Nat.add_0_r | cbn in Hi; lia].
Qed.

Lemma unguarded_wifi_wait (w : world) (remaining : nat) :
  unguarded w (Strict.wifi_wait w remaining).
Proof.
  induction remaining as [|k IH]; cbn [Strict.wifi_wait];
    (apply unguarded_bind; [apply unguarded_call_bool |]);
    intros [|]; auto using unguarded_ret.
Qed.

Lemma unguarded_connect_wifi (w : world) :
  unguarded w (Strict.connect_wifi w).
Proof.
  unfold Strict.connect_wifi, when, set_wifi.
  repeat first
    [ apply unguarded_ret
    | apply unguarded_gets
    | apply unguarded_call_unit
    | apply unguarded_call_bool
    | apply unguarded_wifi_wait
    | apply unguarded_modify; intros ?; reflexivity
    | apply unguarded_bind; [| intros ?]
    | match goal with
      | |- unguarded _ (if ?b then _ else _) => destruct b
      end ].
Qed.

Lemma strict_call_bool_run (w : world) (c : call) (s : state) :
  Strict.call_bool w c s
  = (if raises (w (length (trace s))) then Exc OSError
     else Val (as_bool (w (length (trace s)))),
     set_trace (c :: trace s) s).
Proof.
  unfold Strict.call_bool, bind, ask.
  now destruct (raises (w (length (trace s)))).
Qed.

(** The waiting loop polls between 1 and [remaining + 1] times and
    touches nothing but the trace. *)
Lemma strict_wifi_wait_run (w : world) (remaining : nat) (s : state) :
  exists polls r,
    (1 <= polls <= S remaining)%nat /\
    Strict.wifi_wait w remaining s
    = (r, set_trace (replicate polls WlanIsConnected ++ trace s) s).
Proof.
  revert s. induction remaining as [|k IH]; intros s.
  - exists 1%nat.
    change (Strict.wifi_wait w 0 s)
      with (bind (Strict.call_bool w WlanIsConnected)
              (fun c : bool => if c then ret tt else ret tt) s).
    unfold bind. rewrite strict_call_bool_run.
    destruct (raises (w (length (trace s))));
      [| destruct (as_bool (w (length (trace s))))];
      eexists; (split; [lia | reflexivity]).
  - change (Strict.wifi_wait w (S k) s)
      with (bind (Strict.call_bool w WlanIsConnected)
              (fun c : bool => if c then ret tt else Strict.wifi_wait w k)
              s).
    unfold bind. rewrite strict_call_bool_run.
    destruct (raises (w (length (trace s))));
      [exists 1%nat; eexists; split; [lia | reflexivity] |].
    destruct (as_bool (w (length (trace s))));
      [exists 1%nat; eexists; split; [lia | reflexivity] |].
    destruct (IH (set_trace (WlanIsConnected :: trace s) s))
      as (polls & r & Hrange & Hrun).
    exists (S polls), r. split; [lia |].
    rewrite Hrun. state_simpl. cbn [replicate].
    now rewrite replicate_app_cons.
Qed.

Lemma wp_strict_wifi_wait (w : world) (remaining : nat)
    (Q : result unit -> state -> Prop) (s : state) :
  (forall polls r, (1 <= polls <= S remaining)%nat ->
     Q r (set_trace (replicate polls WlanIsConnected ++ trace s) s)) ->
  wp (Strict.wifi_wait w remaining) Q s.
Proof.
  intros HQ.
  destruct (strict_wifi_wait_run w remaining s) as (polls & r & Hrange & Hrun).
  unfold wp, eval, exec. rewrite Hrun. now apply HQ.
Qed.

(** What [connect_wifi] does besides raising: the number of its calls,
    the flags, and the calls of a run that returns. *)
Lemma connect_wifi_calls (w : world) (s : state) :
  wp (Strict.connect_wifi w)
     (fun r s' =>
        (length (trace s') <= length (trace s) + 17)%nat /\
        mqtt (connection_status s') = mqtt (connection_status s) /\
        last_successful_publish (connection_status s')
        = last_successful_publish (connection_status s) /\
        match r with
        | Val connected =>
            wifi (connection_status s') = connected /\
            wlan s' = Some Handle /\
            exists polls,
              (1 <= polls <= 11)%nat /\
              let calls :=
                wifi_calls (not_none (wlan s))
                  (as_bool (w (length (trace s)
                     + (if not_none (wlan s) then 1 else 2))%nat))
                  polls in
              connected
              = as_bool (w (length (trace s) + length calls - 1)%nat) /\
              trace s'
              = rev (calls ++ (if connected then [WlanIfconfig] else []))
                ++ trace s
        | Exc _ => True
        end) s.
Proof.
  unfold Strict.connect_wifi, Strict.call_bool. wp_run.
  all: try (apply wp_strict_wifi_wait; intros polls r Hrange;
            destruct r; cbv beta iota; state_simpl; wp_run).
  all: destruct (wlan s) as [h|] eqn:Hwlan;
    try rewrite (handle_unique h) in *; cbn [not_none negb] in *;
    try discriminate.
  all: cbn [length] in *; rewrite ?Nat.add_1_r;
    replace (length (trace s) + 2)%nat with (S (S (length (trace s))))
      by lia.
  all: repeat match goal with
         | H : negb ?b = _ |- _ =>
             destruct b eqn:?; cbn [negb] in H; try discriminate H; clear H
         end.
  all: split;
    [rewrite ?length_app, ?length_replicate; cbn [length]; lia |].
  all: split; [reflexivity |]. all: split; [reflexivity |].
  all: try exact I.
  all: split; [reflexivity |]. all: split; [reflexivity |].
  all: first [exists polls | exists 1%nat]; (split; [lia |]).
  all: cbv zeta; cbn [wifi_calls app];
    rewrite ?length_app, ?length_replicate; cbn [length app].
  all: split.
  all: rewrite ?rev_app_distr; cbn [rev app];
    rewrite <- ?app_assoc; cbn [app length Nat.sub];
    rewrite ?Nat.sub_0_r, ?Nat.add_1_r.
  all: try reflexivity.
  all: rewrite ?length_app, ?length_replicate in *; cbn [length] in *.
  all: try (symmetry;
            match goal with
            | H : as_bool (_ ?i) = ?b |- as_bool (_ ?j) = ?b =>
                replace j with i by lia; exact H
            end).
  all: rewrite ?rev_app_distr, ?rev_replicate_same; cbn [rev app];
    rewrite <- ?app_assoc; cbn [app]; reflexivity.
Qed.

(** X7.  [connect_wifi] has no [try]: it returns exactly when every
    call it makes returns, and otherwise ends with the exception of the
    first call that raises, having made no call after it.  It never waits
    for ever: it makes at most 17 calls.  A run that returns has made the
    [wlan] object if there was none, activated it, asked once whether the
    link is up and, only if it was not, called [connect] once and polled
    between 1 and 11 times; it has then asked once more, stored that last
    answer in the [wifi] flag and returned it, after a call of [ifconfig]
    when the answer was "connected".  The [mqtt] flag and the publish
    stamp are never touched. *)
Theorem connect_wifi_bounded (w : world) (s : state) :
  let s' := exec (Strict.connect_wifi w) s in
  let n := length (trace s) in
  (length (trace s') <= n + 17)%nat /\
  mqtt (connection_status s') = mqtt (connection_status s) /\
  last_successful_publish (connection_status s')
  = last_successful_publish (connection_status s) /\
  match eval (Strict.connect_wifi w) s with
  | Val connected =>
      calls_returned w s s' /\
      wifi (connection_status s') = connected /\
      wlan s' = Some Handle /\
      exists polls,
        (1 <= polls <= 11)%nat /\
        let calls :=
          wifi_calls (not_none (wlan s))
            (as_bool (w (n + (if not_none (wlan s) then 1 else 2))%nat))
            polls in
        connected = as_bool (w (n + length calls - 1)%nat) /\
        trace s'
        = rev (calls ++ (if connected then [WlanIfconfig] else []))
          ++ trace s
  | Exc e => e = OSError /\ stopped_at_call w s s'
  end.
Proof.
  cbv zeta.
  pose proof (unguarded_connect_wifi w s) as Hrun.
  pose proof (connect_wifi_calls w s) as Hcalls. unfold wp in Hcalls.
  destruct Hcalls as (Hlen & Hmqtt & Hstamp & Hval).
  split; [exact Hlen |]. split; [exact Hmqtt |]. split; [exact Hstamp |].
  destruct (eval (Strict.connect_wifi w) s) as [connected|e];
    [| exact Hrun].
  destruct Hval as (Hflag & Hwlan & Hpolls).
  split; [exact Hrun |]. split; [exact Hflag |]. split; [exact Hwlan |].
  exact Hpolls.
Qed.

(** Both ends occur: with a WLAN that answers, the run from the initial
    state returns after four calls; when [wlan.active] raises, the run
    ends there. *)
Example connect_wifi_runs :
  Strict.connect_wifi world_quiet initial_state
  = (Val true,
     set_connection_status
       (with_wifi true (connection_status initial_state))
       (set_wlan (Some Handle)
          (set_trace
             [WlanIfconfig; WlanIsConnected; WlanIsConnected; WlanActive;
              WlanNew] initial_state))) /\
  Strict.connect_wifi (world_failing_at 1) initial_state
  = (Exc OSError,
     set_wlan (Some Handle)
       (set_trace [WlanActive; WlanNew] initial_state)).
Proof. split; vm_compute; reflexivity. Qed.

(** ** Connecting to the broker *)

(** X8.  [connect_mqtt] never raises.  It first disconnects an existing
    client (a failure of that is ignored), then connects and publishes
    one test message.  It returns [True] exactly when both the connect
    and the test publish return, and then the client object exists and
    the [mqtt] flag is set; otherwise the client global is [None] and the
    flag is clear.  The [wifi] flag and the publish stamp are not
    touched. *)
Theorem connect_mqtt_outcome (w : world) (s : state) :
  let s' := exec (connect_mqtt w) s in
  let n := length (trace s) in
  let had := not_none (mqtt_client s) in
  let base := if had then S n else n in
  let ok := negb (raises (w base)) && negb (raises (w (S base))) in
  eval (connect_mqtt w) s = Val ok /\
  mqtt_client s' = (if ok then Some Handle else None) /\
  mqtt (connection_status s') = ok /\
  wifi (connection_status s') = wifi (connection_status s) /\
  last_successful_publish (connection_status s')
  = last_successful_publish (connection_status s) /\
  trace s' = rev (mqtt_connect_calls had (raises (w base))) ++ trace s.
Proof.
  cbv zeta.
  change (wp (connect_mqtt w)
            (fun r s' =>
               let base := if not_none (mqtt_client s)
                           then S (length (trace s))
                           else length (trace s) in
               let ok := negb (raises (w base))
                         && negb (raises (w (S base))) in
               r = Val ok /\
               mqtt_client s' = (if ok then Some Handle else None) /\
               mqtt (connection_status s') = ok /\
               wifi (connection_status s') = wifi (connection_status s) /\
               last_successful_publish (connection_status s')
               = last_successful_publish (connection_status s) /\
               trace s'
               = rev (mqtt_connect_calls (not_none (mqtt_client s))
                        (raises (w base))) ++ trace s) s).
  unfold connect_mqtt. wp_run.
  all: cbv zeta; destruct (mqtt_client s) as [h|] eqn:Hclient;
    cbn [not_none] in *; try discriminate.
  all: cbn [length] in *;
    repeat match goal with
           | H : raises (_ (S _)) = _ |- _ => rewrite H; clear H
           end;
    repeat match goal with
           | H : raises _ = _ |- _ => rewrite ?H; clear H
           end.
  all: cbn [negb andb mqtt_connect_calls app rev]; repeat split.
Qed.

(** ** Discovery announcements *)

Lemma discovery_loop_run (w : world) (ids : list string) (s : state) :
  mqtt_client s <> None ->
  discovery_loop w ids s
  = (Val tt, set_trace (rev (config_call <$> ids) ++ trace s) s).
Proof.
  revert s. induction ids as [|id rest IH]; intros s Hclient.
  - cbn. unfold ret. f_equal. now destruct s.
  - cbn [discovery_loop]. unfold bind at 1, try_except, bind at 1, gets.
    destruct (mqtt_client s) as [h|] eqn:Hc; [| now destruct Hclient].
    cbn [not_none when]. unfold call_unit, bind at 1, ask.
    assert (Hnext : discovery_loop w rest
                      (set_trace (config_call id :: trace s) s)
                    = (Val tt,
                       set_trace (rev (config_call <$> id :: rest)
                                  ++ trace s) s)).
    { rewrite IH by (state_simpl; now rewrite Hc).
      state_simpl. cbn [fmap list_fmap rev]. now rewrite <- app_assoc. }
    destruct (raises (w (length (trace s)))); exact Hnext.
Qed.

(** X9.  [publish_discovery_config] never raises and changes nothing but
    the trace.  With the session down it makes no call.  With the session
    up it hands the discovery document of each of the five ids
    (humidity, temperature, lux, soil_moisture, status) to the transport
    with the retain flag, in that order and whatever the earlier publishes
    did: a failing discovery publish neither stops the others nor marks
    the session down. *)
Theorem discovery_announces_every_sensor (w : world) (s : state) :
  let s' := exec (publish_discovery_config w) s in
  eval (publish_discovery_config w) s = Val tt /\
  trace_only s s' /\
  trace s'
  = (if session_up s then rev (config_call <$> discovery_ids) else [])
    ++ trace s.
Proof.
  cbv zeta. unfold eval, exec, publish_discovery_config, is_mqtt_connected,
    bind, gets, trace_only.
  fold (session_up s). unfold session_up.
  destruct (mqtt_client s) as [h|] eqn:Hclient; cbn [not_none andb negb orb].
  - destruct (mqtt (connection_status s)); cbn [not_none andb negb orb].
    + rewrite discovery_loop_run by now rewrite Hclient.
      cbn [fst snd]. state_simpl. repeat split.
    + cbn [fst snd]. repeat split. now destruct s.
  - cbn [fst snd]. repeat split. now destruct s.
Qed.

(** ** The display *)

(** X10.  [update_oled] never raises and changes nothing but the trace.
    Without a display object it does nothing at all.  With one it issues
    the six display calls (fill, the four lines "Lux", "Temp", "Humidity",
    "Moisture" with their values or [None], show) in this order up to and
    including the first that raises, and none after it; when none raises
    the whole frame is drawn. *)
Theorem update_oled_tolerant (w : world) (temp hum lux moisture : option Q)
    (s : state) :
  let s' := exec (update_oled w temp hum lux moisture) s in
  let frame := oled_frame temp hum lux moisture in
  eval (update_oled w temp hum lux moisture) s = Val tt /\
  trace_only s s' /\
  trace s'
  = (if not_none (oled s) then rev (issued w (length (trace s)) frame)
     else []) ++ trace s /\
  (oled s = None -> s' = s) /\
  (oled s <> None ->
   (forall i, (i < 6)%nat -> raises (w (length (trace s) + i)%nat) = false) ->
   trace s' = rev frame ++ trace s).
Proof.
  cbv zeta.
  change (wp (update_oled w temp hum lux moisture)
            (fun r s' =>
               r = Val tt /\ trace_only s s' /\
               trace s'
               = (if not_none (oled s)
                  then rev (issued w (length (trace s))
                              (oled_frame temp hum lux moisture))
                  else []) ++ trace s /\
               (oled s = None -> s' = s) /\
               (oled s <> None ->
                (forall i, (i < 6)%nat ->
                   raises (w (length (trace s) + i)%nat) = false) ->
                trace s'
                = rev (oled_frame temp hum lux moisture) ++ trace s)) s).
  unfold update_oled. wp_run.
  all: unfold trace_only; state_simpl; cbn [length] in *.
  all: split; [reflexivity |]; split; [now destruct s |].
  all: split;
    [ cbn [oled_frame issued];
      repeat match goal with
        | H : raises _ = _ |- _ => rewrite H; clear H
        end;
      reflexivity |].
  all: split; [intros Hnone; congruence |].
  all: intros Hsome Hok; try reflexivity; try congruence.
  all: pose proof (Hok 0%nat ltac:(lia)); pose proof (Hok 1%nat ltac:(lia));
    pose proof (Hok 2%nat ltac:(lia)); pose proof (Hok 3%nat ltac:(lia));
    pose proof (Hok 4%nat ltac:(lia)); pose proof (Hok 5%nat ltac:(lia));
    rewrite ?Nat.add_succ_r, ?Nat.add_0_r in *; congruence.
Qed.

Lemma update_oled_tolerant_witness :
  let s := exec (program config_example world_quiet 0) initial_state in
  oled s <> None /\
  trace (exec (update_oled world_quiet (Some 21%Q) (Some 40%Q) None None) s)
  = rev (oled_frame (Some 21%Q) (Some 40%Q) None None) ++ trace s.
Proof.
  cbv zeta.
  assert (Holed : oled (exec (program config_example world_quiet 0)
                          initial_state) <> None)
    by (vm_compute; discriminate).
  split; [exact Holed |].
  apply (update_oled_tolerant world_quiet (Some 21%Q) (Some 40%Q) None None);
    [exact Holed | intros i Hi; reflexivity].
Defined.

(** ** Sensor set-up *)

Ltac init_block_solve :=
  wp_run; state_simpl; repeat split; reflexivity.

Lemma init_oled_effect (w : world) (s : state) :
  wp (init_oled w)
     (fun r s' =>
        r = Val tt /\
        sensor_status s' = <["oled" := not_none (oled s')]> (sensor_status s) /\
        light_sensor s' = light_sensor s /\
        dht_sensor s' = dht_sensor s /\
        soil_moisture_adc s' = soil_moisture_adc s /\
        failed_sensor_reads s' = failed_sensor_reads s /\
        connection_status s' = connection_status s) s.
Proof. unfold init_oled. init_block_solve. Qed.

Lemma init_bh1750_effect (w : world) (s : state) :
  wp (init_bh1750 w)
     (fun r s' =>
        r = Val tt /\
        sensor_status s'
        = <["bh1750" := not_none (light_sensor s')]> (sensor_status s) /\
        oled s' = oled s /\
        dht_sensor s' = dht_sensor s /\
        soil_moisture_adc s' = soil_moisture_adc s /\
        failed_sensor_reads s' = failed_sensor_reads s /\
        connection_status s' = connection_status s) s.
Proof. unfold init_bh1750. init_block_solve. Qed.

Lemma init_dht11_effect (w : world) (s : state) :
  wp (init_dht11 w)
     (fun r s' =>
        r = Val tt /\
        sensor_status s'
        = <["dht11" := not_none (dht_sensor s')]> (sensor_status s) /\
        oled s' = oled s /\
        light_sensor s' = light_sensor s /\
        soil_moisture_adc s' = soil_moisture_adc s /\
        failed_sensor_reads s' = failed_sensor_reads s /\
        connection_status s' = connection_status s) s.
Proof. unfold init_dht11. init_block_solve. Qed.

Lemma init_soil_moisture_effect (w : world) (s : state) :
  wp (init_soil_moisture w)
     (fun r s' =>
        r = Val tt /\
        sensor_status s'
        = <["soil_moisture" := not_none (soil_moisture_adc s')]>
            (sensor_status s) /\
        oled s' = oled s /\
        light_sensor s' = light_sensor s /\
        dht_sensor s' = dht_sensor s /\
        failed_sensor_reads s' = failed_sensor_reads s /\
        connection_status s' = connection_status s) s.
Proof. unfold init_soil_moisture. init_block_solve. Qed.

Lemma call_unit_run (w : world) (c : call) (s : state) :
  call_unit w c s
  = (if raises (w (length (trace s))) then Exc OSError else Val tt,
     set_trace (c :: trace s) s).
Proof.
  unfold call_unit, bind, ask. now destruct (raises (w (length (trace s)))).
Qed.

(** The four [try] blocks of [initialize_sensors] always return and
    leave every status flag in step with its driver global. *)
Lemma init_blocks_flags (w : world) (s : state) :
  wp (initialize_sensors w)
     (fun r s' =>
        r = Val tt /\
        sensor_status s' !! "oled" = Some (not_none (oled s')) /\
        sensor_status s' !! "bh1750" = Some (not_none (light_sensor s')) /\
        sensor_status s' !! "dht11" = Some (not_none (dht_sensor s')) /\
        sensor_status s' !! "soil_moisture"
        = Some (not_none (soil_moisture_adc s')) /\
        failed_sensor_reads s' = failed_sensor_reads s /\
        connection_status s' = connection_status s) s.
Proof.
  unfold initialize_sensors. apply wp_bind.
  eapply wp_mono; [apply init_oled_effect |]. cbv beta.
  intros r s1 (-> & Hs1 & Hl1 & Hd1 & Ha1 & Hf1 & Hc1).
  apply wp_bind.
  eapply wp_mono; [apply init_bh1750_effect |]. cbv beta.
  intros r s2 (-> & Hs2 & Ho2 & Hd2 & Ha2 & Hf2 & Hc2).
  apply wp_bind.
  eapply wp_mono; [apply init_dht11_effect |]. cbv beta.
  intros r s3 (-> & Hs3 & Ho3 & Hl3 & Ha3 & Hf3 & Hc3).
  eapply wp_mono; [apply init_soil_moisture_effect |]. cbv beta.
  intros r s4 (-> & Hs4 & Ho4 & Hl4 & Hd4 & Hf4 & Hc4).
  split; [reflexivity |].
  rewrite Hs4, Hs3, Hs2, Hs1.
  rewrite Ho4, Ho3, Ho2, Hl4, Hl3, Hd4.
  repeat split; try congruence; now simplify_map_eq.
Qed.

Lemma strict_initialize_sensors_run (w : world) (s : state) :
  Strict.initialize_sensors w s
  = if raises (w (length (trace s))) then
      (Exc OSError, set_trace (SoftI2CNew :: trace s) s)
    else if raises (w (S (length (trace s)))) then
      (Exc OSError, set_trace (I2cScan :: SoftI2CNew :: trace s) s)
    else initialize_sensors w (set_trace (I2cScan :: SoftI2CNew :: trace s) s).
Proof.
  change (Strict.initialize_sensors w)
    with (bind (call_unit w SoftI2CNew)
            (fun _ => bind (call_unit w I2cScan)
                        (fun _ => initialize_sensors w))).
  unfold bind. rewrite call_unit_run.
  destruct (raises (w (length (trace s)))); [reflexivity |].
  rewrite call_unit_run. state_simpl. cbn [length].
  now destruct (raises (w (S (length (trace s))))).
Qed.

(** X11.  [initialize_sensors] makes the I2C bus and scans it before its
    first [try]: if either of these two calls raises, the function ends
    with that exception and nothing has been initialised.  Otherwise it
    returns, whatever the four drivers do, and afterwards each of the
    four status flags ("oled", "bh1750", "dht11", "soil_moisture") says
    exactly whether the matching driver global is an object or [None].
    The failure counters and the connection flags are not touched. *)
Theorem initialize_sensors_flags_in_step (w : world) (s : state) :
  let n := length (trace s) in
  let s' := exec (Strict.initialize_sensors w) s in
  if raises (w n) then
    eval (Strict.initialize_sensors w) s = Exc OSError /\
    s' = set_trace (SoftI2CNew :: trace s) s
  else if raises (w (S n)) then
    eval (Strict.initialize_sensors w) s = Exc OSError /\
    s' = set_trace (I2cScan :: SoftI2CNew :: trace s) s
  else
    eval (Strict.initialize_sensors w) s = Val tt /\
    sensor_status s' !! "oled" = Some (not_none (oled s')) /\
    sensor_status s' !! "bh1750" = Some (not_none (light_sensor s')) /\
    sensor_status s' !! "dht11" = Some (not_none (dht_sensor s')) /\
    sensor_status s' !! "soil_moisture"
    = Some (not_none (soil_moisture_adc s')) /\
    failed_sensor_reads s' = failed_sensor_reads s /\
    connection_status s' = connection_status s.
Proof.
  cbv zeta. unfold eval, exec. rewrite strict_initialize_sensors_run.
  destruct (raises (w (length (trace s)))); [split; reflexivity |].
  destruct (raises (w (S (length (trace s))))); [split; reflexivity |].
  exact (init_blocks_flags w
           (set_trace (I2cScan :: SoftI2CNew :: trace s) s)).
Qed.

(** ** The keepalive at the top of the loop *)

(** X12.  The keepalive of a loop iteration never raises.  With the
    session down (no client object or the [mqtt] flag clear) it does
    nothing at all.  With the session up it makes exactly one [check_msg]
    call; if that call raises, the [mqtt] flag is cleared and nothing
    else happens: the [wifi] flag, the publish stamp and every other
    global keep their values, the client object is kept and no
    reconnection is attempted here. *)
Theorem keepalive_effect (w : world) (s : state) :
  let s' := exec (keepalive w) s in
  eval (keepalive w) s = Val tt /\
  if session_up s then
    s' = set_connection_status
           (with_mqtt (negb (raises (w (length (trace s)))))
              (connection_status s))
           (set_trace (MqttCheckMsg :: trace s) s)
  else s' = s.
Proof.
  cbv zeta.
  change (wp (keepalive w)
            (fun r s' =>
               r = Val tt /\
               if session_up s then
                 s' = set_connection_status
                        (with_mqtt (negb (raises (w (length (trace s)))))
                           (connection_status s))
                        (set_trace (MqttCheckMsg :: trace s) s)
               else s' = s) s).
  unfold keepalive, session_up. wp_run.
  all: destruct (mqtt_client s) as [h|] eqn:Hclient;
    destruct (mqtt (connection_status s)) eqn:Hflag;
    cbn [not_none andb] in *; try discriminate.
  all: split; [reflexivity |].
  all: try (match goal with H : raises _ = _ |- _ => rewrite H end).
  all: cbn [negb]; try reflexivity.
  all: destruct s as [? ? ? ? ? ? ? ? [? ? ?]]; cbn in *; subst;
    reflexivity.
Qed.

(** ** One round of sensor reads *)

Ltac new_calls :=
  first [ exists []; split; [reflexivity |]
        | eexists [_]; split; [reflexivity |]
        | eexists [_; _]; split; [reflexivity |]
        | eexists [_; _; _]; split; [reflexivity |]
        | eexists [_; _; _; _]; split; [reflexivity |]
        | eexists [_; _; _; _; _]; split; [reflexivity |] ].

Lemma keys_counters (s : state) :
  keys_present s ->
  exists c1 c2 c3,
    failed_sensor_reads s !! "dht11" = Some c1 /\
    failed_sensor_reads s !! "bh1750" = Some c2 /\
    failed_sensor_reads s !! "soil_moisture" = Some c3.
Proof.
  intros Hkeys.
  assert (H1 : "dht11" ∈ tracked) by (unfold tracked; rewrite !elem_of_cons; auto).
  assert (H2 : "bh1750" ∈ tracked) by (unfold tracked; rewrite !elem_of_cons; auto).
  assert (H3 : "soil_moisture" ∈ tracked) by (unfold tracked; rewrite !elem_of_cons; auto).
  pose proof (proj2 (Hkeys _ H1)) as Hc1.
  pose proof (proj2 (Hkeys _ H2)) as Hc2.
  pose proof (proj2 (Hkeys _ H3)) as Hc3.
  unfold is_Some in *.
  destruct Hc1 as [c1 Hc1], Hc2 as [c2 Hc2], Hc3 as [c3 Hc3].
  eauto 7.
Qed.

(** X13.  A failing sensor does not keep the others from being read: in
    one [read_sensors_once], every sensor whose driver object exists gets
    its read call (the DHT11 its [measure], the BH1750 its [luminance],
    the ADC its [read_u16]), whatever the reads before it did; at most
    five driver calls are made. *)
Theorem read_sensors_once_reads_every_sensor (cfg : config) (w : world)
    (s : state) (Hkeys : keys_present s) :
  let s' := exec (read_sensors_once cfg w) s in
  exists new,
    trace s' = new ++ trace s /\
    (length new <= 5)%nat /\
    (dht_sensor s <> None -> In DhtMeasure new) /\
    (light_sensor s <> None -> In Bh1750Luminance new) /\
    (soil_moisture_adc s <> None -> In AdcReadU16 new).
Proof.
  cbv zeta.
  change (wp (read_sensors_once cfg w)
            (fun _ s' =>
               exists new,
                 trace s' = new ++ trace s /\
                 (length new <= 5)%nat /\
                 (dht_sensor s <> None -> In DhtMeasure new) /\
                 (light_sensor s <> None -> In Bh1750Luminance new) /\
                 (soil_moisture_adc s <> None -> In AdcReadU16 new)) s).
  destruct (keys_counters s Hkeys) as (c1 & c2 & c3 & Hc1 & Hc2 & Hc3).
  unfold read_sensors_once, safe_sensor_read, read_dht, read_lux, read_soil.
  wp_run.
  all: try (exfalso; simplify_map_eq; fail).
  all: new_calls.
  all: split; [cbn [length]; lia |].
  all: repeat split; intros Hdriver; try congruence; cbn [In]; auto 8.
Qed.

Lemma read_sensors_once_reads_every_sensor_witness :
  let cfg := config_example in
  let w := world_failing_from 9 in
  let s := exec (program cfg w 1) initial_state in
  exists new,
    trace (exec (read_sensors_once cfg w) s) = new ++ trace s /\
    (length new <= 5)%nat /\
    (dht_sensor s <> None -> In DhtMeasure new) /\
    (light_sensor s <> None -> In Bh1750Luminance new) /\
    (soil_moisture_adc s <> None -> In AdcReadU16 new).
Proof.
  cbv zeta. apply read_sensors_once_reads_every_sensor. solve_keys.
Defined.

(** X14.  With sensor dictionaries that hold their keys,
    [read_sensors_once] can raise only [ZeroDivisionError], and only when
    the two calibration bounds are equal and the ADC exists; the
    exception comes from the percentage conversion, which is outside the
    guarded reads.  With equal bounds it never returns a moisture
    value. *)
Theorem read_sensors_once_raises_only_uncalibrated (cfg : config) (w : world)
    (s : state) (Hkeys : keys_present s) :
  match eval (read_sensors_once cfg w) s with
  | Exc e =>
      e = ZeroDivisionError /\
      SOIL_MOISTURE_DRY cfg = SOIL_MOISTURE_WET cfg /\
      soil_moisture_adc s <> None
  | Val (_, _, _, moisture) =>
      is_Some moisture ->
      SOIL_MOISTURE_DRY cfg <> SOIL_MOISTURE_WET cfg /\
      soil_moisture_adc s <> None
  end.
Proof.
  change (wp (read_sensors_once cfg w)
            (fun r _ =>
               match r with
               | Exc e =>
                   e = ZeroDivisionError /\
                   SOIL_MOISTURE_DRY cfg = SOIL_MOISTURE_WET cfg /\
                   soil_moisture_adc s <> None
               | Val (_, _, _, moisture) =>
                   is_Some moisture ->
                   SOIL_MOISTURE_DRY cfg <> SOIL_MOISTURE_WET cfg /\
                   soil_moisture_adc s <> None
               end) s).
  destruct (keys_counters s Hkeys) as (c1 & c2 & c3 & Hc1 & Hc2 & Hc3).
  unfold read_sensors_once, safe_sensor_read, read_dht, read_lux, read_soil.
  wp_run.
  all: try (exfalso; simplify_map_eq; fail).
  all: try (intros [p Hp]; discriminate Hp).
  all: unfold get_soil_moisture_percent in *.
  all: destruct (Z.eqb_spec
                   (SOIL_MOISTURE_DRY cfg - SOIL_MOISTURE_WET cfg) 0);
    try discriminate.
  all: try match goal with
         | H : Exc _ = Exc _ |- _ => injection H as <-
         end.
  all: try match goal with
         | |- is_Some _ -> _ => intros _
         end.
  all: repeat split; try lia; congruence.
Qed.

Lemma read_sensors_once_raises_only_uncalibrated_witness :
  let cfg := config_example in
  let w := world_quiet in
  let s := exec (program cfg w 1) initial_state in
  keys_present s /\
  match eval (read_sensors_once cfg w) s with
  | Exc e =>
      e = ZeroDivisionError /\
      SOIL_MOISTURE_DRY cfg = SOIL_MOISTURE_WET cfg /\
      soil_moisture_adc s <> None
  | Val (_, _, _, moisture) =>
      is_Some moisture ->
      SOIL_MOISTURE_DRY cfg <> SOIL_MOISTURE_WET cfg /\
      soil_moisture_adc s <> None
  end.
Proof.
  cbv zeta.
  assert (Hkeys : keys_present
                    (exec (program config_example world_quiet 1)
                       initial_state)) by solve_keys.
  split; [exact Hkeys |].
  exact (read_sensors_once_raises_only_uncalibrated
           config_example world_quiet _ Hkeys).
Defined.

(** ** Exceptions that leave the program *)

Lemma wp_then (P : state -> Prop) {A B} (m : M B) (k : B -> M A)
    (Q : result A -> state -> Prop) (s : state) :
  returns P m -> steps (keeping P) m -> P s ->
  (forall b s', P s' -> wp (k b) Q s') ->
  wp (bind m k) Q s.
Proof.
  intros Hret Hkeep Hs Hk. apply wp_bind.
  apply (wp_total P (keeping P)); auto.
Qed.

Section Escapes.

Variable cfg : config.
Variable w : world.

Lemma read_sensors_once_escapes (s : state) :
  inv s ->
  wp (read_sensors_once cfg w) (fun r _ => only_uncalibrated cfg r) s.
Proof.
  intros Hinv. unfold read_sensors_once.
  apply (wp_then inv);
    [ apply returns_safe_sensor_read;
      [apply tracked_dht11 | apply steps_read_dht]
    | keeps_side | exact Hinv |].
  intros r1 s1 H1. destruct (default (None, None) r1) as [temp hum].
  apply (wp_then inv);
    [ apply returns_safe_sensor_read;
      [apply tracked_bh1750 | apply steps_read_lux]
    | keeps_side | exact H1 |].
  intros r2 s2 H2.
  apply (wp_then inv);
    [ apply returns_safe_sensor_read;
      [apply tracked_soil_moisture | apply steps_read_soil]
    | keeps_side | exact H2 |].
  intros r3 s3 H3.
  destruct (mjoin r3) as [moisture_raw|]; [| exact I].
  unfold get_soil_moisture_percent.
  destruct (Z.eqb_spec (SOIL_MOISTURE_DRY cfg - SOIL_MOISTURE_WET cfg) 0);
    [| exact I].
  split; [reflexivity | lia].
Qed.

Lemma read_block_escapes (current_time : Z) (s : state) :
  inv s ->
  wp (read_block cfg w current_time)
     (fun r s' => inv s' /\ only_uncalibrated cfg r) s.
Proof.
  intros Hinv. split.
  { revert Hinv.
    unfold read_block. apply steps_bind;
      [typeclasses eauto | apply steps_gets; typeclasses eauto | intros last_read].
    unfold when. destruct (_ >=? _);
      [apply inv_steps_read_cycle | apply steps_ret; typeclasses eauto]. }
  change (wp (read_block cfg w current_time)
            (fun r _ => only_uncalibrated cfg r) s).
  unfold read_block. apply wp_bind, wp_gets. cbv beta iota.
  unfold when. destruct (_ >=? _); [| exact I].
  unfold read_cycle. apply wp_bind.
  eapply wp_mono; [apply read_sensors_once_escapes, Hinv |].
  cbv beta. intros [readings|e] s1 Hout; [| exact Hout].
  apply wp_bind.
  apply (wp_total anywhere (keeping anywhere));
    [auto 1 with returns nocore | apply steps_anywhere | exact I |].
  intros [] s2 _. exact I.
Qed.

Lemma contained_returns {A} (m : M A) :
  returns inv m -> contained cfg w m.
Proof.
  intros Hret s Hinv. destruct (Hret s Hinv) as [a Ha]. now rewrite Ha.
Qed.

Lemma contained_bind {A B} (m : M B) (k : B -> M A) :
  contained cfg w m -> steps (keeping inv) m ->
  (forall b, contained cfg w (k b)) ->
  contained cfg w (bind m k).
Proof.
  intros Hm Hkeep Hk s Hinv.
  specialize (Hm s Hinv). specialize (Hkeep s Hinv).
  unfold eval, exec, bind in *.
  destruct (m s) as [[b|e] s1]; cbn [fst snd] in *; [| exact Hm].
  exact (Hk b s1 Hkeep).
Qed.

Lemma contained_call_unit (c : call) :
  is_unguarded c = true -> contained cfg w (call_unit w c).
Proof.
  intros Hc s _. unfold eval, exec. rewrite call_unit_run. cbn [fst snd].
  destruct (raises (w (length (trace s)))) eqn:Hraise; [| exact I].
  right. split; [reflexivity |]. exists c, (trace s). now state_simpl.
Qed.

Lemma contained_call_bool (c : call) :
  is_unguarded c = true -> contained cfg w (Strict.call_bool w c).
Proof.
  intros Hc s _. unfold eval, exec. rewrite strict_call_bool_run.
  cbn [fst snd].
  destruct (raises (w (length (trace s)))) eqn:Hraise; [| exact I].
  right. split; [reflexivity |]. exists c, (trace s). now state_simpl.
Qed.

Lemma contained_read_block (current_time : Z) :
  contained cfg w (read_block cfg w current_time).
Proof.
  intros s Hinv.
  destruct (read_block_escapes current_time s Hinv) as [_ Hout].
  destruct (eval (read_block cfg w current_time) s) as [a|e]; [exact I |].
  left. exact Hout.
Qed.

(** The functions of [Strict] keep the invariant: they differ from the
    ones above only in calls. *)
Lemma quiet_strict_call_bool (c : call) :
  steps quiet (Strict.call_bool w c).
Proof. unfold Strict.call_bool. steps_go quiet_leaf. Qed.
#[local] Hint Resolve quiet_strict_call_bool : steps.

Lemma quiet_strict_wifi_wait (remaining : nat) :
  steps quiet (Strict.wifi_wait w remaining).
Proof.
  induction remaining as [|k IH]; cbn [Strict.wifi_wait];
    steps_go quiet_leaf.
Qed.
#[local] Hint Resolve quiet_strict_wifi_wait : steps.

Lemma quiet_strict_connect_wifi : steps quiet (Strict.connect_wifi w).
Proof. unfold Strict.connect_wifi. steps_go quiet_leaf. Qed.
#[local] Hint Resolve quiet_strict_connect_wifi : steps.

Lemma quiet_strict_check_wifi : steps quiet (Strict.check_wifi w).
Proof. unfold Strict.check_wifi. steps_go quiet_leaf. Qed.
#[local] Hint Resolve quiet_strict_check_wifi : steps.

Lemma quiet_strict_check_connections :
  steps quiet (Strict.check_connections w).
Proof. unfold Strict.check_connections. steps_go quiet_leaf. Qed.
#[local] Hint Resolve quiet_strict_check_connections : steps.

Lemma quiet_strict_connection_block (current_time : Z) :
  steps quiet (Strict.connection_block w current_time).
Proof. unfold Strict.connection_block. steps_go quiet_leaf. Qed.

Lemma quiet_strict_gc_block (current_time : Z) :
  steps quiet (Strict.gc_block w current_time).
Proof. unfold Strict.gc_block, Strict.force_gc. steps_go quiet_leaf. Qed.

Lemma quiet_strict_startup : steps quiet (Strict.startup w).
Proof. unfold Strict.startup. steps_go quiet_leaf. Qed.

#[local] Hint Resolve quiet_strict_connection_block quiet_strict_gc_block
  quiet_strict_startup : steps.

Ltac quiet_side :=
  apply steps_quiet_inv;
  first [ solve [auto 1 with steps nocore]
        | unfold when; solve [steps_go quiet_leaf] ].

Ltac contained_leaf :=
  first
    [ assumption
    | apply contained_call_unit; reflexivity
    | apply contained_call_bool; reflexivity
    | apply contained_returns;
      first [ apply returns_ret | apply returns_gets | apply returns_modify
            | apply returns_check_mqtt
            | apply returns_publish_device_status
            | solve [auto 2 with returns nocore] ] ].

Ltac contained_go :=
  repeat first
    [ contained_leaf
    | apply contained_bind; [ | quiet_side | intros ?]
    | match goal with
      | |- contained _ _ (if ?b then _ else _) => destruct b
      | |- contained _ _ (match ?x with _ => _ end) => destruct x
      | |- contained _ _ (when ?b _) => unfold when
      end ].

Lemma contained_wifi_wait (remaining : nat) :
  contained cfg w (Strict.wifi_wait w remaining).
Proof.
  induction remaining as [|k IH]; cbn [Strict.wifi_wait]; contained_go.
Qed.

Lemma contained_connect_wifi : contained cfg w (Strict.connect_wifi w).
Proof.
  unfold Strict.connect_wifi. pose proof contained_wifi_wait as Hwait.
  contained_go; apply Hwait.
Qed.

Lemma contained_check_wifi : contained cfg w (Strict.check_wifi w).
Proof.
  unfold Strict.check_wifi. pose proof contained_connect_wifi as Hwifi.
  contained_go.
Qed.

Lemma contained_check_connections :
  contained cfg w (Strict.check_connections w).
Proof.
  unfold Strict.check_connections. pose proof contained_check_wifi as Hwifi.
  contained_go.
Qed.

Lemma contained_connection_block (current_time : Z) :
  contained cfg w (Strict.connection_block w current_time).
Proof.
  unfold Strict.connection_block.
  pose proof contained_check_connections as Hcheck.
  contained_go.
Qed.

Lemma contained_gc_block (current_time : Z) :
  contained cfg w (Strict.gc_block w current_time).
Proof. unfold Strict.gc_block, Strict.force_gc. contained_go. Qed.

Lemma contained_startup : contained cfg w (Strict.startup w).
Proof.
  unfold Strict.startup. pose proof contained_connect_wifi as Hwifi.
  contained_go.
Qed.

Lemma inv_steps_status_block (current_time : Z) :
  steps (keeping inv) (status_block cfg w current_time).
Proof. apply steps_quiet_inv. unfold status_block. steps_go quiet_leaf. Qed.

Lemma inv_steps_read_block (current_time : Z) :
  steps (keeping inv) (read_block cfg w current_time).
Proof.
  unfold read_block. apply steps_bind;
    [typeclasses eauto | apply steps_gets; typeclasses eauto | intros ?].
  unfold when. destruct (_ >=? _);
    [apply inv_steps_read_cycle | apply steps_ret; typeclasses eauto].
Qed.

Lemma inv_steps_publish_block (current_time : Z) :
  steps (keeping inv) (publish_block cfg w current_time).
Proof.
  unfold publish_block. apply steps_bind;
    [typeclasses eauto | apply steps_gets; typeclasses eauto | intros ?].
  unfold when. destruct (_ >=? _);
    [apply inv_steps_publish_cycle | apply steps_ret; typeclasses eauto].
Qed.

Lemma returns_inv_publish_block (current_time : Z) :
  returns inv (publish_block cfg w current_time).
Proof.
  unfold publish_block, when.
  apply returns_bind; [apply returns_gets | apply steps_gets; typeclasses eauto |].
  intros last_publish. destruct (_ >=? _); [| apply returns_ret].
  apply returns_anywhere, returns_publish_cycle.
Qed.

Lemma contained_tick : contained cfg w (Strict.tick cfg w).
Proof.
  unfold Strict.tick.
  apply contained_bind;
    [ apply contained_returns, returns_anywhere, returns_time_time
    | apply steps_quiet_inv, steps_time_time | intros current_time ].
  apply contained_bind;
    [ apply contained_returns, returns_anywhere, returns_keepalive
    | apply steps_quiet_inv, steps_keepalive | intros _ ].
  apply contained_bind;
    [ apply contained_gc_block
    | apply steps_quiet_inv, quiet_strict_gc_block | intros _ ].
  apply contained_bind;
    [ apply contained_connection_block
    | apply steps_quiet_inv, quiet_strict_connection_block | intros _ ].
  apply contained_bind;
    [ apply contained_returns, returns_status_block
    | apply inv_steps_status_block | intros _ ].
  apply contained_bind;
    [ apply contained_read_block | apply inv_steps_read_block | intros _ ].
  apply contained_returns, returns_inv_publish_block.
Qed.

Lemma inv_steps_strict_tick : steps (keeping inv) (Strict.tick cfg w).
Proof.
  unfold Strict.tick.
  apply steps_bind;
    [typeclasses eauto | apply steps_quiet_inv, steps_time_time | intros ?].
  apply steps_bind;
    [typeclasses eauto | apply steps_quiet_inv, steps_keepalive | intros _].
  apply steps_bind;
    [typeclasses eauto | apply steps_quiet_inv, quiet_strict_gc_block
    | intros _].
  apply steps_bind;
    [typeclasses eauto
    | apply steps_quiet_inv, quiet_strict_connection_block | intros _].
  apply steps_bind;
    [typeclasses eauto | apply inv_steps_status_block | intros _].
  apply steps_bind;
    [typeclasses eauto | apply inv_steps_read_block | intros _].
  apply inv_steps_publish_block.
Qed.

Lemma contained_ticks (n : nat) : contained cfg w (Strict.ticks cfg w n).
Proof.
  induction n as [|k IH]; cbn [Strict.ticks];
    [apply contained_returns, returns_ret |].
  apply contained_bind;
    [apply contained_tick | apply inv_steps_strict_tick | intros _; exact IH].
Qed.

End Escapes.

Lemma fresh_inv_set_trace (calls : list call) (s : state) :
  fresh_inv s -> fresh_inv (set_trace calls s).
Proof. now destruct s. Qed.

(** X15.  Whatever the hardware and the network do and however long the
    loop runs, the program can end in two ways only: with the
    [ZeroDivisionError] of the percentage conversion, which needs a
    configuration whose dry and wet bounds are equal, or with the
    exception of a call made outside any [try] (the I2C bus, the WLAN
    object, the garbage collector), which is then the last call made.
    No failure of a sensor, of the display or of the MQTT client ends
    the program. *)
Theorem program_ends_only_two_ways (cfg : config) (w : world) (n : nat) :
  let s' := exec (Strict.program cfg w n) initial_state in
  match eval (Strict.program cfg w n) initial_state with
  | Val _ => True
  | Exc e =>
      (e = ZeroDivisionError
       /\ SOIL_MOISTURE_DRY cfg = SOIL_MOISTURE_WET cfg)
      \/ (e = OSError
          /\ exists c rest,
               trace s' = c :: rest /\
               is_unguarded c = true /\
               raises (w (length rest)) = true)
  end.
Proof.
  cbv zeta.
  change (ends_ok cfg w (eval (Strict.program cfg w n) initial_state)
            (exec (Strict.program cfg w n) initial_state)).
  unfold Strict.program, eval, exec, bind.
  rewrite strict_initialize_sensors_run.
  destruct (raises (w (length (trace initial_state)))) eqn:Hbus;
    [right; split; [reflexivity |];
     exists SoftI2CNew, (trace initial_state); now state_simpl |].
  destruct (raises (w (S (length (trace initial_state))))) eqn:Hscan;
    [right; split; [reflexivity |];
     exists I2cScan, (SoftI2CNew :: trace initial_state); now state_simpl |].
  set (s0 := set_trace (I2cScan :: SoftI2CNew :: trace initial_state)
               initial_state).
  assert (Hfresh : fresh_inv s0)
    by apply fresh_inv_set_trace, fresh_inv_initial.
  destruct (returns_initialize_sensors w s0 I) as [[] Hval1].
  pose proof (steps_initialize_sensors w s0 Hfresh) as [Hinv1 _].
  unfold eval, exec in *.
  destruct (initialize_sensors w s0) as [r s1].
  cbn [fst snd] in *. subst r.
  assert (Hrest : contained cfg w
            (bind (Strict.startup w) (fun _ => Strict.ticks cfg w n))).
  { apply contained_bind;
      [ apply contained_startup
      | apply steps_quiet_inv, quiet_strict_startup
      | intros _; apply contained_ticks ]. }
  exact (Hrest s1 Hinv1).
Qed.

(** Both ends occur: with equal bounds and hardware that answers every
    call, the first loop iteration ends the program; and so does a scan
    of the bus that raises. *)
Example program_stops :
  eval (Strict.program config_flat world_quiet 1) initial_state
  = Exc ZeroDivisionError /\
  eval (Strict.program config_example (world_failing_at 1) 1) initial_state
  = Exc OSError /\
  eval (Strict.program config_example world_quiet 3) initial_state = Val tt.
Proof. repeat split; vm_compute; reflexivity. Qed.

(** ** The range of what the moisture window holds *)

Lemma soil_percent_bounds (raw dry wet : Z) :
  wet < dry ->
  exists p, get_soil_moisture_percent raw dry wet = Val p /\ 0 <= p <= 100.
Proof.
  intros Hcal. eexists. split; [apply soil_percent_value; lia |].
  set (r := Z.max (Z.min raw dry) wet).
  assert (wet <= r <= dry) by lia.
  rewrite Z.quot_div_nonneg by nia.
  split; [apply Z.div_pos; nia | apply Z.div_le_upper_bound; nia].
Qed.

Lemma percent_in_range (p : Z) : 0 <= p <= 100 -> in_percent_range (inject_Z p).
Proof.
  intros [Hlo Hhi]. unfold in_percent_range.
  change 0%Q with (inject_Z 0). change 100%Q with (inject_Z 100).
  now rewrite <- !Zle_Qle.
Qed.

Lemma mean_of_percentages (window : list Q) (m : Q) :
  Forall in_percent_range window ->
  mean_or_none window = Some m ->
  in_percent_range m.
Proof.
  intros Hrange Hmean. unfold in_percent_range in *.
  destruct window as [|x l]; [discriminate Hmean |].
  injection Hmean as <-.
  destruct (sum_between _ 0 100 Hrange) as [Hlo Hhi].
  assert (Hn : (0 < inject_Z (Z.of_nat (length (x :: l))))%Q).
  { change 0%Q with (inject_Z 0). rewrite <- Zlt_Qlt. cbn. lia. }
  rewrite py_sum_fold_right. split.
  - apply Qle_shift_div_l; [exact Hn |]. now rewrite Qmult_comm.
  - apply Qle_shift_div_r; [exact Hn |]. now rewrite Qmult_comm.
Qed.

Lemma quiet_keeps_range (s s' : state) :
  quiet s s' -> keeping moisture_in_range s s'.
Proof.
  intros (_ & (_ & _ & _ & Hm & _) & _). unfold keeping, moisture_in_range.
  now rewrite Hm.
Qed.

Lemma range_steps_quiet {A} (m : M A) :
  steps quiet m -> steps (keeping moisture_in_range) m.
Proof. apply steps_weaken, quiet_keeps_range. Qed.

Section Range.

Variable cfg : config.
Variable w : world.
Hypothesis Hcal : SOIL_MOISTURE_WET cfg < SOIL_MOISTURE_DRY cfg.

Lemma read_sensors_once_range (s : state) :
  wp (read_sensors_once cfg w)
     (fun r s' =>
        moisture_readings s' = moisture_readings s /\
        match r with
        | Val (_, _, _, Some p) => 0 <= p <= 100
        | _ => True
        end) s.
Proof.
  split.
  { destruct (steps_read_sensors_once cfg w s) as [_ Hsame].
    now destruct Hsame as (_ & _ & _ & Hm & _). }
  change (wp (read_sensors_once cfg w)
            (fun r _ => match r with
                        | Val (_, _, _, Some p) => 0 <= p <= 100
                        | _ => True
                        end) s).
  unfold read_sensors_once. apply wp_bind.
  apply (wp_of_steps (fun _ _ => True)); [intros ?; exact I |].
  intros [r|e] s1 _; [| exact I].
  destruct (default (None, None) r) as [temp hum].
  apply wp_bind. apply (wp_of_steps (fun _ _ => True)); [intros ?; exact I |].
  intros [l|e] s2 _; [| exact I].
  apply wp_bind. apply (wp_of_steps (fun _ _ => True)); [intros ?; exact I |].
  intros [m|e] s3 _; [| exact I].
  destruct (mjoin m) as [moisture_raw|]; [| exact I].
  destruct (soil_percent_bounds moisture_raw _ _ Hcal) as (p & Hp & Hrange).
  apply wp_bind. rewrite Hp. exact Hrange.
Qed.

Lemma range_steps_read_block (current_time : Z) :
  steps (keeping moisture_in_range) (read_block cfg w current_time).
Proof.
  intros s.
  change (wp (read_block cfg w current_time)
            (fun _ s' => keeping moisture_in_range s s') s).
  unfold read_block. apply wp_bind, wp_gets. cbv beta iota.
  unfold when. destruct (_ >=? _); [| apply wp_ret; now intros ?].
  unfold read_cycle. apply wp_bind.
  eapply wp_mono; [apply read_sensors_once_range |].
  cbv beta. intros [[[[temp hum] lux] moisture]|e] s1 [Hm Hrange];
    [| unfold keeping, moisture_in_range; now rewrite Hm].
  unfold store_readings. wp_run.
  all: unfold keeping, moisture_in_range; state_simpl; rewrite ?Hm;
    intros Hold; try assumption.
  all: apply Forall_app; split; [assumption |].
  all: destruct moisture as [p|]; cbn [not_none] in *; try discriminate.
  all: cbn [fmap option_fmap option_map option_list].
  all: repeat constructor; now apply percent_in_range.
Qed.

Lemma range_steps_publish_block (current_time : Z) :
  steps (keeping moisture_in_range) (publish_block cfg w current_time).
Proof.
  intros s.
  change (wp (publish_block cfg w current_time)
            (fun _ s' => keeping moisture_in_range s s') s).
  unfold publish_block. apply wp_bind, wp_gets. cbv beta iota.
  unfold when. destruct (_ >=? _); [| apply wp_ret; now intros ?].
  destruct (publish_cycle_effect w current_time s) as (_ & Hempty & _).
  unfold wp, keeping, moisture_in_range. intros _.
  unfold windows_empty, windows_of in Hempty.
  apply Forall_cons in Hempty as [_ Hempty].
  apply Forall_cons in Hempty as [_ Hempty].
  apply Forall_cons in Hempty as [_ Hempty].
  apply Forall_cons in Hempty as [Hm _].
  rewrite Hm. constructor.
Qed.

Lemma range_steps_tick : steps (keeping moisture_in_range) (tick cfg w).
Proof.
  unfold tick.
  apply steps_bind;
    [typeclasses eauto | apply range_steps_quiet, steps_time_time
    | intros current_time].
  apply steps_bind;
    [typeclasses eauto | apply range_steps_quiet, steps_keepalive | intros _].
  apply steps_bind;
    [typeclasses eauto | apply range_steps_quiet, steps_gc_block | intros _].
  apply steps_bind;
    [typeclasses eauto | apply range_steps_quiet, steps_connection_block
    | intros _].
  apply steps_bind;
    [typeclasses eauto
    | apply range_steps_quiet; unfold status_block; steps_go quiet_leaf
    | intros _].
  apply steps_bind;
    [typeclasses eauto | apply range_steps_read_block | intros _].
  apply range_steps_publish_block.
Qed.

Lemma range_steps_ticks (n : nat) :
  steps (keeping moisture_in_range) (ticks cfg w n).
Proof.
  induction n as [|k IH]; cbn [ticks]; [apply steps_ret; typeclasses eauto |].
  apply steps_bind; [typeclasses eauto | apply range_steps_tick | auto].
Qed.

Lemma range_program (n : nat) :
  moisture_in_range (exec (program cfg w n) initial_state).
Proof.
  assert (Hsteps : steps (keeping moisture_in_range) (program cfg w n)).
  { unfold program.
    apply steps_bind; [typeclasses eauto | | intros ?].
    - apply (steps_weaken same_windows); [| apply frame_initialize_sensors].
      intros s s' (_ & _ & _ & Hm & _). unfold keeping, moisture_in_range.
      now rewrite Hm.
    - apply steps_bind; [typeclasses eauto | | intros ?].
      + apply range_steps_quiet, steps_startup.
      + apply range_steps_ticks. }
  apply Hsteps. constructor.
Qed.

End Range.

(** X16.  With calibration bounds [wet < dry], in every state the program
    reaches the soil-moisture window holds only percentages (values
    between 0 and 100), and so does the average the publish cycle would
    compute from it. *)
Theorem moisture_window_holds_percentages (cfg : config) (w : world)
    (n : nat) (Hcal : SOIL_MOISTURE_WET cfg < SOIL_MOISTURE_DRY cfg) :
  let s := exec (program cfg w n) initial_state in
  Forall in_percent_range (moisture_readings s) /\
  forall avg_moisture,
    mean_or_none (moisture_readings s) = Some avg_moisture ->
    in_percent_range avg_moisture.
Proof.
  cbv zeta. pose proof (range_program cfg w Hcal n) as Hrange.
  split; [exact Hrange |].
  intros avg_moisture Hmean.
  exact (mean_of_percentages _ avg_moisture Hrange Hmean).
Qed.

Lemma moisture_window_holds_percentages_witness :
  let s := exec (program config_example world_slow 2) initial_state in
  SOIL_MOISTURE_WET config_example < SOIL_MOISTURE_DRY config_example /\
  moisture_readings s <> [] /\
  Forall in_percent_range (moisture_readings s).
Proof.
  cbv zeta.
  assert (Hcal : SOIL_MOISTURE_WET config_example
                 < SOIL_MOISTURE_DRY config_example) by reflexivity.
  split; [exact Hcal |].
  split; [intros Hempty; vm_compute in Hempty; discriminate Hempty |].
  exact (proj1 (moisture_window_holds_percentages
                  config_example world_slow 2 Hcal)).
Defined.

(** ** The stamp of the last successful publish *)

Lemma update_oled_only_trace (w : world) (temp hum lux moisture : option Q)
    (s : state) :
  eval (update_oled w temp hum lux moisture) s = Val tt /\
  trace_only s (exec (update_oled w temp hum lux moisture) s).
Proof.
  change (wp (update_oled w temp hum lux moisture)
            (fun r s' => r = Val tt /\ trace_only s s') s).
  unfold update_oled. wp_run.
  all: unfold trace_only; state_simpl; split; [reflexivity |].
  all: now destruct s.
Qed.

Lemma failure_needs_attempt (w : world) (n : nat)
    (items : list (string * Q)) :
  Z.b2z (any_failure w n items) <= Z.of_nat (length (attempts w n items)).
Proof.
  revert n. induction items as [|item rest IH]; intros n; [reflexivity |].
  cbn [any_failure attempts].
  destruct (raises (w n)); cbn [orb length]; [cbn; lia |].
  specialize (IH (S n)). lia.
Qed.

Lemma delivered_count (w : world) (n : nat) (items : list (string * Q)) :
  (Z.of_nat (length (attempts w n items))
   - Z.b2z (any_failure w n items) >? 0)
  = match items with
    | [] => false
    | _ :: _ => negb (raises (w n))
    end.
Proof.
  destruct items as [|item rest]; [reflexivity |].
  cbn [any_failure attempts].
  destruct (raises (w n)); cbn [orb negb length]; [reflexivity |].
  pose proof (failure_needs_attempt w (S n) rest).
  apply Z.gtb_lt. lia.
Qed.

(** X17.  A publish cycle at clock value [current_time] stamps
    [last_successful_publish] exactly when at least one reading was
    delivered: the session is up, at least one window is not empty, and
    the first transport publish returns.  Otherwise the stamp keeps its
    old value; in particular a cycle with four empty windows does not
    refresh it although nothing failed.  With the session down no
    transport call is made at all.  The [wifi] flag is never touched. *)
Theorem publish_cycle_stamp (w : world) (current_time : Z) (s : state) :
  let '(avg_temp, avg_hum, avg_lux, avg_moisture) := averages s in
  let s1 := exec (update_oled w avg_temp avg_hum avg_lux avg_moisture) s in
  let s' := exec (publish_cycle w current_time) s in
  let delivered :=
    session_up s &&
    match present (batch avg_temp avg_hum avg_lux avg_moisture) with
    | [] => false
    | _ :: _ => negb (raises (w (length (trace s1))))
    end in
  last_successful_publish (connection_status s')
  = (if delivered then current_time
     else last_successful_publish (connection_status s)) /\
  wifi (connection_status s') = wifi (connection_status s) /\
  if session_up s then True else trace s' = trace s1.
Proof.
  destruct (averages s) as [[[avg_temp avg_hum] avg_lux] avg_moisture]
    eqn:Havg.
  cbv zeta.
  set (s1 := exec (update_oled w avg_temp avg_hum avg_lux avg_moisture) s).
  change (wp (publish_cycle w current_time)
            (fun _ s' =>
               last_successful_publish (connection_status s')
               = (if session_up s &&
                     match present (batch avg_temp avg_hum avg_lux
                                      avg_moisture) with
                     | [] => false
                     | _ :: _ => negb (raises (w (length (trace s1))))
                     end
                  then current_time
                  else last_successful_publish (connection_status s)) /\
               wifi (connection_status s') = wifi (connection_status s) /\
               if session_up s then True else trace s' = trace s1) s).
  unfold publish_cycle. apply wp_bind, wp_gets. rewrite Havg.
  cbv beta iota. apply wp_bind. unfold wp at 1.
  destruct (update_oled_only_trace w avg_temp avg_hum avg_lux avg_moisture s)
    as [Hval Honly].
  rewrite Hval. fold s1 in Honly |- *. unfold trace_only in Honly.
  assert (Hconn : connection_status s1 = connection_status s)
    by now rewrite Honly.
  assert (Hup : session_up s1 = session_up s)
    by (unfold session_up; now rewrite Honly).
  apply wp_bind. unfold wp at 1, eval, exec.
  rewrite publish_sensor_data_run, Hup.
  destruct (session_up s) eqn:Hs; cbn [andb].
  - rewrite publish_loop_run by now rewrite Hup.
    cbv zeta. fold (batch avg_temp avg_hum avg_lux avg_moisture).
    rewrite <- (delivered_count w (length (trace s1))).
    destruct (any_failure w _ _); cbn [fst snd Z.b2z];
      rewrite ?Z.sub_0_r, ?Z.add_0_l;
      unfold clear_readings; wp_run; rewrite ?Hconn; repeat split.
  - cbn [fst snd]. unfold clear_readings. wp_run; [discriminate |].
    rewrite Hconn. repeat split.
Qed.

(** ** A lost client object is never replaced by the loop *)

#[local] Instance offline_preorder : PreOrder offline.
Proof.
  split; unfold offline.
  - intros s Hnone. now split.
  - intros s1 s2 s3 H12 H23 Hnone.
    destruct (H12 Hnone) as [Hnone2 Hcalls2].
    destruct (H23 Hnone2) as [Hnone3 Hcalls3].
    split; [exact Hnone3 | congruence].
Qed.

Ltac offline_leaf :=
  idtac;
  let s := fresh "s" in
  let Hnone := fresh "Hnone" in
  intros s; unfold offline, mqtt_calls; state_simpl; intros Hnone;
  split; [exact Hnone | reflexivity].

(** Proves [offline] for a function that tests the client object before
    it uses it. *)
Ltac offline_guarded :=
  let s := fresh "s" in
  let Hnone := fresh "Hnone" in
  intros s Hnone;
  match goal with
  | |- context [exec ?m s] =>
      change (wp m (fun _ s' => mqtt_client s' = None
                                /\ mqtt_calls s' = mqtt_calls s) s)
  end.

Section Offline.

Variable cfg : config.
Variable w : world.

Lemma offline_ask (c : call) :
  is_mqtt_call c = false -> steps offline (ask w c).
Proof.
  intros Hc s Hnone. unfold exec, ask, mqtt_calls. cbn [snd]. state_simpl.
  split; [exact Hnone |]. cbn [List.filter]. now rewrite Hc.
Qed.

Lemma offline_call_unit (c : call) :
  is_mqtt_call c = false -> steps offline (call_unit w c).
Proof.
  intros Hc. unfold call_unit.
  apply steps_bind; [typeclasses eauto | now apply offline_ask | intros r].
  steps_go offline_leaf.
Qed.

Lemma offline_call_num (c : call) :
  is_mqtt_call c = false -> steps offline (call_num w c).
Proof.
  intros Hc. unfold call_num.
  apply steps_bind; [typeclasses eauto | now apply offline_ask | intros r].
  steps_go offline_leaf.
Qed.

Lemma offline_call_int (c : call) :
  is_mqtt_call c = false -> steps offline (call_int w c).
Proof.
  intros Hc. unfold call_int.
  apply steps_bind; [typeclasses eauto | now apply offline_ask | intros r].
  steps_go offline_leaf.
Qed.

Lemma offline_call_pure (c : call) :
  is_mqtt_call c = false -> steps offline (call_pure w c).
Proof.
  intros Hc. unfold call_pure.
  apply steps_bind; [typeclasses eauto | now apply offline_ask | intros r].
  steps_go offline_leaf.
Qed.

Lemma offline_call_bool (c : call) :
  is_mqtt_call c = false -> steps offline (call_bool w c).
Proof.
  intros Hc. unfold call_bool.
  apply steps_bind; [typeclasses eauto | now apply offline_ask | intros r].
  steps_go offline_leaf.
Qed.

Lemma offline_time_time : steps offline (time_time w).
Proof.
  unfold time_time.
  apply steps_bind;
    [typeclasses eauto | now apply offline_ask | intros r].
  steps_go offline_leaf.
Qed.

#[local] Hint Extern 1 (steps offline (call_unit _ _)) =>
  apply offline_call_unit; reflexivity : steps.
#[local] Hint Extern 1 (steps offline (call_num _ _)) =>
  apply offline_call_num; reflexivity : steps.
#[local] Hint Extern 1 (steps offline (call_int _ _)) =>
  apply offline_call_int; reflexivity : steps.
#[local] Hint Extern 1 (steps offline (call_pure _ _)) =>
  apply offline_call_pure; reflexivity : steps.
#[local] Hint Extern 1 (steps offline (call_bool _ _)) =>
  apply offline_call_bool; reflexivity : steps.
#[local] Hint Resolve offline_time_time : steps.

Lemma offline_set_wifi (b : bool) : steps offline (set_wifi b).
Proof. unfold set_wifi. steps_go offline_leaf. Qed.
Lemma offline_set_mqtt (b : bool) : steps offline (set_mqtt b).
Proof. unfold set_mqtt. steps_go offline_leaf. Qed.
Lemma offline_set_failed (name : string) (n : Z) :
  steps offline (set_failed name n).
Proof. unfold set_failed. steps_go offline_leaf. Qed.
Lemma offline_is_mqtt_connected : steps offline is_mqtt_connected.
Proof. unfold is_mqtt_connected. steps_go offline_leaf. Qed.
#[local] Hint Resolve offline_set_wifi offline_set_mqtt offline_set_failed
  offline_is_mqtt_connected : steps.

Lemma offline_wifi_wait (remaining : nat) :
  steps offline (wifi_wait w remaining).
Proof.
  induction remaining as [|k IH]; cbn [wifi_wait]; steps_go offline_leaf.
Qed.
#[local] Hint Resolve offline_wifi_wait : steps.

Lemma offline_connect_wifi : steps offline (connect_wifi w).
Proof. unfold connect_wifi. steps_go offline_leaf. Qed.
#[local] Hint Resolve offline_connect_wifi : steps.

Lemma offline_check_wifi : steps offline (check_wifi w).
Proof. unfold check_wifi. steps_go offline_leaf. Qed.

Lemma offline_keepalive : steps offline (keepalive w).
Proof.
  offline_guarded. unfold keepalive. wp_run.
  all: rewrite ?Hnone in *; cbn [not_none andb] in *;
    rewrite ?andb_false_r in *; try discriminate.
  all: now split.
Qed.

Lemma offline_safe_publish (topic : string) (value : payload)
    (retain : bool) :
  steps offline (safe_publish w topic value retain).
Proof.
  intros s Hnone. unfold exec. rewrite safe_publish_run.
  unfold session_up. rewrite Hnone. cbn [not_none andb snd]. now split.
Qed.
#[local] Hint Resolve offline_safe_publish : steps.

Lemma offline_publish_loop (data : list (string * option Q)) (count : Z) :
  steps offline (publish_loop w data count).
Proof.
  revert count.
  induction data as [|[sensor_type [v|]] rest IH]; intros count;
    cbn [publish_loop]; steps_go offline_leaf.
Qed.
#[local] Hint Resolve offline_publish_loop : steps.

Lemma offline_publish_sensor_data (temp hum lux moisture : option Q) :
  steps offline (publish_sensor_data w temp hum lux moisture).
Proof. unfold publish_sensor_data. steps_go offline_leaf. Qed.

Lemma offline_publish_discovery_config :
  steps offline (publish_discovery_config w).
Proof.
  offline_guarded. unfold publish_discovery_config. wp_run.
  all: rewrite ?Hnone in *; cbn [not_none andb negb orb] in *;
    rewrite ?orb_true_r in *; try discriminate.
  all: now split.
Qed.

Lemma offline_publish_device_status :
  steps offline (publish_device_status w).
Proof.
  unfold publish_device_status, device_status, working_sensors,
    total_sensors, sensor_working, is_healthy.
  steps_go offline_leaf.
Qed.
#[local] Hint Resolve offline_publish_device_status : steps.

Lemma offline_check_mqtt : steps offline (check_mqtt w).
Proof.
  offline_guarded. unfold check_mqtt. apply wp_bind, wp_gets.
  rewrite Hnone. cbn [not_none]. unfold set_mqtt. apply wp_modify.
  state_simpl. now split.
Qed.

Lemma offline_check_connections : steps offline (check_connections w).
Proof.
  unfold check_connections.
  pose proof offline_check_wifi. pose proof offline_check_mqtt.
  steps_go offline_leaf.
Qed.

Lemma offline_update_oled (temp hum lux moisture : option Q) :
  steps offline (update_oled w temp hum lux moisture).
Proof. unfold update_oled. steps_go offline_leaf. Qed.

Lemma offline_read_sensors_once : steps offline (read_sensors_once cfg w).
Proof.
  unfold read_sensors_once, safe_sensor_read, read_dht, read_lux, read_soil.
  steps_go offline_leaf.
Qed.

Lemma offline_tick : steps offline (tick cfg w).
Proof.
  pose proof offline_keepalive. pose proof offline_check_connections.
  pose proof offline_update_oled. pose proof offline_publish_sensor_data.
  pose proof offline_read_sensors_once.
  unfold tick, gc_block, force_gc, connection_block, status_block,
    read_block, read_cycle, store_readings, publish_block, publish_cycle,
    clear_readings.
  steps_go offline_leaf.
Qed.

Lemma offline_ticks (n : nat) : steps offline (ticks cfg w n).
Proof.
  induction n as [|k IH]; cbn [ticks]; [apply steps_ret; typeclasses eauto |].
  apply steps_bind; [typeclasses eauto | apply offline_tick | auto].
Qed.

End Offline.

(** X18.  Once the client object is gone ([mqtt_client] is [None], as
    after a failed [connect_mqtt]), the loop never brings it back: however
    many iterations run and whatever the network does, the client stays
    [None], the session stays down and not a single MQTT call (connect,
    ping, publish, check_msg, disconnect) is made.  The connectivity
    check only pings an existing client; without one it just clears the
    flag. *)
Theorem no_reconnect_without_client (cfg : config) (w : world) (n : nat)
    (s : state) (Hnone : mqtt_client s = None) :
  let s' := exec (ticks cfg w n) s in
  mqtt_client s' = None /\
  session_up s' = false /\
  mqtt_calls s' = mqtt_calls s.
Proof.
  cbv zeta. destruct (offline_ticks cfg w n s Hnone) as [Hnone' Hcalls].
  split; [exact Hnone' |]. split; [| exact Hcalls].
  unfold session_up. now rewrite Hnone'.
Qed.

Lemma no_reconnect_without_client_witness :
  let w := world_failing_at 13 in
  let s := exec (program config_example w 0) initial_state in
  mqtt_client s = None /\
  mqtt_calls s = [MqttConnect] /\
  mqtt_calls (exec (ticks config_example w 5) s) = mqtt_calls s.
Proof.
  cbv zeta.
  assert (Hnone : mqtt_client
                    (exec (program config_example (world_failing_at 13) 0)
                       initial_state) = None) by (vm_compute; reflexivity).
  split; [exact Hnone |].
  split; [vm_compute; reflexivity |].
  exact (proj2 (proj2 (no_reconnect_without_client
                         config_example (world_failing_at 13) 5 _ Hnone))).
Defined.

(** ** Temperature and humidity are stored in pairs *)

Lemma quiet_keeps_paired (s s' : state) :
  quiet s s' -> keeping dht_windows_paired s s'.
Proof.
  intros (_ & (Ht & Hh & _) & _). unfold keeping, dht_windows_paired.
  now rewrite Ht, Hh.
Qed.

Lemma paired_steps_quiet {A} (m : M A) :
  steps quiet m -> steps (keeping dht_windows_paired) m.
Proof. apply steps_weaken, quiet_keeps_paired. Qed.

Section Paired.

Variable cfg : config.
Variable w : world.

Lemma safe_read_dht_paired (s : state) :
  wp (safe_sensor_read "dht11" (read_dht w))
     (fun r _ =>
        match r with
        | Val r' =>
            not_none (fst (default (None, None) r'))
            = not_none (snd (default (None, None) r'))
        | Exc _ => True
        end) s.
Proof.
  unfold safe_sensor_read, read_dht. wp_run; try exact I; reflexivity.
Qed.

Lemma read_sensors_once_paired (s : state) :
  wp (read_sensors_once cfg w)
     (fun r s' =>
        (temp_readings s' = temp_readings s /\
         hum_readings s' = hum_readings s) /\
        match r with
        | Val (temp, hum, _, _) => not_none temp = not_none hum
        | Exc _ => True
        end) s.
Proof.
  split.
  { destruct (steps_read_sensors_once cfg w s) as [_ Hsame].
    now destruct Hsame as (Ht & Hh & _). }
  change (wp (read_sensors_once cfg w)
            (fun r _ => match r with
                        | Val (temp, hum, _, _) => not_none temp = not_none hum
                        | Exc _ => True
                        end) s).
  unfold read_sensors_once. apply wp_bind.
  eapply wp_mono; [apply safe_read_dht_paired |].
  cbv beta. intros [r|e] s1 Hpair; [| exact I].
  destruct (default (None, None) r) as [temp hum]. cbn [fst snd] in Hpair.
  apply wp_bind. apply (wp_of_steps (fun _ _ => True)); [intros ?; exact I |].
  intros [l|e] s2 _; [| exact I].
  apply wp_bind. apply (wp_of_steps (fun _ _ => True)); [intros ?; exact I |].
  intros [m|e] s3 _; [| exact I].
  apply wp_bind. apply (wp_of_steps (fun _ _ => True)); [intros ?; exact I |].
  intros [moisture|e] s4 _; [exact Hpair | exact I].
Qed.

Lemma paired_steps_read_block (current_time : Z) :
  steps (keeping dht_windows_paired) (read_block cfg w current_time).
Proof.
  intros s.
  change (wp (read_block cfg w current_time)
            (fun _ s' => keeping dht_windows_paired s s') s).
  unfold read_block. apply wp_bind, wp_gets. cbv beta iota.
  unfold when. destruct (_ >=? _); [| apply wp_ret; now intros ?].
  unfold read_cycle. apply wp_bind.
  eapply wp_mono; [apply read_sensors_once_paired |].
  cbv beta. intros [[[[temp hum] lux] moisture]|e] s1 [[Ht Hh] Hpair];
    [| unfold keeping, dht_windows_paired; now rewrite Ht, Hh].
  unfold store_readings. wp_run.
  all: unfold keeping, dht_windows_paired; state_simpl; rewrite ?Ht, ?Hh;
    intros Hold; try assumption.
  all: destruct temp as [t|], hum as [h|]; cbn [not_none] in *;
    try discriminate.
  all: rewrite !length_app; cbn; lia.
Qed.

Lemma paired_steps_publish_block (current_time : Z) :
  steps (keeping dht_windows_paired) (publish_block cfg w current_time).
Proof.
  intros s.
  change (wp (publish_block cfg w current_time)
            (fun _ s' => keeping dht_windows_paired s s') s).
  unfold publish_block. apply wp_bind, wp_gets. cbv beta iota.
  unfold when. destruct (_ >=? _); [| apply wp_ret; now intros ?].
  destruct (publish_cycle_effect w current_time s) as (_ & Hempty & _).
  unfold wp, keeping, dht_windows_paired. intros _.
  unfold windows_empty, windows_of in Hempty.
  apply Forall_cons in Hempty as [Ht Hempty].
  apply Forall_cons in Hempty as [Hh _].
  now rewrite Ht, Hh.
Qed.

Lemma paired_steps_tick : steps (keeping dht_windows_paired) (tick cfg w).
Proof.
  unfold tick.
  apply steps_bind;
    [typeclasses eauto | apply paired_steps_quiet, steps_time_time
    | intros current_time].
  apply steps_bind;
    [typeclasses eauto | apply paired_steps_quiet, steps_keepalive
    | intros _].
  apply steps_bind;
    [typeclasses eauto | apply paired_steps_quiet, steps_gc_block
    | intros _].
  apply steps_bind;
    [typeclasses eauto | apply paired_steps_quiet, steps_connection_block
    | intros _].
  apply steps_bind;
    [typeclasses eauto
    | apply paired_steps_quiet; unfold status_block; steps_go quiet_leaf
    | intros _].
  apply steps_bind;
    [typeclasses eauto | apply paired_steps_read_block | intros _].
  apply paired_steps_publish_block.
Qed.

Lemma paired_steps_ticks (n : nat) :
  steps (keeping dht_windows_paired) (ticks cfg w n).
Proof.
  induction n as [|k IH]; cbn [ticks]; [apply steps_ret; typeclasses eauto |].
  apply steps_bind; [typeclasses eauto | apply paired_steps_tick | auto].
Qed.

End Paired.

(** X19.  A DHT11 read gives a temperature and a humidity or neither, so
    in every state the program reaches the temperature window and the
    humidity window hold the same number of readings: the two averages
    of a publish cycle are always taken over the same reads. *)
Theorem temperature_humidity_paired (cfg : config) (w : world) (n : nat) :
  let s := exec (program cfg w n) initial_state in
  length (temp_readings s) = length (hum_readings s) /\
  not_none (mean_or_none (temp_readings s))
  = not_none (mean_or_none (hum_readings s)).
Proof.
  cbv zeta.
  assert (Hsteps : steps (keeping dht_windows_paired) (program cfg w n)).
  { unfold program.
    apply steps_bind; [typeclasses eauto | | intros ?].
    - apply (steps_weaken same_windows); [| apply frame_initialize_sensors].
      intros s s' (Ht & Hh & _). unfold keeping, dht_windows_paired.
      now rewrite Ht, Hh.
    - apply steps_bind; [typeclasses eauto | | intros ?].
      + apply paired_steps_quiet, steps_startup.
      + apply paired_steps_ticks. }
  assert (Hpaired : dht_windows_paired (exec (program cfg w n) initial_state))
    by (apply Hsteps; reflexivity).
  split; [exact Hpaired |].
  unfold dht_windows_paired in Hpaired.
  destruct (temp_readings _), (hum_readings _); cbn in Hpaired |- *;
    congruence.
Qed.

(** ** The three timers of housekeeping *)

#[local] Instance same_timers_preorder : PreOrder same_timers.
Proof.
  split; unfold same_timers.
  - intros s. repeat split.
  - intros s1 s2 s3 (Ha & Hb & Hc) (Ha' & Hb' & Hc').
    repeat split; congruence.
Qed.

Ltac timers_leaf :=
  idtac;
  let s := fresh "s" in
  intros s; unfold same_timers; state_simpl; repeat split; reflexivity.

Ltac timers_go :=
  unfold call_unit, call_num, call_int, call_pure, call_bool, time_time,
    set_wifi, set_mqtt, set_failed, is_mqtt_connected;
  steps_go timers_leaf.

Lemma steps_both (R1 R2 : relation state) {A} (m : M A) :
  steps R1 m -> steps R2 m -> steps (fun s s' => R1 s s' /\ R2 s s') m.
Proof. intros H1 H2 s. split; [apply H1 | apply H2]. Qed.

Section Timers.

Variable cfg : config.
Variable w : world.

Lemma timers_wifi_wait (remaining : nat) :
  steps same_timers (wifi_wait w remaining).
Proof. induction remaining as [|k IH]; cbn [wifi_wait]; timers_go. Qed.
#[local] Hint Resolve timers_wifi_wait : steps.

Lemma timers_discovery_loop (ids : list string) :
  steps same_timers (discovery_loop w ids).
Proof. induction ids as [|id rest IH]; cbn [discovery_loop]; timers_go. Qed.
#[local] Hint Resolve timers_discovery_loop : steps.

Lemma timers_safe_publish (topic : string) (value : payload)
    (retain : bool) :
  steps same_timers (safe_publish w topic value retain).
Proof. unfold safe_publish. timers_go. Qed.
#[local] Hint Resolve timers_safe_publish : steps.

Lemma timers_publish_loop (data : list (string * option Q)) (count : Z) :
  steps same_timers (publish_loop w data count).
Proof.
  revert count.
  induction data as [|[sensor_type [v|]] rest IH]; intros count;
    cbn [publish_loop]; timers_go.
Qed.
#[local] Hint Resolve timers_publish_loop : steps.

Lemma timers_publish_device_status :
  steps same_timers (publish_device_status w).
Proof.
  unfold publish_device_status, device_status, working_sensors,
    total_sensors, sensor_working, is_healthy.
  timers_go.
Qed.
#[local] Hint Resolve timers_publish_device_status : steps.

Lemma timers_keepalive : steps same_timers (keepalive w).
Proof. unfold keepalive. timers_go. Qed.

Lemma timers_check_connections : steps same_timers (check_connections w).
Proof.
  unfold check_connections, check_wifi, check_mqtt, reconnect_mqtt,
    connect_wifi, connect_mqtt, publish_discovery_config.
  timers_go.
Qed.

Lemma timers_read_block (current_time : Z) :
  steps same_timers (read_block cfg w current_time).
Proof.
  unfold read_block, read_cycle, store_readings, read_sensors_once,
    safe_sensor_read, read_dht, read_lux, read_soil.
  timers_go.
Qed.

Lemma timers_publish_block (current_time : Z) :
  steps same_timers (publish_block cfg w current_time).
Proof.
  unfold publish_block, publish_cycle, clear_readings, update_oled,
    publish_sensor_data.
  timers_go.
Qed.

(** The garbage-collection block: it never raises, and stamps its timer
    exactly when 300 seconds have passed. *)
Lemma gc_block_timers (current_time : Z) (s : state) :
  inv s ->
  wp (gc_block w current_time)
     (fun r s' =>
        r = Val tt /\ inv s' /\
        last_gc_time s'
        = (if current_time - last_gc_time s >=? 300 then current_time
           else last_gc_time s) /\
        last_connection_check s' = last_connection_check s /\
        last_status_update s' = last_status_update s) s.
Proof.
  intros Hinv. unfold gc_block, force_gc. wp_run.
  all: split; [reflexivity |]; split; [revert Hinv; inv_solve |].
  all: repeat split.
Qed.

Lemma connection_block_timers (current_time : Z) (s : state) :
  inv s ->
  wp (connection_block w current_time)
     (fun r s' =>
        r = Val tt /\ inv s' /\
        last_gc_time s' = last_gc_time s /\
        last_connection_check s'
        = (if current_time - last_connection_check s >=? 60
           then current_time else last_connection_check s) /\
        last_status_update s' = last_status_update s) s.
Proof.
  intros Hinv. unfold connection_block. apply wp_bind, wp_gets.
  cbv beta iota. unfold when. destruct (_ >=? _).
  - apply wp_bind.
    apply (wp_total inv (fun a b => keeping inv a b /\ same_timers a b));
      [ apply returns_check_connections
      | apply steps_both;
        [auto 2 with steps nocore | apply timers_check_connections]
      | exact Hinv |].
    intros [] s1 [Hkeep (Hg & Hc & Hu)]. apply wp_modify. state_simpl.
    split; [reflexivity |].
    split; [specialize (Hkeep Hinv); revert Hkeep; inv_solve |].
    repeat split; assumption.
  - apply wp_ret. split; [reflexivity |]. split; [exact Hinv |]. repeat split.
Qed.

Lemma status_block_timers (current_time : Z) (s : state) :
  inv s ->
  wp (status_block cfg w current_time)
     (fun r s' =>
        r = Val tt /\ inv s' /\
        last_gc_time s' = last_gc_time s /\
        last_connection_check s' = last_connection_check s /\
        last_status_update s'
        = (if current_time - last_status_update s
              >=? STATUS_UPDATE_INTERVAL cfg
           then current_time else last_status_update s)) s.
Proof.
  intros Hinv. unfold status_block. apply wp_bind, wp_gets.
  cbv beta iota. unfold when. destruct (_ >=? _).
  - apply wp_bind.
    apply (wp_total inv (fun a b => keeping inv a b /\ same_timers a b));
      [ apply returns_publish_device_status
      | apply steps_both;
        [auto 2 with steps nocore | apply timers_publish_device_status]
      | exact Hinv |].
    intros delivered s1 [Hkeep (Hg & Hc & Hu)]. apply wp_modify. state_simpl.
    split; [reflexivity |].
    split; [specialize (Hkeep Hinv); revert Hkeep; inv_solve |].
    repeat split; assumption.
  - apply wp_ret. split; [reflexivity |]. split; [exact Hinv |]. repeat split.
Qed.

End Timers.

